(** * Stock-Audit-Software: inventory reconciliation and audit engine

    A shallow embedding of the TypeScript sources
    - [context/InventoryContext]      (provider operations, summaries,
                                       locations, search, questionnaire),
    - [context/UserContext]           ([hasPermission]),
    - [services/SupabaseDataService]  (row mapping and keyed upsert calls,
                                       locations, questions and answers),
    - [components/scanner/BarcodeScanner] ([handleItemScan] and the
                                       hardware scanner listener),
    - [components/inventory/InventoryTable] (table rows and statistics),
    - [components/search/SearchInventory]   (search and quantity buttons),
    - the [FileUploader] component        ([handleImport], the import button),
    together with the properties the specification states about them and
    further properties of the code.

    Conventions of the embedding
    - a JavaScript [number] holding a quantity is an integer of [Z];
    - an optional field ([x?: T], or a column read back as [null]) is an
      [option]; [None] stands for [undefined] and for [null] alike, which
      the code does not tell apart, except in [physicalQuantity]: there
      [updateAuditedItem] tests [!== undefined], so that field is a [Count],
      with [Undefined], [Null] and [Number n];
    - [a || b] on an optional value is written out by cases (see [or_zero],
      [or_pending], [or_notes]);
    - an [async] function is a computation of the monad [M] below: it threads
      the provider state and the persistence collaborator's table, and may
      throw;
    - [console.*] output and component-local presentation state (spinners,
      toast descriptions) are not modelled. *)

From Stdlib Require Import List String Ascii ZArith Bool Lia DecimalString.
Import ListNotations.

Local Open Scope string_scope.
Local Open Scope Z_scope.

(** ** Data model (InventoryContext) *)

Inductive Status : Type := pending | matched | discrepancy.

Inductive Role : Type := admin | auditor | client.

Definition Status_eqb (a b : Status) : bool :=
  match a, b with
  | pending, pending | matched, matched | discrepancy, discrepancy => true
  | _, _ => false
  end.

Definition Role_eqb (a b : Role) : bool :=
  match a, b with
  | admin, admin | auditor, auditor | client, client => true
  | _, _ => false
  end.

(** The values of [physicalQuantity]: the interface declares
    [physicalQuantity?: number], so a record built by a caller has a number
    or leaves the field [undefined]; a record the data service reads back
    from a row whose column is NULL carries [null]. *)
Inductive Count : Type :=
| Undefined
| Null
| Number (n : Z).

(** The number a count holds, if it holds one. *)
Definition number_of (c : Count) : option Z :=
  match c with
  | Number n => Some n
  | Null | Undefined => None
  end.

(** A column as it is read back: NULL is [null]. *)
Definition of_column (c : option Z) : Count :=
  match c with
  | Some n => Number n
  | None => Null
  end.

(** [c !== undefined] *)
Definition is_defined (c : Count) : bool :=
  match c with
  | Undefined => false
  | Null | Number _ => true
  end.

(** [interface InventoryItem]; [companyId] is read and written by the data
    service although the interface does not list it. *)
Record InventoryItem : Type := mkInventoryItem {
  id : string;
  sku : string;
  name : option string;
  category : option string;
  location : string;
  systemQuantity : Z;
  physicalQuantity : Count;
  status : option Status;
  lastAudited : option string;
  notes : option string;
  companyId : option string
}.

(** [interface Location] *)
Record Location : Type := mkLocation {
  loc_id : string;
  loc_name : string;
  loc_description : option string;
  loc_active : option bool
}.

(** [interface UserProfile], the fields the engine reads. *)
Record UserProfile : Type := mkUserProfile {
  user_id : string;
  role : Role;
  assignedLocations : list string
}.

(** ** JavaScript operators on optional values *)

(** [q || 0] on a number that may be missing: [undefined], [null] and [0]
    all give [0]. *)
Definition or_zero (q : option Z) : Z :=
  match q with
  | Some n => if n =? 0 then 0 else n
  | None => 0
  end.

(** [s || 'pending'] on an optional status tag (every tag is truthy). *)
Definition or_pending (s : option Status) : Status :=
  match s with
  | Some t => t
  | None => pending
  end.

(** [a || b] on optional strings: the empty string is falsy. *)
Definition or_notes (a b : option string) : option string :=
  match a with
  | Some s => if String.eqb s "" then b else Some s
  | None => b
  end.

(** ** The persistence collaborator: table [inventory_items] *)

(** The object built by [inventoryItemToDb]: the columns the service submits.
    The [id] column is never submitted; the database assigns it. *)
Record DbItem : Type := mkDbItem {
  db_sku : string;
  db_name : option string;
  db_location : string;
  system_quantity : Z;
  physical_quantity : option Z;
  db_status : option Status;
  last_audited : option string;
  db_notes : option string;
  company_id : option string
}.

(** A stored row: the database-assigned [id] and the submitted columns. *)
Record DbRow : Type := mkDbRow {
  db_id : string;
  db_cols : DbItem
}.

Inductive Query : Type := QItemMaster | QClosingStock | QAuditedItems.

(** Requests issued to the collaborator, in order. *)
Inductive Call : Type :=
| CUpsert (rows : list DbItem)
| CSelect (q : Query).

(** What the engine cannot decide by itself: the clock, the identifiers the
    database assigns, and whether a request to the database fails. *)
Record Env : Type := mkEnv {
  clock : nat -> string;
  gen_id : list DbRow -> string;
  upsert_error : list DbRow -> list DbItem -> option string;
  select_error : list DbRow -> Query -> bool
}.

(** [private dbToInventoryItem(dbItem)]. No [category] is read back.
    [Number(x) || 0] is the identity on an integer column;
    [physical_quantity] is passed on as it is, NULL as [null]. *)
Definition dbToInventoryItem (dbItem : DbRow) : InventoryItem :=
  let c := db_cols dbItem in
  {| id := db_id dbItem;
     sku := db_sku c;
     name := db_name c;
     category := None;
     location := db_location c;
     systemQuantity := or_zero (Some (system_quantity c));
     physicalQuantity := of_column (physical_quantity c);
     status := db_status c;
     lastAudited := last_audited c;
     notes := db_notes c;
     companyId := company_id c |}.

(** [private inventoryItemToDb(item)]. A [physicalQuantity] that is
    [undefined] leaves the column out of the submitted object and [null]
    submits NULL; the stored column is NULL in both cases. *)
Definition inventoryItemToDb (item : InventoryItem) : DbItem :=
  {| db_sku := sku item;
     db_name := name item;
     db_location := location item;
     system_quantity := systemQuantity item;
     physical_quantity := number_of (physicalQuantity item);
     db_status := Some (or_pending (status item));
     last_audited := lastAudited item;
     db_notes := notes item;
     company_id := companyId item |}.

(** The conflict target [onConflict: 'sku,location']. *)
Definition same_key (r : DbItem) (x : DbRow) : bool :=
  String.eqb (db_sku (db_cols x)) (db_sku r)
  && String.eqb (db_location (db_cols x)) (db_location r).

(** Keyed upsert of one row, as the specification describes the
    collaborator (section 6: insert-or-update keyed on SKU and location): a
    stored row with the same key takes the submitted columns and keeps its
    [id]; otherwise the row is inserted under a fresh [id]. *)
Definition upsert_row (E : Env) (tbl : list DbRow) (r : DbItem) : list DbRow :=
  if existsb (same_key r) tbl
  then map (fun x => if same_key r x then mkDbRow (db_id x) r else x) tbl
  else tbl ++ [mkDbRow (gen_id E tbl) r].

Definition upsert_rows (E : Env) (tbl : list DbRow) (rows : list DbItem)
  : list DbRow :=
  fold_left (upsert_row E) rows tbl.

(** The row filters of the three [select] requests. *)
Definition select_filter (q : Query) (x : DbRow) : bool :=
  match q with
  | QItemMaster => true (* .not('sku', 'is', null): the key column is set *)
  | QClosingStock =>
      match physical_quantity (db_cols x) with Some _ => true | None => false end
  | QAuditedItems =>
      match last_audited (db_cols x) with Some _ => true | None => false end
  end.

(** ** Provider state and the monad of asynchronous operations *)

Inductive ToastKind : Type := TError | TWarning | TSuccess.

Record Toast : Type := mkToast {
  toast_kind : ToastKind;
  toast_title : string
}.

Record St : Type := mkSt {
  db : list DbRow;                     (* table inventory_items *)
  calls : list Call;                   (* requests sent so far *)
  clock_reads : nat;                   (* [new Date()] evaluations so far *)
  itemMaster : list InventoryItem;     (* useState mirrors *)
  closingStock : list InventoryItem;
  auditedItems : list InventoryItem;
  locations : list Location;
  toasts : list Toast                  (* notifications shown so far *)
}.

Inductive Res (A : Type) : Type :=
| Ok (a : A)
| Throw (e : string).
Arguments Ok {A} a.
Arguments Throw {A} e.

Definition M (A : Type) : Type := St -> Res A * St.

Definition ret {A : Type} (a : A) : M A := fun st => (Ok a, st).

Definition bind {A B : Type} (m : M A) (k : A -> M B) : M B :=
  fun st =>
    match m st with
    | (Ok a, st') => k a st'
    | (Throw e, st') => (Throw e, st')
    end.

Definition throw {A : Type} (e : string) : M A := fun st => (Throw e, st).

Definition try_catch {A : Type} (m : M A) (h : string -> M A) : M A :=
  fun st =>
    match m st with
    | (Ok a, st') => (Ok a, st')
    | (Throw e, st') => h e st'
    end.

Declare Scope m_scope.
Delimit Scope m_scope with m.
Notation "x <- c ;; k" := (bind c (fun x => k))
  (at level 61, c at next level, right associativity) : m_scope.
Notation "c ;; k" := (bind c (fun _ => k))
  (at level 61, right associativity) : m_scope.

Definition run {A : Type} (m : M A) (st : St) : St := snd (m st).
Definition result {A : Type} (m : M A) (st : St) : Res A := fst (m st).

Definition get_st : M St := fun st => (Ok st, st).

Definition set_db (d : list DbRow) : M unit := fun st =>
  (Ok tt, mkSt d (calls st) (clock_reads st) (itemMaster st) (closingStock st)
               (auditedItems st) (locations st) (toasts st)).

Definition log_call (c : Call) : M unit := fun st =>
  (Ok tt, mkSt (db st) (calls st ++ [c]) (clock_reads st) (itemMaster st)
               (closingStock st) (auditedItems st) (locations st) (toasts st)).

Definition setItemMasterState (l : list InventoryItem) : M unit := fun st =>
  (Ok tt, mkSt (db st) (calls st) (clock_reads st) l (closingStock st)
               (auditedItems st) (locations st) (toasts st)).

Definition setClosingStockState (l : list InventoryItem) : M unit := fun st =>
  (Ok tt, mkSt (db st) (calls st) (clock_reads st) (itemMaster st) l
               (auditedItems st) (locations st) (toasts st)).

Definition setAuditedItemsState (l : list InventoryItem) : M unit := fun st =>
  (Ok tt, mkSt (db st) (calls st) (clock_reads st) (itemMaster st)
               (closingStock st) l (locations st) (toasts st)).

Definition toast (k : ToastKind) (title : string) : M unit := fun st =>
  (Ok tt, mkSt (db st) (calls st) (clock_reads st) (itemMaster st)
               (closingStock st) (auditedItems st) (locations st)
               (toasts st ++ [mkToast k title])).

Definition is_some {A : Type} (o : option A) : bool :=
  match o with Some _ => true | None => false end.

(** ** services/SupabaseDataService *)

Module SupabaseDataService.
Section Service.
Variable E : Env.

(** [supabase.from('inventory_items').upsert(dbItems, { onConflict:
    'sku,location' })] followed by [if (error) throw error]; the enclosing
    [catch] logs and rethrows. *)
Definition upsert (dbItems : list DbItem) : M unit :=
  (st <- get_st ;;
   log_call (CUpsert dbItems) ;;
   match upsert_error E (db st) dbItems with
   | Some e => throw e
   | None => set_db (upsert_rows E (db st) dbItems)
   end)%m.

(** What a [get...] method returns for the table [tbl]: the filtered rows
    mapped through [dbToInventoryItem], or the empty array of the [catch]
    branch when the request fails. *)
Definition selected (tbl : list DbRow) (q : Query) : list InventoryItem :=
  if select_error E tbl q then []
  else map dbToInventoryItem (filter (select_filter q) tbl).

(** [supabase.from('inventory_items').select('*').not(col, 'is', null)]
    inside [try { ... } catch { return [] }]. *)
Definition select (q : Query) : M (list InventoryItem) :=
  (st <- get_st ;;
   log_call (CSelect q) ;;
   ret (selected (db st) q))%m.

Definition setItemMaster (items : list InventoryItem) : M unit :=
  if (0 <? Z.of_nat (List.length items))
  then upsert (map inventoryItemToDb items)
  else ret tt.

Definition getItemMaster : M (list InventoryItem) := select QItemMaster.

Definition setClosingStock (items : list InventoryItem) : M unit :=
  if (0 <? Z.of_nat (List.length items))
  then upsert (map inventoryItemToDb items)
  else ret tt.

Definition getClosingStock : M (list InventoryItem) := select QClosingStock.

Definition setAuditedItems (items : list InventoryItem) : M unit :=
  if (0 <? Z.of_nat (List.length items))
  then upsert (map inventoryItemToDb items)
  else ret tt.

Definition getAuditedItems : M (list InventoryItem) := select QAuditedItems.
End Service.
End SupabaseDataService.

(** ** context/InventoryContext *)

(** [getInventorySummary] and [getLocationSummary] return this object. *)
Record Summary : Type := mkSummary {
  totalItems : Z;
  auditedItemsCount : Z;
  pendingItems : Z;
  matchedCount : Z;
  discrepancies : Z
}.

Module InventoryContext.

(** [a.sku === b.sku && a.location === b.location] *)
Definition same_sku_location (a b : InventoryItem) : bool :=
  String.eqb (sku a) (sku b) && String.eqb (location a) (location b).

(** [a !== undefined && s === a]: [s === null] is false. *)
Definition defined_and_equal (s : Z) (a : Count) : bool :=
  is_defined a && match a with
                  | Number n => s =? n
                  | Null | Undefined => false
                  end.

(** The merge step of [setClosingStock]: the callback of [items.map]. *)
Definition mergeIncoming (master : list InventoryItem)
           (incomingItem : InventoryItem) : InventoryItem :=
  match find (fun i => same_sku_location i incomingItem) master with
  | Some existingItem =>
      {| id := id existingItem;
         sku := sku existingItem;
         name := name existingItem;
         category := category existingItem;
         location := location existingItem;
         systemQuantity := systemQuantity incomingItem;
         physicalQuantity := physicalQuantity existingItem;
         status := status existingItem;
         lastAudited := lastAudited existingItem;
         notes := notes existingItem;
         companyId := companyId existingItem |}
  | None => incomingItem
  end.

(** The object [itemToUpdate] built by [updateAuditedItem]. *)
Definition itemToUpdate (timestamp : string) (item : InventoryItem)
  : InventoryItem :=
  {| id := id item;
     sku := sku item;
     name := name item;
     category := category item;
     location := location item;
     systemQuantity := systemQuantity item;
     physicalQuantity := Number (or_zero (number_of (physicalQuantity item)));
     status :=
       Some (if defined_and_equal (systemQuantity item) (physicalQuantity item)
             then matched
             else if is_defined (physicalQuantity item) then discrepancy
                  else pending);
     lastAudited := Some timestamp;
     notes := notes item;
     companyId := companyId item |}.

(** [`${i.sku}-${i.location}`] *)
Definition auditedItemKey (i : InventoryItem) : string :=
  sku i ++ "-" ++ location i.

(** The [forEach] loop shared by both summaries: counts the master items
    whose first audited record with the same key is matched (first
    component) or a discrepancy (second component). *)
Definition countStatuses (master audited : list InventoryItem) : Z * Z :=
  fold_left
    (fun (acc : Z * Z) masterItem =>
       match find (fun a => same_sku_location a masterItem) audited with
       | Some a =>
           match status a with
           | Some matched => (fst acc + 1, snd acc)
           | Some discrepancy => (fst acc, snd acc + 1)
           | _ => acc
           end
       | None => acc
       end)
    master (0, 0).

(** [getInventorySummary], over the mirrors [itemMaster], [auditedItems].
    [new Set(keys).size] is the number of distinct key strings. *)
Definition getInventorySummary (st : St) : Summary :=
  let total := Z.of_nat (List.length (itemMaster st)) in
  let auditedItemKeys :=
    nodup string_dec (map auditedItemKey (auditedItems st)) in
  let audited := Z.of_nat (List.length auditedItemKeys) in
  let c := countStatuses (itemMaster st) (auditedItems st) in
  {| totalItems := total;
     auditedItemsCount := audited;
     pendingItems := total - audited;
     matchedCount := fst c;
     discrepancies := snd c |}.

(** [getLocationSummary(locationName)] *)
Definition getLocationSummary (st : St) (locationName : string) : Summary :=
  let locationItems :=
    filter (fun item => String.eqb (location item) locationName)
           (itemMaster st) in
  let locationAuditedItems :=
    filter (fun item => String.eqb (location item) locationName)
           (auditedItems st) in
  let total := Z.of_nat (List.length locationItems) in
  let audited := Z.of_nat (List.length locationAuditedItems) in
  let c := countStatuses locationItems locationAuditedItems in
  {| totalItems := total;
     auditedItemsCount := audited;
     pendingItems := total - audited;
     matchedCount := fst c;
     discrepancies := snd c |}.

Section Provider.
Variable E : Env.

(** [new Date().toISOString()] *)
Definition now : M string := fun st =>
  (Ok (clock E (clock_reads st)),
   mkSt (db st) (calls st) (S (clock_reads st)) (itemMaster st)
        (closingStock st) (auditedItems st) (locations st) (toasts st)).

Definition setItemMaster (items : list InventoryItem) : M unit :=
  (SupabaseDataService.setItemMaster E items ;;
   m <- SupabaseDataService.getItemMaster E ;;
   setItemMasterState m ;;
   c <- SupabaseDataService.getClosingStock E ;;
   setClosingStockState c)%m.

Definition setClosingStock (items : list InventoryItem) : M unit :=
  (st <- get_st ;;
   let mergedClosingStock := map (mergeIncoming (itemMaster st)) items in
   SupabaseDataService.setClosingStock E mergedClosingStock ;;
   m <- SupabaseDataService.getItemMaster E ;;
   setItemMasterState m ;;
   c <- SupabaseDataService.getClosingStock E ;;
   setClosingStockState c)%m.

(** [setClosingStock] as a closure held by a component: the function was
    made by the render in which the provider's [itemMaster] was [master],
    and it merges against that list whenever it is called, also after the
    provider's list has changed. [setClosingStock] above is the closure
    called in a settled state, where the two lists are the same. *)
Definition setClosingStockOver (master : list InventoryItem)
           (items : list InventoryItem) : M unit :=
  (let mergedClosingStock := map (mergeIncoming master) items in
   SupabaseDataService.setClosingStock E mergedClosingStock ;;
   m <- SupabaseDataService.getItemMaster E ;;
   setItemMasterState m ;;
   c <- SupabaseDataService.getClosingStock E ;;
   setClosingStockState c)%m.

Definition updateAuditedItem (item : InventoryItem) : M unit :=
  (t <- now ;;
   SupabaseDataService.setAuditedItems E [itemToUpdate t item] ;;
   m <- SupabaseDataService.getItemMaster E ;;
   setItemMasterState m ;;
   c <- SupabaseDataService.getClosingStock E ;;
   setClosingStockState c ;;
   a <- SupabaseDataService.getAuditedItems E ;;
   setAuditedItemsState a)%m.

Definition scanItem (barcode locationName : string) : M unit :=
  (st <- get_st ;;
   match find (fun i => (String.eqb (id i) barcode || String.eqb (sku i) barcode)
                        && String.eqb (location i) locationName)
              (itemMaster st) with
   | None =>
       throw ("Item with barcode " ++ barcode ++ " not found at location "
              ++ locationName)
   | Some item =>
       updateAuditedItem
         {| id := id item;
            sku := sku item;
            name := name item;
            category := category item;
            location := location item;
            systemQuantity := systemQuantity item;
            physicalQuantity :=
              Number ((match physicalQuantity item with
                       | Number n => n
                       | Null => 0          (* [null + 1] is [1] *)
                       | Undefined => 0
                       end) + 1);
            status := Some pending;
            lastAudited := lastAudited item;
            notes := notes item;
            companyId := companyId item |}
   end)%m.

Definition addItemToAudit (item : InventoryItem) (quantity : Z) : M unit :=
  if quantity <? 0 then ret tt
  else
    (t <- now ;;
     updateAuditedItem
       {| id := id item;
          sku := sku item;
          name := name item;
          category := category item;
          location := location item;
          systemQuantity := systemQuantity item;
          physicalQuantity := Number quantity;
          status := Some (if quantity =? systemQuantity item
                          then matched else discrepancy);
          lastAudited := Some t;
          notes := notes item;
          companyId := companyId item |})%m.
End Provider.
End InventoryContext.

(** ** components/scanner/BarcodeScanner *)

Module BarcodeScanner.
Section Scanner.
Variable E : Env.
(** [useUser().currentUser] and the result of [useUserAccess()
    .accessibleLocations()]; the hook lives in [hooks/useUserAccess], outside
    the files embedded here, so the locations it grants are an input. *)
Variable currentUser : option UserProfile.
Variable userAccessibleLocations : list Location.

(** [currentUser?.role === "admin"] *)
Definition isAdmin : bool :=
  match currentUser with
  | Some u => Role_eqb (role u) admin
  | None => false
  end.

(** Steps 3 to 6 of [handleItemScan], entered with the final value of the
    local [locationName]. *)
Definition commitScan (masterItem : InventoryItem) (locationName : string)
  : M bool :=
  (st <- get_st ;;
   let existingAuditedItem :=
     find (fun item => String.eqb (sku item) (sku masterItem)
                       && String.eqb (location item) locationName)
          (auditedItems st) in
   let initialPhysicalQuantity :=
     or_zero (match existingAuditedItem with
              | Some a => number_of (physicalQuantity a)
              | None => None
              end) in
   let newPhysicalQuantity := initialPhysicalQuantity + 1 in
   let status' :=
     if newPhysicalQuantity =? systemQuantity masterItem
     then matched else discrepancy in
   t <- InventoryContext.now E ;;
   let itemToUpdate :=
     {| id := id masterItem;
        sku := sku masterItem;
        name := name masterItem;
        category := category masterItem;
        location := locationName;
        systemQuantity := systemQuantity masterItem;
        physicalQuantity := Number newPhysicalQuantity;
        status := Some status';
        lastAudited := Some t;
        notes := or_notes (match existingAuditedItem with
                           | Some a => notes a
                           | None => None
                           end) (notes masterItem);
        companyId := None |} in
   InventoryContext.updateAuditedItem E itemToUpdate ;;
   (if Status_eqb status' matched
    then toast TSuccess "Item scanned - Matched!"
    else toast TWarning "Item scanned - Discrepancy detected!") ;;
   ret true)%m.

(** [handleItemScan(barcode, locationId)]. The guard on [typeof
    updateAuditedItem] never fires: the provider always supplies the
    function. *)
Definition handleItemScan (barcode locationId : string) : M bool :=
  try_catch
    (if String.eqb locationId ""
     then (toast TError "Location Required" ;; ret false)%m
     else
       (st <- get_st ;;
        let locationObj :=
          find (fun loc => String.eqb (loc_id loc) locationId) (locations st) in
        let locationName :=
          match locationObj with Some l => loc_name l | None => "" end in
        if String.eqb locationName ""
        then (toast TError "Invalid Location" ;; ret false)
        else
          match find (fun item => String.eqb (id item) barcode
                                  || String.eqb (sku item) barcode)
                     (itemMaster st) with
          | None => (toast TError "Item not found" ;; ret false)
          | Some masterItem =>
              if negb (String.eqb (location masterItem) locationName)
              then
                if isAdmin
                then (toast TWarning "Location mismatch" ;;
                      commitScan masterItem (location masterItem))
                else
                  match find (fun loc => String.eqb (loc_name loc)
                                                    (location masterItem))
                             userAccessibleLocations with
                  | None => (toast TError "Access denied" ;; ret false)
                  | Some _ =>
                      (toast TWarning "Location corrected" ;;
                       commitScan masterItem (location masterItem))
                  end
              else commitScan masterItem locationName
          end)%m)
    (fun _ => (toast TError "Scanning Error" ;; ret false)%m).
End Scanner.
End BarcodeScanner.

(** ** The FileUploader component *)

Module FileUploader.
Section Uploader.
Variable E : Env.
(** The CSV helpers live in [./utils/csvUtils], outside the files embedded
    here; [handleImport] is modelled over whatever they compute. *)
Variable CsvRow : Type.
Variable processCSV : string -> list CsvRow.
Variable processItemMasterData : list CsvRow -> list InventoryItem.
Variable processClosingStockData :
  list CsvRow -> option string -> list Location -> list InventoryItem.
(** Props and local state read by [handleImport]; a file is its text. *)
Variable userRole : Role.
Variable canUploadItemMaster canUploadClosingStock : bool.
Variable itemMasterFile closingStockFile : option string.
Variable selectedLocation : string.

(** The callback of [baseItems.map] in the item-master branch. *)
Definition zeroSystemQuantity (item : InventoryItem) : InventoryItem :=
  {| id := id item;
     sku := sku item;
     name := name item;
     category := category item;
     location := location item;
     systemQuantity := 0;
     physicalQuantity := physicalQuantity item;
     status := status item;
     lastAudited := lastAudited item;
     notes := notes item;
     companyId := companyId item |}.

(** The item-master branch; [false] records an early [return]. *)
Definition importItemMaster : M bool :=
  match itemMasterFile with
  | Some text =>
      if canUploadItemMaster then
        let items := processCSV text in
        if (Z.of_nat (List.length items) =? 0)
        then (toast TError "Invalid file format or empty file" ;; ret false)%m
        else
          let baseItems := processItemMasterData items in
          let processedItems := map zeroSystemQuantity baseItems in
          if (Z.of_nat (List.length processedItems) =? 0)
          then (toast TError "No items were processed." ;; ret false)%m
          else
            (InventoryContext.setItemMaster E processedItems ;;
             toast TSuccess "Item master data imported" ;;
             ret true)%m
      else ret true
  | None => ret true
  end.

(** The closing-stock branch. [rendered] is the provider's state in the
    render that made the handler: the handler reads [locations] and calls
    [setClosingStock] as that render handed them over, so the merge is
    against the [itemMaster] of [rendered], not against the list the
    item-master branch has just stored. *)
Definition importClosingStock (rendered : St) : M unit :=
  match closingStockFile with
  | Some text =>
      if canUploadClosingStock then
        let items := processCSV text in
        if (Z.of_nat (List.length items) =? 0)
        then toast TError "Invalid file format or empty file"
        else
          let locationToUse :=
            if Role_eqb userRole auditor then Some selectedLocation
            else None in
          let processedItems :=
            processClosingStockData items locationToUse (locations rendered) in
          (InventoryContext.setClosingStockOver E (itemMaster rendered)
                                                processedItems ;;
           toast TSuccess "Closing stock data imported")%m
      else ret tt
  | None => ret tt
  end.

(** [handleImport()], called in a settled state: the render that made the
    handler holds the provider's current state. *)
Definition handleImport : M unit :=
  (rendered <- get_st ;;
   if Role_eqb userRole auditor && canUploadClosingStock
      && is_some closingStockFile
      && (String.eqb selectedLocation "" || String.eqb selectedLocation "default")
   then toast TError "Please select a location"
   else
     try_catch
       (continue <- importItemMaster ;;
        if continue then importClosingStock rendered else ret tt)
       (fun _ => toast TError "Import failed"))%m.
End Uploader.
End FileUploader.

(** ** FileUploader: the import button *)

(** [isImportButtonDisabled()] of the FileUploader component; [isImporting]
    is the component's local flag. *)
Definition isImportButtonDisabled (isImporting : bool) (userRole : Role)
           (canUploadItemMaster canUploadClosingStock : bool)
           (itemMasterFile closingStockFile : option string)
           (selectedLocation : string) : bool :=
  if isImporting then true
  else
    let hasItemMasterFile := canUploadItemMaster && is_some itemMasterFile in
    let hasClosingStockFile := canUploadClosingStock && is_some closingStockFile in
    if negb hasItemMasterFile && negb hasClosingStockFile then true
    else if canUploadClosingStock && negb canUploadItemMaster
            && is_some closingStockFile
    then Role_eqb userRole auditor
         && (String.eqb selectedLocation ""
             || String.eqb selectedLocation "default")
    else false.

(** ** context/UserContext: permissions *)

(** [currentUser?.role === "admin"], as every component tests it. *)
Definition roleIsAdmin (currentUser : option UserProfile) : bool :=
  match currentUser with
  | Some u => Role_eqb (role u) admin
  | None => false
  end.

Module UserContext.
(** [hasPermission(permission)] of [src/context/UserContext.tsx]. *)
Definition hasPermission (currentUser : option UserProfile)
           (permission : string) : bool :=
  match currentUser with
  | None => false
  | Some u =>
      if String.eqb permission "manageUsers" then Role_eqb (role u) admin
      else if String.eqb permission "conductAudits"
      then Role_eqb (role u) admin || Role_eqb (role u) auditor
      else false
  end.
End UserContext.

Module UserContextWide.
(** [hasPermission(permission)] of the repository's other UserContext, the
    one that also grants ["viewAllLocations"] and ["viewReports"]. *)
Definition hasPermission (currentUser : option UserProfile)
           (permission : string) : bool :=
  match currentUser with
  | None => false
  | Some u =>
      if String.eqb permission "viewAllLocations" then Role_eqb (role u) admin
      else if String.eqb permission "manageUsers" then Role_eqb (role u) admin
      else if String.eqb permission "viewReports"
      then Role_eqb (role u) admin || Role_eqb (role u) client
      else if String.eqb permission "conductAudits"
      then Role_eqb (role u) admin || Role_eqb (role u) auditor
      else false
  end.
End UserContextWide.

(** ** components/inventory/InventoryTable *)

Module InventoryTable.
(** [allTableData]: one row per master item, joined with the first audited
    record of the same [id] and [location]. The key [auditedBy: undefined] of
    the second branch adds no value to the row. *)
Definition allTableData (itemMaster auditedItems : list InventoryItem)
  : list InventoryItem :=
  map (fun item =>
         match find (fun a => String.eqb (id a) (id item)
                              && String.eqb (location a) (location item))
                    auditedItems with
         | Some auditedItem =>
             {| id := id item;
                sku := sku item;
                name := name item;
                category := category item;
                location := location item;
                systemQuantity := systemQuantity item;
                physicalQuantity := physicalQuantity auditedItem;
                status := status auditedItem;
                lastAudited := lastAudited auditedItem;
                notes := notes item;
                companyId := companyId item |}
         | None =>
             {| id := id item;
                sku := sku item;
                name := name item;
                category := category item;
                location := location item;
                systemQuantity := systemQuantity item;
                physicalQuantity := Number 0;
                status := Some pending;
                lastAudited := None;
                notes := notes item;
                companyId := companyId item |}
         end) itemMaster.

(** A string prop is truthy when it is given and not empty. *)
Definition given (s : option string) : bool :=
  match s with
  | Some v => negb (String.eqb v "")
  | None => false
  end.

(** [filteredData], over the prop [selectedLocation?: string]. *)
Definition filteredData (currentUser : option UserProfile)
           (userLocations : list Location) (selectedLocation : option string)
           (locations : list Location) (allTableData : list InventoryItem)
  : list InventoryItem :=
  let fallback := if roleIsAdmin currentUser then allTableData else [] in
  if roleIsAdmin currentUser && negb (given selectedLocation) then allTableData
  else if given selectedLocation then
    match find (fun loc => match selectedLocation with
                           | Some v => String.eqb (loc_id loc) v
                           | None => false
                           end) locations with
    | Some locationObj =>
        filter (fun item => String.eqb (location item) (loc_name locationObj))
               allTableData
    | None => fallback
    end
  else if negb (roleIsAdmin currentUser) then
    let accessibleLocationNames := map loc_name userLocations in
    filter (fun item => existsb (String.eqb (location item))
                                accessibleLocationNames)
           allTableData
  else fallback.

(** [status === tag] on an optional status. *)
Definition statusIs (tag : Status) (item : InventoryItem) : bool :=
  match status item with
  | Some t => Status_eqb t tag
  | None => false
  end.

(** The counters of [summaryStats]; [progressPercentage], a rounded
    floating-point quotient, is not part of the embedding. *)
Record SummaryStats : Type := mkSummaryStats {
  total : Z;
  pending_count : Z;
  matched_count : Z;
  discrepancies_count : Z;
  totalScanned : Z
}.

Definition summaryStats (filteredData : list InventoryItem) : SummaryStats :=
  let count p := Z.of_nat (List.length (filter p filteredData)) in
  {| total := Z.of_nat (List.length filteredData);
     pending_count := count (statusIs pending);
     matched_count := count (statusIs matched);
     discrepancies_count := count (statusIs discrepancy);
     totalScanned := count (statusIs matched) + count (statusIs discrepancy) |}.
End InventoryTable.

(** ** Locations: SupabaseDataService and InventoryContext *)

(** [/^[0-9a-fA-F]{8}-[0-9a-fA-F]{4}-[0-9a-fA-F]{4}-[0-9a-fA-F]{4}-[0-9a-fA-F]{12}$/] *)
Definition isHexDigit (c : Ascii.ascii) : bool :=
  let n := Ascii.N_of_ascii c in
  ((48 <=? n) && (n <=? 57) || (97 <=? n) && (n <=? 102)
   || (65 <=? n) && (n <=? 70))%N.

Fixpoint hexDigits (n : nat) (s : string) : option string :=
  match n with
  | O => Some s
  | S k =>
      match s with
      | String c rest => if isHexDigit c then hexDigits k rest else None
      | EmptyString => None
      end
  end.

Definition dash (s : string) : option string :=
  match s with
  | String "-"%char rest => Some rest
  | _ => None
  end.

Definition and_then {A B : Type} (o : option A) (f : A -> option B) : option B :=
  match o with
  | Some a => f a
  | None => None
  end.

Definition isValidUuid (v : string) : bool :=
  match and_then (hexDigits 8 v) (fun r =>
        and_then (dash r) (fun r =>
        and_then (hexDigits 4 r) (fun r =>
        and_then (dash r) (fun r =>
        and_then (hexDigits 4 r) (fun r =>
        and_then (dash r) (fun r =>
        and_then (hexDigits 4 r) (fun r =>
        and_then (dash r) (fun r =>
        hexDigits 12 r)))))))) with
  | Some EmptyString => true
  | _ => false
  end.

(** The object handed to [.from('locations').upsert]: the key [id] is
    present only for a well-formed UUID. The column [company_id], which no
    function of the engine reads, is left out as in [Location]. *)
Record LocationUpsert : Type := mkLocationUpsert {
  up_id : option string;
  up_name : string;
  up_description : option string;
  up_active : bool
}.

Inductive LocationCall : Type :=
| LUpsert (row : LocationUpsert)
| LDelete (locationId : string)
| LSelect.

(** The collaborator behind the table [locations]. *)
Record LocationEnv : Type := mkLocationEnv {
  date_now : nat -> N;                                   (* [Date.now()] *)
  location_id : list Location -> string;                 (* generated key *)
  location_upsert_error : list Location -> LocationUpsert -> option string;
  location_delete_error : list Location -> string -> option string;
  location_select_error : list Location -> bool;
  order_by_name : list Location -> list Location        (* [.order('name')] *)
}.

Record LocationSt : Type := mkLocationSt {
  inventory : St;                      (* the provider's state *)
  locations_table : list Location;
  location_calls : list LocationCall;
  date_reads : nat
}.

(** [`loc${Date.now()}`] *)
Definition tempId (millis : N) : string :=
  "loc" ++ NilZero.string_of_uint (N.to_uint millis).

Definition setLocations (ls : list Location) (st : St) : St :=
  mkSt (db st) (calls st) (clock_reads st) (itemMaster st) (closingStock st)
       (auditedItems st) ls (toasts st).

(** The upsert on the primary key [id]. *)
Definition upsert_location (LE : LocationEnv) (tbl : list Location)
           (row : LocationUpsert) : list Location :=
  match up_id row with
  | Some i =>
      let stored := mkLocation i (up_name row) (up_description row)
                               (Some (up_active row)) in
      if existsb (fun l => String.eqb (loc_id l) i) tbl
      then map (fun l => if String.eqb (loc_id l) i then stored else l) tbl
      else (tbl ++ [stored])%list
  | None =>
      (tbl ++ [mkLocation (location_id LE tbl) (up_name row)
                          (up_description row) (Some (up_active row))])%list
  end.

Module LocationService.
Section Service.
Variable LE : LocationEnv.

(** [SupabaseDataService.updateLocation(location)] *)
Definition updateLocation (location : Location) (st : LocationSt)
  : Res unit * LocationSt :=
  let upsertData :=
    {| up_id := if negb (String.eqb (loc_id location) "")
                   && isValidUuid (loc_id location)
                then Some (loc_id location) else None;
       up_name := loc_name location;
       up_description := loc_description location;
       up_active := match loc_active location with
                    | Some b => b
                    | None => true
                    end |} in
  let sent := mkLocationSt (inventory st) (locations_table st)
                           (location_calls st ++ [LUpsert upsertData])%list
                           (date_reads st) in
  match location_upsert_error LE (locations_table st) upsertData with
  | Some e => (Throw e, sent)
  | None =>
      (Ok tt,
       mkLocationSt (inventory st)
                    (upsert_location LE (locations_table st) upsertData)
                    (location_calls sent) (date_reads st))
  end.

(** [SupabaseDataService.getLocations()]: the empty list on an error. *)
Definition getLocations (st : LocationSt) : list Location * LocationSt :=
  (if location_select_error LE (locations_table st) then []
   else order_by_name LE (locations_table st),
   mkLocationSt (inventory st) (locations_table st)
                (location_calls st ++ [LSelect])%list (date_reads st)).

(** [SupabaseDataService.deleteLocation(locationId)] *)
Definition deleteLocation (locationId : string) (st : LocationSt)
  : Res unit * LocationSt :=
  let sent := mkLocationSt (inventory st) (locations_table st)
                           (location_calls st ++ [LDelete locationId])%list
                           (date_reads st) in
  match location_delete_error LE (locations_table st) locationId with
  | Some e => (Throw e, sent)
  | None =>
      (Ok tt,
       mkLocationSt (inventory st)
                    (filter (fun l => negb (String.eqb (loc_id l) locationId))
                            (locations_table st))
                    (location_calls sent) (date_reads st))
  end.
End Service.
End LocationService.

Module InventoryContextLocations.
Section Provider.
Variable LE : LocationEnv.

(** [setLocations(await SupabaseDataService.getLocations())] *)
Definition refreshLocations (st : LocationSt) : Res unit * LocationSt :=
  let (listed, st1) := LocationService.getLocations LE st in
  (Ok tt,
   mkLocationSt (setLocations listed (inventory st1)) (locations_table st1)
                (location_calls st1) (date_reads st1)).

(** [addLocation(location)]; the argument's [loc_id] is not read
    ([Omit<Location, 'id'>]). *)
Definition addLocation (location : Location) (st : LocationSt)
  : Res unit * LocationSt :=
  let newLocation :=
    {| loc_id := tempId (date_now LE (date_reads st));
       loc_name := loc_name location;
       loc_description := loc_description location;
       loc_active := Some (match loc_active location with
                           | Some b => b
                           | None => true
                           end) |} in
  let st0 := mkLocationSt (inventory st) (locations_table st)
                          (location_calls st) (S (date_reads st)) in
  match LocationService.updateLocation LE newLocation st0 with
  | (Throw e, st1) => (Throw e, st1)
  | (Ok _, st1) => refreshLocations st1
  end.

(** [updateLocation(location)] *)
Definition updateLocation (location : Location) (st : LocationSt)
  : Res unit * LocationSt :=
  match LocationService.updateLocation LE location st with
  | (Throw e, st1) => (Throw e, st1)
  | (Ok _, st1) => refreshLocations st1
  end.

(** [deleteLocation(locationId)] *)
Definition deleteLocation (locationId : string) (st : LocationSt)
  : Res unit * LocationSt :=
  match find (fun loc => String.eqb (loc_id loc) locationId)
             (locations (inventory st)) with
  | None => (Ok tt, st)
  | Some locationToDelete =>
      if existsb (fun item => String.eqb (location item)
                                         (loc_name locationToDelete))
                 (itemMaster (inventory st))
      then (Throw "Cannot delete location that contains inventory items", st)
      else
        match LocationService.deleteLocation LE locationId st with
        | (Throw e, st1) => (Throw e, st1)
        | (Ok _, st1) => refreshLocations st1
        end
  end.
End Provider.
End InventoryContextLocations.

(** ** The questionnaire: SupabaseDataService and InventoryContext *)

(** [QuestionType]: ['text' | 'singleSelect' | 'multiSelect' | 'yesNo'] *)
Inductive QuestionType : Type :=
| QText | QSingleSelect | QMultiSelect | QYesNo.

Record QuestionOption : Type := mkQuestionOption {
  option_id : string;
  option_text : string
}.

Record Question : Type := mkQuestion {
  question_id : string;
  question_text : string;
  question_type : QuestionType;
  required : bool;
  options : option (list QuestionOption)
}.

(** [answer: string | string[]] *)
Inductive AnswerValue : Type :=
| OneAnswer (s : string)
| ManyAnswers (l : list string).

Record QuestionnaireAnswer : Type := mkQuestionnaireAnswer {
  questionId : string;
  locationId : string;
  answer : AnswerValue;
  answeredBy : option string;
  answeredOn : string
}.

(** A row of the table [questionnaire_answers], unique on
    [(question_id, location_id)]. *)
Record DbAnswer : Type := mkDbAnswer {
  ans_question_id : string;
  ans_location_id : string;
  ans_answer : string;
  ans_answered_by : option string;
  ans_answered_on : string
}.

Inductive QuestionCall : Type :=
| QDeleteAll
| QInsert (rows : list Question)
| QUpsertAnswers (rows : list DbAnswer).

(** The collaborator behind the tables [questions] and
    [questionnaire_answers], the clock and [JSON.stringify]. *)
Record QuestionEnv : Type := mkQuestionEnv {
  iso_now : nat -> string;                       (* [new Date().toISOString()] *)
  millis_now : nat -> N;                         (* [Date.now()] *)
  stringify : list string -> string;             (* [JSON.stringify] *)
  questions_delete_fails : list Question -> bool;
  questions_insert_error : list Question -> list Question -> option string;
  answers_upsert_error : list DbAnswer -> list DbAnswer -> option string
}.

Record QuestionSt : Type := mkQuestionSt {
  questions : list Question;                     (* useState mirrors *)
  questionnaireAnswers : list QuestionnaireAnswer;
  questions_table : list Question;
  answers_table : list DbAnswer;
  question_calls : list QuestionCall;
  time_reads : nat
}.

Definition same_answer_key (a b : DbAnswer) : bool :=
  String.eqb (ans_question_id a) (ans_question_id b)
  && String.eqb (ans_location_id a) (ans_location_id b).

(** [.upsert(rows, { onConflict: 'question_id,location_id' })], row by row. *)
Definition upsert_answer (tbl : list DbAnswer) (row : DbAnswer) : list DbAnswer :=
  if existsb (same_answer_key row) tbl
  then map (fun r => if same_answer_key row r then row else r) tbl
  else (tbl ++ [row])%list.

Definition upsert_answers (tbl rows : list DbAnswer) : list DbAnswer :=
  fold_left upsert_answer rows tbl.

(** [findIndex]: [None] stands for [-1]. *)
Fixpoint findIndex {A : Type} (p : A -> bool) (l : list A) : option nat :=
  match l with
  | [] => None
  | a :: rest => if p a then Some O else option_map S (findIndex p rest)
  end.

(** [copy[i] = x] on a copy of the array, for an index inside it. *)
Fixpoint assign_at {A : Type} (i : nat) (x : A) (l : list A) : list A :=
  match l, i with
  | [], _ => []
  | _ :: rest, O => x :: rest
  | a :: rest, S j => a :: assign_at j x rest
  end.

Module QuestionService.
Section Service.
Variable QE : QuestionEnv.

(** [setQuestions(questions)]: delete every row, its outcome unread, then
    insert. The stored rows are kept as [Question]s. *)
Definition setQuestions (qs : list Question) (st : QuestionSt)
  : Res unit * QuestionSt :=
  let kept := if questions_delete_fails QE (questions_table st)
              then questions_table st else [] in
  let st1 := mkQuestionSt (questions st) (questionnaireAnswers st) kept
                          (answers_table st)
                          (question_calls st ++ [QDeleteAll])%list
                          (time_reads st) in
  if (0 <? Z.of_nat (List.length qs)) then
    let st2 := mkQuestionSt (questions st1) (questionnaireAnswers st1) kept
                            (answers_table st1)
                            (question_calls st1 ++ [QInsert qs])%list
                            (time_reads st1) in
    match questions_insert_error QE kept qs with
    | Some e => (Throw e, st2)
    | None =>
        (Ok tt,
         mkQuestionSt (questions st2) (questionnaireAnswers st2)
                      (kept ++ qs)%list (answers_table st2)
                      (question_calls st2) (time_reads st2))
    end
  else (Ok tt, st1).

Definition toDbAnswer (a : QuestionnaireAnswer) : DbAnswer :=
  {| ans_question_id := questionId a;
     ans_location_id := locationId a;
     ans_answer := match answer a with
                   | OneAnswer s => s
                   | ManyAnswers l => stringify QE l
                   end;
     ans_answered_by := answeredBy a;
     ans_answered_on := answeredOn a |}.

(** [setQuestionnaireAnswers(answers)]: nothing is sent for an empty list. *)
Definition setQuestionnaireAnswers (answers : list QuestionnaireAnswer)
           (st : QuestionSt) : Res unit * QuestionSt :=
  if (0 <? Z.of_nat (List.length answers)) then
    let dbAnswers := map toDbAnswer answers in
    let st1 := mkQuestionSt (questions st) (questionnaireAnswers st)
                            (questions_table st) (answers_table st)
                            (question_calls st ++ [QUpsertAnswers dbAnswers])%list
                            (time_reads st) in
    match answers_upsert_error QE (answers_table st) dbAnswers with
    | Some e => (Throw e, st1)
    | None =>
        (Ok tt,
         mkQuestionSt (questions st1) (questionnaireAnswers st1)
                      (questions_table st1)
                      (upsert_answers (answers_table st) dbAnswers)
                      (question_calls st1) (time_reads st1))
    end
  else (Ok tt, st).
End Service.
End QuestionService.

Module InventoryContextQuestions.
Section Provider.
Variable QE : QuestionEnv.

Definition setQuestionsState (qs : list Question) (st : QuestionSt) : QuestionSt :=
  mkQuestionSt qs (questionnaireAnswers st) (questions_table st)
               (answers_table st) (question_calls st) (time_reads st).

Definition setQuestionnaireAnswersState (answers : list QuestionnaireAnswer)
           (st : QuestionSt) : QuestionSt :=
  mkQuestionSt (questions st) answers (questions_table st)
               (answers_table st) (question_calls st) (time_reads st).

Definition tick (st : QuestionSt) : QuestionSt :=
  mkQuestionSt (questions st) (questionnaireAnswers st) (questions_table st)
               (answers_table st) (question_calls st) (S (time_reads st)).

(** [addQuestion(question)]: the argument's [question_id] is not read
    ([Omit<Question, 'id'>]). *)
Definition addQuestion (question : Question) (st : QuestionSt)
  : Res unit * QuestionSt :=
  let newQuestion :=
    {| question_id :=
         "q" ++ NilZero.string_of_uint (N.to_uint (millis_now QE (time_reads st)));
       question_text := question_text question;
       question_type := question_type question;
       required := required question;
       options := options question |} in
  let updatedQuestions := (questions st ++ [newQuestion])%list in
  match QuestionService.setQuestions QE updatedQuestions (tick st) with
  | (Throw e, st1) => (Throw e, st1)
  | (Ok _, st1) => (Ok tt, setQuestionsState updatedQuestions st1)
  end.

(** [updateQuestion(question)] *)
Definition updateQuestion (question : Question) (st : QuestionSt)
  : Res unit * QuestionSt :=
  let updatedQuestions :=
    map (fun q => if String.eqb (question_id q) (question_id question)
                  then question else q) (questions st) in
  match QuestionService.setQuestions QE updatedQuestions st with
  | (Throw e, st1) => (Throw e, st1)
  | (Ok _, st1) => (Ok tt, setQuestionsState updatedQuestions st1)
  end.

(** [deleteQuestion(questionId)] *)
Definition deleteQuestion (qid : string) (st : QuestionSt)
  : Res unit * QuestionSt :=
  let updatedQuestions :=
    filter (fun q => negb (String.eqb (question_id q) qid)) (questions st) in
  match QuestionService.setQuestions QE updatedQuestions st with
  | (Throw e, st1) => (Throw e, st1)
  | (Ok _, st1) =>
      let st2 := setQuestionsState updatedQuestions st1 in
      let updatedAnswers :=
        filter (fun a => negb (String.eqb (questionId a) qid))
               (questionnaireAnswers st) in
      match QuestionService.setQuestionnaireAnswers QE updatedAnswers st2 with
      | (Throw e, st3) => (Throw e, st3)
      | (Ok _, st3) => (Ok tt, setQuestionnaireAnswersState updatedAnswers st3)
      end
  end.

(** [a.questionId === answer.questionId && a.locationId === answer.locationId] *)
Definition answers_same (q l : string) (a : QuestionnaireAnswer) : bool :=
  String.eqb (questionId a) q && String.eqb (locationId a) l.

(** [saveQuestionnaireAnswer(answer)]: the argument's [answeredOn] is not
    read ([Omit<QuestionnaireAnswer, 'answeredOn'>]). *)
Definition saveQuestionnaireAnswer (a : QuestionnaireAnswer) (st : QuestionSt)
  : Res unit * QuestionSt :=
  let newAnswer :=
    {| questionId := questionId a;
       locationId := locationId a;
       answer := answer a;
       answeredBy := answeredBy a;
       answeredOn := iso_now QE (time_reads st) |} in
  let existingIndex :=
    findIndex (answers_same (questionId a) (locationId a))
              (questionnaireAnswers st) in
  let updatedAnswers :=
    match existingIndex with
    | Some i => assign_at i newAnswer (questionnaireAnswers st)
    | None => (questionnaireAnswers st ++ [newAnswer])%list
    end in
  match QuestionService.setQuestionnaireAnswers QE updatedAnswers (tick st) with
  | (Throw e, st1) => (Throw e, st1)
  | (Ok _, st1) => (Ok tt, setQuestionnaireAnswersState updatedAnswers st1)
  end.

(** [getLocationQuestionnaireAnswers(locationId)] *)
Definition getLocationQuestionnaireAnswers (l : string) (st : QuestionSt)
  : list QuestionnaireAnswer :=
  filter (fun a => String.eqb (locationId a) l) (questionnaireAnswers st).

(** [getQuestionById(questionId)] *)
Definition getQuestionById (qid : string) (st : QuestionSt) : option Question :=
  find (fun q => String.eqb (question_id q) qid) (questions st).
End Provider.
End InventoryContextQuestions.

(** ** Search: InventoryContext.searchItem and components/search/SearchInventory *)

(** [s.includes(sub)], strings being sequences of code units. *)
Fixpoint includes (s sub : string) : bool :=
  if String.prefix sub s then true
  else match s with
       | EmptyString => false
       | String _ rest => includes rest sub
       end.

(** A JavaScript object used as a map from string keys to numbers, in key
    order of first assignment. *)
Definition Quantities : Type := list (string * Z).

Definition lookup (k : string) (q : Quantities) : option Z :=
  option_map snd (find (fun kv => String.eqb (fst kv) k) q).

(** [{...q, [k]: v}] and [q[k] = v] *)
Definition assign (k : string) (v : Z) (q : Quantities) : Quantities :=
  if existsb (fun kv => String.eqb (fst kv) k) q
  then map (fun kv => if String.eqb (fst kv) k then (k, v) else kv) q
  else (q ++ [(k, v)])%list.

Module InventoryContextSearch.
Section Provider.
Variable toLowerCase : string -> string.

(** [searchItem(query)] over the provider's [itemMaster]. *)
Definition searchItem (itemMaster : list InventoryItem) (query : string)
  : list InventoryItem :=
  if String.eqb query "" || (Z.of_nat (String.length query) <? 2) then []
  else
    let lowerCaseQuery := toLowerCase query in
    let matches (field : option string) :=
      match field with
      | Some v => includes (toLowerCase v) lowerCaseQuery
      | None => false
      end in
    filter (fun item =>
              includes (toLowerCase (id item)) lowerCaseQuery
              || includes (toLowerCase (sku item)) lowerCaseQuery
              || matches (name item)
              || matches (category item))
           itemMaster.
End Provider.
End InventoryContextSearch.

(** The component state: [searchQuery], [searchResults], [quantities]. *)
Record SearchSt : Type := mkSearchSt {
  searchQuery : string;
  searchResults : list InventoryItem;
  quantities : Quantities
}.

Module SearchInventory.

(** [getItemKey(item)] *)
Definition getItemKey (item : InventoryItem) : string :=
  id item ++ "-" ++ location item.

Section Component.
Variable toLowerCase : string -> string.
Variable currentUser : option UserProfile.
Variable userLocations : list Location.

(** [handleSearch]: the form's submit handler. *)
Definition handleSearch (itemMaster : list InventoryItem) (st : SearchSt)
  : SearchSt :=
  if 2 <=? Z.of_nat (String.length (searchQuery st)) then
    let results :=
      InventoryContextSearch.searchItem toLowerCase itemMaster (searchQuery st) in
    let filteredResults :=
      if negb (roleIsAdmin currentUser) then
        let accessibleLocationNames := map loc_name userLocations in
        filter (fun item => existsb (String.eqb (location item))
                                    accessibleLocationNames)
               results
      else results in
    let newQuantities :=
      fold_left (fun acc item =>
                   assign (getItemKey item)
                          (or_zero (lookup (getItemKey item) (quantities st)))
                          acc)
                filteredResults [] in
    mkSearchSt (searchQuery st) filteredResults newQuantities
  else st.

(** [incrementQuantity(item)] *)
Definition incrementQuantity (item : InventoryItem) (st : SearchSt) : SearchSt :=
  let itemKey := getItemKey item in
  mkSearchSt (searchQuery st) (searchResults st)
             (assign itemKey (or_zero (lookup itemKey (quantities st)) + 1)
                     (quantities st)).

(** [decrementQuantity(item)]: [undefined > 0] is false. *)
Definition decrementQuantity (item : InventoryItem) (st : SearchSt) : SearchSt :=
  let itemKey := getItemKey item in
  match lookup itemKey (quantities st) with
  | Some v =>
      if 0 <? v
      then mkSearchSt (searchQuery st) (searchResults st)
                      (assign itemKey (v - 1) (quantities st))
      else st
  | None => st
  end.
End Component.

(** [handleAddToAudit(item)]: the promise of [addItemToAudit] is neither
    awaited nor caught; the notification follows in every case. *)
Definition handleAddToAudit (E : Env) (item : InventoryItem) (q : Quantities)
  : M unit :=
  let itemKey := getItemKey item in
  let quantity := or_zero (lookup itemKey q) in
  (try_catch (InventoryContext.addItemToAudit E item quantity)
             (fun _ => ret tt) ;;
   toast TSuccess "Item added to audit")%m.

(** [disabled={!(quantities[itemKey] > 0)}] of the button that calls
    [handleAddToAudit]. *)
Definition addToAuditDisabled (item : InventoryItem) (q : Quantities) : bool :=
  negb (match lookup (getItemKey item) q with
        | Some v => 0 <? v
        | None => false
        end).
End SearchInventory.

(** ** BarcodeScanner: the hardware scanner listener *)

(** What the listener holds besides the provider's state. *)
Record ScannerSt : Type := mkScannerSt {
  scannedBuffer : string;              (* [scannedBufferRef.current] *)
  scannedBarcode : string;
  provider : St
}.

(** A [keydown] event with its [key], or the 500 ms timer firing. *)
Inductive ScannerEvent : Type :=
| KeyDown (key : string)
| BufferTimeout.

Module HardwareScanner.
Section Listener.
Variable trim : string -> string.      (* [String.prototype.trim] *)
Variable E : Env.
Variable currentUser : option UserProfile.
Variable userAccessibleLocations : list Location.
Variable isHardwareScannerMode : bool.
Variable selectedLocation : string.
Variable isInputFocused : bool.

(** [handleKeyPress(event)] *)
Definition handleKeyPress (key : string) (s : ScannerSt) : ScannerSt :=
  if negb isHardwareScannerMode || String.eqb selectedLocation ""
     || isInputFocused
  then s
  else if String.eqb key "Enter" then
    if negb (String.eqb (trim (scannedBuffer s)) "") then
      let barcodeToScan := trim (scannedBuffer s) in
      match BarcodeScanner.handleItemScan E currentUser userAccessibleLocations
                                          barcodeToScan selectedLocation
                                          (provider s) with
      | (Ok true, st') => mkScannerSt "" barcodeToScan st'
      | (_, st') => mkScannerSt "" (scannedBarcode s) st'
      end
    else s
  else if (String.length key =? 1)%nat
  then mkScannerSt (scannedBuffer s ++ key) (scannedBarcode s) (provider s)
  else s.

(** The timer that clears the buffer. *)
Definition clearBuffer (s : ScannerSt) : ScannerSt :=
  if isHardwareScannerMode && (0 <? Z.of_nat (String.length (scannedBuffer s)))
  then mkScannerSt "" (scannedBarcode s) (provider s)
  else s.

Definition listen (s : ScannerSt) (ev : ScannerEvent) : ScannerSt :=
  match ev with
  | KeyDown key => handleKeyPress key s
  | BufferTimeout => clearBuffer s
  end.
End Listener.
End HardwareScanner.

(** * Properties *)

Local Open Scope list_scope.

(** ** Vocabulary of the statements *)

(** The Status Rule as the specification words it (section 4.1): absent
    physical quantity is pending; present and equal to the system quantity is
    matched; present and different is a discrepancy. *)
Definition deriveStatus (systemQty : Z) (physicalQty : option Z) : Status :=
  match physicalQty with
  | None => pending
  | Some p => if p =? systemQty then matched else discrepancy
  end.

(** The record-status invariant of the data model (section 3). *)
Definition statusInvariant (r : InventoryItem) : Prop :=
  match physicalQuantity r with
  | Number _ => status r = Some matched \/ status r = Some discrepancy
  | Null | Undefined => status r = Some pending
  end.

(** The invariant read on the submitted columns. *)
Definition rowInvariant (c : DbItem) : Prop :=
  match physical_quantity c with
  | Some _ => db_status c = Some matched \/ db_status c = Some discrepancy
  | None => db_status c = Some pending
  end.

(** An incoming import row whose status agrees with its physical quantity;
    an absent status is stored as pending by [inventoryItemToDb]. *)
Definition importable (r : InventoryItem) : Prop :=
  match physicalQuantity r with
  | Number _ => status r = Some matched \/ status r = Some discrepancy
  | Null | Undefined => status r = None \/ status r = Some pending
  end.

(** The reconciled records of a state: the stored rows as the service reads
    them back, and the three mirrors held by the provider. *)
Definition records (st : St) : list InventoryItem :=
  map dbToInventoryItem (db st) ++ itemMaster st ++ closingStock st
      ++ auditedItems st.

(** The rows submitted to the collaborator by a sequence of requests. *)
Definition submitted (cs : list Call) : list DbItem :=
  flat_map (fun c => match c with CUpsert rows => rows | CSelect _ => [] end) cs.

(** The collaborator accepts every write. *)
Definition writes_succeed (E : Env) : Prop :=
  forall tbl rows, upsert_error E tbl rows = None.

(** The collaborator answers every request. *)
Definition reliable (E : Env) : Prop :=
  writes_succeed E /\ forall tbl q, select_error E tbl q = false.

(** The mirrors used by the scanner and the summaries hold what the table
    holds, as after any completed [updateAuditedItem]. *)
Definition in_sync (st : St) : Prop :=
  itemMaster st = map dbToInventoryItem (db st)
  /\ auditedItems st
     = map dbToInventoryItem (filter (select_filter QAuditedItems) (db st)).

(** [existingAuditedItem?.physicalQuantity || 0] for a SKU at a location. *)
Definition countedSoFar (st : St) (s l : string) : Z :=
  or_zero (match find (fun item => String.eqb (sku item) s
                                   && String.eqb (location item) l)
                      (auditedItems st) with
           | Some a => number_of (physicalQuantity a)
           | None => None
           end).

(** The stored record of a SKU at a location, as the scanner looks it up. *)
Definition auditedRecord (st : St) (s l : string) : option InventoryItem :=
  find (fun item => String.eqb (sku item) s && String.eqb (location item) l)
       (auditedItems st).

(** The catalog record a barcode resolves to. *)
Definition catalogRecord (st : St) (barcode : string) : option InventoryItem :=
  find (fun item => String.eqb (id item) barcode || String.eqb (sku item) barcode)
       (itemMaster st).

(** The name the selected location id resolves to ([""] when it does not). *)
Definition selectedLocationName (st : St) (locationId : string) : string :=
  match find (fun loc => String.eqb (loc_id loc) locationId) (locations st) with
  | Some l => loc_name l
  | None => ""
  end.

(** The state after the mirrors were refreshed from the table [tbl]. *)
Definition refreshed (E : Env) (tbl : list DbRow) (cs : list Call) (n : nat)
           (audited : list InventoryItem) (st : St) : St :=
  mkSt tbl cs n
       (SupabaseDataService.selected E tbl QItemMaster)
       (SupabaseDataService.selected E tbl QClosingStock)
       audited (locations st) (toasts st).

(** One upsert step seen from a stored row: the row takes the submitted
    columns when the keys agree and keeps its [id]. *)
Definition overwrite (r : DbItem) (x : DbRow) : DbRow :=
  if same_key r x then mkDbRow (db_id x) r else x.

(** ** Vocabulary of the scanner statements *)

(** The state with one more notification. *)
Definition addToast (st : St) (k : ToastKind) (title : string) : St :=
  mkSt (db st) (calls st) (clock_reads st) (itemMaster st) (closingStock st)
       (auditedItems st) (locations st) (toasts st ++ [mkToast k title]).

(** The policy of step 2 of [handleItemScan] as one test: the scan goes on
    when the record sits at the selected location, or the caller is an
    admin, or the record's location is among the caller's locations. *)
Definition scanAllowed (currentUser : option UserProfile)
           (userAccessibleLocations : list Location)
           (masterItem : InventoryItem) (selectedName : string) : bool :=
  String.eqb (location masterItem) selectedName
  || BarcodeScanner.isAdmin currentUser
  || existsb (fun loc => String.eqb (loc_name loc) (location masterItem))
             userAccessibleLocations.

(** The warning shown when the scan goes on under a corrected location. *)
Definition scanWarnings (currentUser : option UserProfile)
           (masterItem : InventoryItem) (selectedName : string) : list Toast :=
  if String.eqb (location masterItem) selectedName then []
  else [mkToast TWarning (if BarcodeScanner.isAdmin currentUser
                          then "Location mismatch" else "Location corrected")].

(** The row a scan of [masterItem] submits from state [st]. *)
Definition scanRow (E : Env) (st : St) (masterItem : InventoryItem) : DbItem :=
  let n := countedSoFar st (sku masterItem) (location masterItem) + 1 in
  {| db_sku := sku masterItem;
     db_name := name masterItem;
     db_location := location masterItem;
     system_quantity := systemQuantity masterItem;
     physical_quantity := Some n;
     db_status := Some (deriveStatus (systemQuantity masterItem) (Some n));
     last_audited := Some (clock E (S (clock_reads st)));
     db_notes := or_notes (match auditedRecord st (sku masterItem)
                                               (location masterItem) with
                           | Some a => notes a
                           | None => None
                           end) (notes masterItem);
     company_id := None |}.

(** The notification that closes a successful scan. *)
Definition scanOutcome (st : St) (masterItem : InventoryItem) : Toast :=
  if countedSoFar st (sku masterItem) (location masterItem) + 1
     =? systemQuantity masterItem
  then mkToast TSuccess "Item scanned - Matched!"
  else mkToast TWarning "Item scanned - Discrepancy detected!".


(** What the scanner's [Select] lets a caller who is no admin choose: nothing
    (the initial selection), or the id of one of the caller's accessible
    locations, which the provider resolves to that location's name. Every
    call of [handleItemScan] passes this selection. *)
Definition selectionOffered (acc : list Location) (st : St)
           (locationId : string) : Prop :=
  locationId = ""
  \/ exists a, In a acc /\ loc_id a = locationId
               /\ selectedLocationName st locationId = loc_name a.



(** ** Vocabulary of the import statements *)

(** "Keep the descriptive fields and overwrite only systemQuantity", as the
    specification words the closing-stock merge (section 4.2). *)
Definition overwriteSystemQuantity (q : Z) (r : InventoryItem) : InventoryItem :=
  mkInventoryItem (id r) (sku r) (name r) (category r) (location r) q
                  (physicalQuantity r) (status r) (lastAudited r) (notes r)
                  (companyId r).

(** The master record with the key of an incoming row. *)
Definition masterRecord (st : St) (incoming : InventoryItem)
  : option InventoryItem :=
  find (fun i => InventoryContext.same_sku_location i incoming) (itemMaster st).

(** The row [setClosingStock] submits for an incoming item, given the
    master mirror it merges against. *)
Definition closingStockRow (master : list InventoryItem) (i : InventoryItem)
  : DbItem :=
  inventoryItemToDb (InventoryContext.mergeIncoming master i).

(** [items.length === 0] *)
Definition is_nil {A : Type} (l : list A) : bool :=
  match l with [] => true | _ :: _ => false end.

(** ** Vocabulary of the summary statements *)

(** The sum of [f] over a list of location names. *)
Definition sumOver (locs : list string) (f : string -> Z) : Z :=
  fold_right (fun l acc => f l + acc) 0 locs.

(** The state whose mirrors are restricted to the records of one location. *)
Definition atLocation (locationName : string) (st : St) : St :=
  mkSt (db st) (calls st) (clock_reads st)
       (filter (fun item => String.eqb (location item) locationName)
               (itemMaster st))
       (closingStock st)
       (filter (fun item => String.eqb (location item) locationName)
               (auditedItems st))
       (locations st) (toasts st).

(** The composite key of a record, and of a stored row. *)
Definition recordKey (r : InventoryItem) : string * string :=
  (sku r, location r).

Definition tableKey (x : DbRow) : string * string :=
  (db_sku (db_cols x), db_location (db_cols x)).

(** ** Sample data *)

(** A collaborator that never fails, stamps the [n]-th clock reading as
    ["t<n>"] and names the [n]-th inserted row ["row-<n>"]. *)
Definition sampleEnv : Env :=
  {| clock := fun n => ("t" ++ NilEmpty.string_of_uint (Nat.to_uint n))%string;
     gen_id := fun tbl =>
       ("row-" ++ NilEmpty.string_of_uint (Nat.to_uint (List.length tbl)))%string;
     upsert_error := fun _ _ => None;
     select_error := fun _ _ => false |}.

Definition locL1 : Location := mkLocation "loc-1" "L1" None (Some true).
Definition locL2 : Location := mkLocation "loc-2" "L2" None (Some true).

(** Two items as they are handed to [setItemMaster]. *)
Definition widget : InventoryItem :=
  mkInventoryItem "" "A1" (Some "Widget") (Some "Hardware") "L1" 3
                  Undefined None None None None.
Definition gadget : InventoryItem :=
  mkInventoryItem "" "B2" (Some "Gadget") (Some "Hardware") "L2" 5
                  Undefined None None None None.

(** A closing-stock row for the widget's key that carries only a quantity. *)
Definition widgetClosing50 : InventoryItem :=
  mkInventoryItem "" "A1" None None "L1" 50 Undefined None None None None.

(** The state after the catalog of two items was stored: an empty table and
    two locations, then [setItemMaster]. *)
Definition emptyState : St :=
  mkSt [] [] 0 [] [] [] [locL1; locL2] [].
Definition catalogState : St :=
  run (InventoryContext.setItemMaster sampleEnv [widget; gadget]) emptyState.

(** The two catalog records as the provider holds them, read back from
    rows whose [physical_quantity] is NULL. *)
Definition widgetRecord : InventoryItem :=
  mkInventoryItem "row-0" "A1" (Some "Widget") None "L1" 3
                  Null (Some pending) None None None.
Definition gadgetRecord : InventoryItem :=
  mkInventoryItem "row-1" "B2" (Some "Gadget") None "L2" 5
                  Null (Some pending) None None None.

Definition adminUser : option UserProfile :=
  Some (mkUserProfile "u-1" admin []).
Definition auditorUser : option UserProfile :=
  Some (mkUserProfile "u-2" auditor ["loc-1"]).

(** An item handed to [updateAuditedItem] without a physical quantity: the
    widget as a caller builds it, the field left out. *)
Definition uncountedWidget : InventoryItem :=
  mkInventoryItem "row-0" "A1" (Some "Widget") None "L1" 3
                  Undefined (Some pending) None None None.

(** The widget counted up to its system quantity. *)
Definition countedThrice : InventoryItem :=
  mkInventoryItem "row-0" "A1" (Some "Widget") None "L1" 3
                  (Number 3) (Some pending) None None None.

(** The widget counted once. *)
Definition countedWidget : InventoryItem :=
  mkInventoryItem "row-0" "A1" (Some "Widget") None "L1" 3
                  (Number 1) (Some pending) None None None.

(** The state after one admin scan of the widget at its own location. *)
Definition auditedState : St :=
  run (BarcodeScanner.handleItemScan sampleEnv adminUser [] "A1" "loc-1")
      catalogState.

(** ** Vocabulary and sample data of the further properties *)

(** A collaborator like [sampleEnv] whose database rejects every write. *)
Definition rejectingEnv : Env :=
  {| clock := clock sampleEnv;
     gen_id := gen_id sampleEnv;
     upsert_error := fun _ _ => Some "permission denied";
     select_error := fun _ _ => false |}.

(** A stored row of the widget, uncounted, and the same row with no status. *)
Definition storedWidget : DbRow :=
  mkDbRow "row-0" (mkDbItem "A1" (Some "Widget") "L1" 3 None (Some pending)
                            None None None).
Definition storedWithoutStatus : DbRow :=
  mkDbRow "row-7" (mkDbItem "C3" None "L1" 0 None None None None None).


(** The first audited record with the key of [masterItem] has this status. *)
Definition auditedAs (s : Status) (audited : list InventoryItem)
           (masterItem : InventoryItem) : bool :=
  match find (fun a => InventoryContext.same_sku_location a masterItem) audited with
  | Some a => match status a with Some t => Status_eqb t s | None => false end
  | None => false
  end.

(** Two audited records whose (SKU, location) pairs differ and whose key
    strings are both ["A-1-L1"]. *)
Definition dashedSku : InventoryItem :=
  mkInventoryItem "row-3" "A-1" None None "L1" 1 (Number 1) (Some matched)
                  None None None.
Definition dashedLocation : InventoryItem :=
  mkInventoryItem "row-4" "A" None None "1-L1" 1 (Number 1) (Some matched)
                  None None None.
Definition dashedState : St :=
  mkSt [] [] 0 [] [] [dashedSku; dashedLocation] [] [].

(** The first test of [handleImport]: an auditor about to import a
    closing-stock file has selected no location. *)
Definition locationMissing (userRole : Role) (canUploadClosingStock : bool)
           (closingStockFile : option string) (selectedLocation : string) : bool :=
  Role_eqb userRole auditor && canUploadClosingStock
  && is_some closingStockFile
  && (String.eqb selectedLocation "" || String.eqb selectedLocation "default").

(** A collaborator for the table [locations] that answers every request and
    lists every row it holds. *)
Definition location_reliable (LE : LocationEnv) : Prop :=
  (forall tbl row, location_upsert_error LE tbl row = None)
  /\ (forall tbl i, location_delete_error LE tbl i = None)
  /\ (forall tbl, location_select_error LE tbl = false)
  /\ (forall tbl l, In l (order_by_name LE tbl) <-> In l tbl).

Definition sampleLocationEnv : LocationEnv :=
  {| date_now := fun n => (1700000000000 + N.of_nat n)%N;
     location_id := fun tbl =>
       ("00000000-0000-4000-8000-0000000000"
        ++ NilZero.string_of_uint (Nat.to_uint (10 + List.length tbl)))%string;
     location_upsert_error := fun _ _ => None;
     location_delete_error := fun _ _ => None;
     location_select_error := fun _ => false;
     order_by_name := fun tbl => tbl |}.

Definition warehouse : Location :=
  mkLocation "0a0a0a0a-1111-4222-8333-444444444444" "L1" None (Some true).

Definition depot : Location :=
  mkLocation "0b0b0b0b-1111-4222-8333-444444444444" "L9" None (Some true).

(** Two locations: the catalog's widget sits in the first, and the second
    is named by one audited record only. *)
Definition auditedAtDepot : InventoryItem :=
  mkInventoryItem "row-5" "D4" (Some "Crate") None "L9" 2 (Number 2)
                  (Some matched) (Some "t0") None None.
Definition locationState : LocationSt :=
  mkLocationSt (mkSt [] [] 0 [widgetRecord; gadgetRecord] [] [auditedAtDepot]
                     [warehouse; depot] [])
               [warehouse; depot] [] 0.

(** The key of an answer held by the provider, and of a stored row. *)
Definition answerKey (a : QuestionnaireAnswer) : string * string :=
  (questionId a, locationId a).
Definition rowKey (r : DbAnswer) : string * string :=
  (ans_question_id r, ans_location_id r).

(** A collaborator that accepts every write of answers, resp. of questions. *)
Definition answers_accepted (QE : QuestionEnv) : Prop :=
  forall tbl rows, answers_upsert_error QE tbl rows = None.
Definition questions_accepted (QE : QuestionEnv) : Prop :=
  (forall tbl, questions_delete_fails QE tbl = false)
  /\ (forall tbl rows, questions_insert_error QE tbl rows = None).

(** A collaborator that accepts every request, and one whose database
    rejects every insert and upsert. *)
Definition sampleQuestionEnv : QuestionEnv :=
  {| iso_now := fun n => ("t" ++ NilEmpty.string_of_uint (Nat.to_uint n))%string;
     millis_now := fun n => (1700000000000 + N.of_nat n)%N;
     stringify := String.concat ",";
     questions_delete_fails := fun _ => false;
     questions_insert_error := fun _ _ => None;
     answers_upsert_error := fun _ _ => None |}.
Definition rejectingQuestionEnv : QuestionEnv :=
  {| iso_now := iso_now sampleQuestionEnv;
     millis_now := millis_now sampleQuestionEnv;
     stringify := stringify sampleQuestionEnv;
     questions_delete_fails := fun _ => false;
     questions_insert_error := fun _ _ => Some "permission denied";
     answers_upsert_error := fun _ _ => Some "permission denied" |}.

(** One question, answered once at the first location. *)
Definition aisleQuestion : Question :=
  mkQuestion "q1" "Is the aisle clear?" QYesNo true None.
Definition firstAnswer : QuestionnaireAnswer :=
  mkQuestionnaireAnswer "q1" "loc-1" (OneAnswer "yes") (Some "u-2") "t0".
Definition secondAnswer : QuestionnaireAnswer :=
  mkQuestionnaireAnswer "q1" "loc-1" (OneAnswer "no") (Some "u-2") "".
Definition questionState : QuestionSt :=
  mkQuestionSt [aisleQuestion] [firstAnswer] [aisleQuestion]
               [QuestionService.toDbAnswer sampleQuestionEnv firstAnswer] [] 1.

(** The search form with the widget's code typed in and two units entered
    for the widget before. *)
Definition searchState : SearchSt :=
  mkSearchSt "A1" [] [("row-0-L1"%string, 2)].

(** The key events a scanner sends for a code: one per character. *)
Definition keystrokes (code : string) : list ScannerEvent :=
  map (fun c => KeyDown (String c EmptyString)) (list_ascii_of_string code).

(** The listener at rest over the stored catalog. *)
Definition idleScanner : ScannerSt := mkScannerSt "" "" catalogState.

(** ** Elementary facts *)

Lemma number_of_of_column (c : option Z) : number_of (of_column c) = c.
Proof. now destruct c. Qed.

Lemma or_zero_Some (n : Z) : or_zero (Some n) = n.
Proof. unfold or_zero. destruct (Z.eqb_spec n 0); congruence. Qed.

Lemma nonempty_length {A : Type} (l : list A) :
  (0 <? Z.of_nat (List.length l)) = negb (match l with [] => true | _ => false end).
Proof. destruct l; reflexivity. Qed.

Lemma submitted_app (a b : list Call) :
  submitted (a ++ b) = submitted a ++ submitted b.
Proof. unfold submitted. apply flat_map_app. Qed.

Lemma selected_reliable E tbl q :
  reliable E ->
  SupabaseDataService.selected E tbl q
  = map dbToInventoryItem (filter (select_filter q) tbl).
Proof.
  intros [_ Hs]. unfold SupabaseDataService.selected. now rewrite Hs.
Qed.

Lemma filter_item_master (tbl : list DbRow) :
  filter (select_filter QItemMaster) tbl = tbl.
Proof. induction tbl as [|x tbl IH]; cbn; [reflexivity | now rewrite IH]. Qed.

(** ** What one provider operation does to the state *)

Ltac unfold_ops :=
  unfold InventoryContext.updateAuditedItem, InventoryContext.setClosingStock,
    InventoryContext.setItemMaster, InventoryContext.now,
    SupabaseDataService.setAuditedItems, SupabaseDataService.setClosingStock,
    SupabaseDataService.setItemMaster, SupabaseDataService.upsert,
    SupabaseDataService.getItemMaster, SupabaseDataService.getClosingStock,
    SupabaseDataService.getAuditedItems, SupabaseDataService.select,
    bind, ret, throw, get_st, log_call, set_db, setItemMasterState,
    setClosingStockState, setAuditedItemsState.

Lemma updateAuditedItem_run E item st :
  let r := inventoryItemToDb
             (InventoryContext.itemToUpdate (clock E (clock_reads st)) item) in
  InventoryContext.updateAuditedItem E item st =
  match upsert_error E (db st) [r] with
  | Some e =>
      (Throw e,
       mkSt (db st) (calls st ++ [CUpsert [r]]) (S (clock_reads st))
            (itemMaster st) (closingStock st) (auditedItems st)
            (locations st) (toasts st))
  | None =>
      let tbl := upsert_row E (db st) r in
      (Ok tt,
       refreshed E tbl
         (calls st ++ [CUpsert [r]; CSelect QItemMaster; CSelect QClosingStock;
                       CSelect QAuditedItems])
         (S (clock_reads st))
         (SupabaseDataService.selected E tbl QAuditedItems) st)
  end.
Proof.
  intros r. unfold_ops. cbn. fold r.
  destruct (upsert_error E (db st) [r]) as [e|]; cbn; [reflexivity|].
  unfold refreshed. now rewrite <- !app_assoc.
Qed.

Lemma setClosingStock_run E items st :
  let rows := map inventoryItemToDb
                  (map (InventoryContext.mergeIncoming (itemMaster st)) items) in
  InventoryContext.setClosingStock E items st =
  match items with
  | [] =>
      (Ok tt,
       refreshed E (db st) (calls st ++ [CSelect QItemMaster; CSelect QClosingStock])
                 (clock_reads st) (auditedItems st) st)
  | _ :: _ =>
      match upsert_error E (db st) rows with
      | Some e =>
          (Throw e,
           mkSt (db st) (calls st ++ [CUpsert rows]) (clock_reads st)
                (itemMaster st) (closingStock st) (auditedItems st)
                (locations st) (toasts st))
      | None =>
          (Ok tt,
           refreshed E (upsert_rows E (db st) rows)
             (calls st ++ [CUpsert rows; CSelect QItemMaster; CSelect QClosingStock])
             (clock_reads st) (auditedItems st) st)
      end
  end.
Proof.
  intros rows. unfold_ops. rewrite length_map, nonempty_length.
  destruct items as [|i items]; cbn.
  - unfold refreshed. now rewrite <- !app_assoc.
  - fold rows.
    change (inventoryItemToDb (InventoryContext.mergeIncoming (itemMaster st) i)
              :: map inventoryItemToDb
                   (map (InventoryContext.mergeIncoming (itemMaster st)) items))
      with rows.
    destruct (upsert_error E (db st) rows) as [e|]; cbn; [reflexivity|].
    unfold refreshed. now rewrite <- !app_assoc.
Qed.

Lemma setClosingStockOver_run E master items st :
  let rows := map inventoryItemToDb
                  (map (InventoryContext.mergeIncoming master) items) in
  InventoryContext.setClosingStockOver E master items st =
  match items with
  | [] =>
      (Ok tt,
       refreshed E (db st) (calls st ++ [CSelect QItemMaster; CSelect QClosingStock])
                 (clock_reads st) (auditedItems st) st)
  | _ :: _ =>
      match upsert_error E (db st) rows with
      | Some e =>
          (Throw e,
           mkSt (db st) (calls st ++ [CUpsert rows]) (clock_reads st)
                (itemMaster st) (closingStock st) (auditedItems st)
                (locations st) (toasts st))
      | None =>
          (Ok tt,
           refreshed E (upsert_rows E (db st) rows)
             (calls st ++ [CUpsert rows; CSelect QItemMaster; CSelect QClosingStock])
             (clock_reads st) (auditedItems st) st)
      end
  end.
Proof.
  intros rows. unfold InventoryContext.setClosingStockOver. unfold_ops.
  rewrite length_map, nonempty_length.
  destruct items as [|i items]; cbn.
  - unfold refreshed. now rewrite <- !app_assoc.
  - fold rows.
    change (inventoryItemToDb (InventoryContext.mergeIncoming master i)
              :: map inventoryItemToDb
                   (map (InventoryContext.mergeIncoming master) items))
      with rows.
    destruct (upsert_error E (db st) rows) as [e|]; cbn; [reflexivity|].
    unfold refreshed. now rewrite <- !app_assoc.
Qed.

(** In a settled state the closure is the provider's function. *)
Lemma setClosingStock_settled E items st :
  InventoryContext.setClosingStock E items st
  = InventoryContext.setClosingStockOver E (itemMaster st) items st.
Proof. now rewrite setClosingStock_run, setClosingStockOver_run. Qed.

Lemma setItemMaster_run E items st :
  let rows := map inventoryItemToDb items in
  InventoryContext.setItemMaster E items st =
  match items with
  | [] =>
      (Ok tt,
       refreshed E (db st) (calls st ++ [CSelect QItemMaster; CSelect QClosingStock])
                 (clock_reads st) (auditedItems st) st)
  | _ :: _ =>
      match upsert_error E (db st) rows with
      | Some e =>
          (Throw e,
           mkSt (db st) (calls st ++ [CUpsert rows]) (clock_reads st)
                (itemMaster st) (closingStock st) (auditedItems st)
                (locations st) (toasts st))
      | None =>
          (Ok tt,
           refreshed E (upsert_rows E (db st) rows)
             (calls st ++ [CUpsert rows; CSelect QItemMaster; CSelect QClosingStock])
             (clock_reads st) (auditedItems st) st)
      end
  end.
Proof.
  intros rows. unfold_ops. rewrite nonempty_length.
  destruct items as [|i items]; cbn.
  - unfold refreshed. now rewrite <- !app_assoc.
  - change (inventoryItemToDb i :: map inventoryItemToDb items) with rows.
    destruct (upsert_error E (db st) rows) as [e|]; cbn; [reflexivity|].
    unfold refreshed. now rewrite <- !app_assoc.
Qed.
(** ** Lists *)

Lemma find_map_compat {A B : Type} (p : B -> bool) (q : A -> bool) (h : A -> B)
      (l : list A) :
  (forall x, In x l -> p (h x) = q x) ->
  find p (map h l) = option_map h (find q l).
Proof.
  induction l as [|a l IH]; intros Hpq; cbn; [reflexivity|].
  rewrite (Hpq a (or_introl eq_refl)).
  destruct (q a); [reflexivity|].
  apply IH. intros x Hx. apply Hpq. now right.
Qed.

Lemma find_exists {A : Type} (p : A -> bool) (l : list A) :
  existsb p l = true -> exists x, find p l = Some x.
Proof.
  induction l as [|a l IH]; cbn; [discriminate|].
  destruct (p a); [eauto | exact IH].
Qed.

(** ** The keyed upsert *)

Lemma same_key_sym_cols (r : DbItem) (x : DbRow) (i : string) :
  same_key r x = true -> same_key r (mkDbRow i r) = true.
Proof.
  intros _. unfold same_key. cbn. now rewrite !String.eqb_refl.
Qed.

Lemma upsert_row_In E tbl r x :
  In x (upsert_row E tbl r) ->
  (same_key r x = true /\ db_cols x = r)
  \/ (same_key r x = false /\ In x tbl).
Proof.
  unfold upsert_row. destruct (existsb (same_key r) tbl) eqn:Hex.
  - intros Hin. apply in_map_iff in Hin as (y & Hy & Hin).
    destruct (same_key r y) eqn:Hk; subst x.
    + left. split; [|reflexivity]. eapply same_key_sym_cols; eauto.
    + right. now split.
  - intros Hin. apply in_app_or in Hin as [Hin | [<- | []]].
    + right. split; [|assumption].
      destruct (same_key r x) eqn:Hk; [|reflexivity].
      assert (existsb (same_key r) tbl = true) by (apply existsb_exists; eauto).
      congruence.
    + left. split; [|reflexivity]. unfold same_key. cbn.
      now rewrite !String.eqb_refl.
Qed.

Lemma upsert_row_has_key E tbl r :
  existsb (same_key r) (upsert_row E tbl r) = true.
Proof.
  unfold upsert_row. destruct (existsb (same_key r) tbl) eqn:Hex.
  - apply existsb_exists in Hex as (x & Hin & Hk).
    apply existsb_exists. exists (mkDbRow (db_id x) r). split.
    + apply in_map_iff. exists x. now rewrite Hk.
    + eapply same_key_sym_cols; eauto.
  - rewrite existsb_app. cbn. unfold same_key at 2. cbn.
    rewrite !String.eqb_refl. cbn. apply orb_true_r.
Qed.

Lemma upsert_row_keeps_key E tbl r r' :
  existsb (same_key r') tbl = true ->
  existsb (same_key r') (upsert_row E tbl r) = true.
Proof.
  intros Hex. apply existsb_exists in Hex as (x & Hin & Hk).
  unfold upsert_row. destruct (existsb (same_key r) tbl).
  - apply existsb_exists.
    exists (if same_key r x then mkDbRow (db_id x) r else x). split.
    + apply in_map_iff. now exists x.
    + destruct (same_key r x) eqn:Hrx; [|assumption].
      unfold same_key in *. cbn.
      apply andb_true_iff in Hk as [K1 K2], Hrx as [R1 R2].
      apply String.eqb_eq in K1, K2, R1, R2.
      rewrite <- R1, <- R2, K1, K2. now rewrite !String.eqb_refl.
  - rewrite existsb_app, (proj2 (existsb_exists _ _)); [reflexivity|eauto].
Qed.

Lemma upsert_rows_snoc E tbl rows r :
  upsert_rows E tbl (rows ++ [r]) = upsert_row E (upsert_rows E tbl rows) r.
Proof. unfold upsert_rows. now rewrite fold_left_app. Qed.

Lemma upsert_rows_cons E tbl r rows :
  upsert_rows E tbl (r :: rows) = upsert_rows E (upsert_row E tbl r) rows.
Proof. reflexivity. Qed.

Lemma upsert_rows_keeps_key E rows : forall tbl r',
  existsb (same_key r') tbl = true ->
  existsb (same_key r') (upsert_rows E tbl rows) = true.
Proof.
  induction rows as [|r rows IH]; intros tbl r' H; [assumption|].
  rewrite upsert_rows_cons. apply IH. now apply upsert_row_keeps_key.
Qed.

Lemma upsert_rows_has_keys E rows : forall tbl r,
  In r rows -> existsb (same_key r) (upsert_rows E tbl rows) = true.
Proof.
  induction rows as [|r0 rows IH]; intros tbl r Hin; [destruct Hin|].
  destruct Hin as [<-|Hin]; rewrite upsert_rows_cons.
  - apply upsert_rows_keeps_key, upsert_row_has_key.
  - now apply IH.
Qed.

(** Last writer wins: a stored row whose key occurs in the batch holds the
    columns of the last batch row with that key. *)
Lemma upsert_rows_last E rows : forall tbl x r,
  In x (upsert_rows E tbl rows) ->
  find (fun r => same_key r x) (rev rows) = Some r ->
  db_cols x = r.
Proof.
  induction rows as [|r0 rows IH] using rev_ind; intros tbl x r Hin Hfind.
  - discriminate.
  - rewrite upsert_rows_snoc in Hin. rewrite rev_app_distr in Hfind.
    cbn in Hfind.
    apply upsert_row_In in Hin as [[Hk Hc] | [Hk Hin]]; rewrite Hk in Hfind.
    + congruence.
    + eapply IH; eauto.
Qed.

Lemma upsert_row_overwrite E tbl r :
  existsb (same_key r) tbl = true ->
  upsert_row E tbl r = map (overwrite r) tbl.
Proof. intros H. unfold upsert_row. now rewrite H. Qed.

Lemma overwrite_same_key r r' x :
  same_key r' (overwrite r x) = same_key r' x.
Proof.
  unfold overwrite. destruct (same_key r x) eqn:H; [|reflexivity].
  unfold same_key in *. cbn. apply andb_true_iff in H as [H1 H2].
  apply String.eqb_eq in H1, H2. now rewrite H1, H2.
Qed.

Lemma existsb_map_overwrite r r' tbl :
  existsb (same_key r') (map (overwrite r) tbl) = existsb (same_key r') tbl.
Proof.
  induction tbl as [|x tbl IH]; cbn; [reflexivity|].
  now rewrite overwrite_same_key, IH.
Qed.

Lemma upsert_rows_overwrite E rows : forall tbl,
  (forall r, In r rows -> existsb (same_key r) tbl = true) ->
  upsert_rows E tbl rows
  = map (fun x => fold_left (fun y r => overwrite r y) rows x) tbl.
Proof.
  induction rows as [|r rows IH]; intros tbl Hkeys.
  - cbn. now rewrite map_id.
  - rewrite upsert_rows_cons.
    rewrite upsert_row_overwrite by (apply Hkeys; now left).
    rewrite IH, map_map; [reflexivity|].
    intros r' Hr'. rewrite existsb_map_overwrite. apply Hkeys. now right.
Qed.

Lemma fold_overwrite_same_key rows : forall r' x,
  same_key r' (fold_left (fun y r => overwrite r y) rows x) = same_key r' x.
Proof.
  induction rows as [|r rows IH]; intros r' x; cbn; [reflexivity|].
  now rewrite IH, overwrite_same_key.
Qed.

Lemma fold_overwrite_id rows : forall x,
  db_id (fold_left (fun y r => overwrite r y) rows x) = db_id x.
Proof.
  induction rows as [|r rows IH]; intros x; cbn; [reflexivity|].
  rewrite IH. unfold overwrite. now destruct (same_key r x).
Qed.

Lemma fold_overwrite_last rows : forall x,
  fold_left (fun y r => overwrite r y) rows x
  = match find (fun r => same_key r x) (rev rows) with
    | Some r => mkDbRow (db_id x) r
    | None => x
    end.
Proof.
  induction rows as [|r rows IH] using rev_ind; intros x; [reflexivity|].
  rewrite fold_left_app, rev_app_distr. cbn.
  unfold overwrite at 1. rewrite fold_overwrite_same_key, fold_overwrite_id.
  destruct (same_key r x); [reflexivity | apply IH].
Qed.

(** ** What one scan does to the state *)

Lemma find_none_existsb {A : Type} (p : A -> bool) (l : list A) :
  find p l = None <-> existsb p l = false.
Proof.
  induction l as [|a l IH]; cbn; [tauto|].
  destruct (p a); cbn; [split; discriminate | exact IH].
Qed.

Lemma commitScan_run E m st :
  let row := scanRow E st m in
  BarcodeScanner.commitScan E m (location m) st =
  match upsert_error E (db st) [row] with
  | Some e =>
      (Throw e,
       mkSt (db st) (calls st ++ [CUpsert [row]]) (S (S (clock_reads st)))
            (itemMaster st) (closingStock st) (auditedItems st)
            (locations st) (toasts st))
  | None =>
      let tbl := upsert_row E (db st) row in
      (Ok true,
       mkSt tbl
            (calls st ++ [CUpsert [row]; CSelect QItemMaster;
                          CSelect QClosingStock; CSelect QAuditedItems])
            (S (S (clock_reads st)))
            (SupabaseDataService.selected E tbl QItemMaster)
            (SupabaseDataService.selected E tbl QClosingStock)
            (SupabaseDataService.selected E tbl QAuditedItems)
            (locations st) (toasts st ++ [scanOutcome st m]))
  end.
Proof.
  intros row. unfold BarcodeScanner.commitScan.
  unfold bind at 1. unfold get_st at 1. cbn iota beta.
  unfold bind at 1. unfold InventoryContext.now at 1. cbn iota beta.
  unfold bind at 1. rewrite updateAuditedItem_run. cbn [db clock_reads].
  match goal with
  | |- context [upsert_error E (db st) [?r]] =>
      replace r with row
  end.
  2:{ unfold row, scanRow, inventoryItemToDb, InventoryContext.itemToUpdate,
        countedSoFar, auditedRecord. cbn -[or_zero Z.eqb Z.add].
      rewrite or_zero_Some. f_equal. f_equal.
      unfold InventoryContext.defined_and_equal, deriveStatus. cbn.
      rewrite Z.eqb_sym. reflexivity. }
  destruct (upsert_error E (db st) [row]) as [e|]; cbn; [reflexivity|].
  unfold refreshed, scanOutcome, countedSoFar. cbn.
  destruct (_ =? systemQuantity m); reflexivity.
Qed.

Lemma handleItemScan_run E user acc barcode locationId st :
  BarcodeScanner.handleItemScan E user acc barcode locationId st =
  if String.eqb locationId ""
  then (Ok false, addToast st TError "Location Required")
  else if String.eqb (selectedLocationName st locationId) ""
  then (Ok false, addToast st TError "Invalid Location")
  else
    match catalogRecord st barcode with
    | None => (Ok false, addToast st TError "Item not found")
    | Some m =>
        if scanAllowed user acc m (selectedLocationName st locationId)
        then
          let row := scanRow E st m in
          let warned :=
            toasts st ++ scanWarnings user m (selectedLocationName st locationId) in
          match upsert_error E (db st) [row] with
          | Some e =>
              (Ok false,
               mkSt (db st) (calls st ++ [CUpsert [row]])
                    (S (S (clock_reads st)))
                    (itemMaster st) (closingStock st) (auditedItems st)
                    (locations st)
                    (warned ++ [mkToast TError "Scanning Error"]))
          | None =>
              let tbl := upsert_row E (db st) row in
              (Ok true,
               mkSt tbl
                    (calls st ++ [CUpsert [row]; CSelect QItemMaster;
                                  CSelect QClosingStock; CSelect QAuditedItems])
                    (S (S (clock_reads st)))
                    (SupabaseDataService.selected E tbl QItemMaster)
                    (SupabaseDataService.selected E tbl QClosingStock)
                    (SupabaseDataService.selected E tbl QAuditedItems)
                    (locations st) (warned ++ [scanOutcome st m]))
          end
        else (Ok false, addToast st TError "Access denied")
    end.
Proof.
  unfold BarcodeScanner.handleItemScan, try_catch.
  destruct (String.eqb locationId "") eqn:Hid; [reflexivity|].
  unfold bind at 1. unfold get_st at 1. cbn iota beta.
  fold (selectedLocationName st locationId).
  destruct (String.eqb (selectedLocationName st locationId) "") eqn:Hnm;
    [reflexivity|].
  fold (catalogRecord st barcode).
  destruct (catalogRecord st barcode) as [m|]; [|reflexivity].
  unfold scanAllowed, scanWarnings.
  destruct (String.eqb (location m) (selectedLocationName st locationId)) eqn:Hloc;
    cbn [negb orb].
  - apply String.eqb_eq in Hloc. rewrite <- Hloc, commitScan_run.
    rewrite app_nil_r.
    destruct (upsert_error E (db st) [scanRow E st m]); reflexivity.
  - destruct (BarcodeScanner.isAdmin user) eqn:Hadm; cbn [orb].
    + unfold bind at 1. unfold toast at 1. cbn iota beta.
      rewrite commitScan_run.
      change (scanRow E _ m) with (scanRow E st m).
      cbn [db calls clock_reads itemMaster closingStock
              auditedItems locations toasts].
      destruct (upsert_error E (db st) [scanRow E st m]);
        [reflexivity|].
      cbv zeta. rewrite <- !app_assoc. reflexivity.
    + fold (find (fun loc => String.eqb (loc_name loc) (location m)) acc).
      destruct (find (fun loc => String.eqb (loc_name loc) (location m)) acc)
        as [l|] eqn:Hacc.
      * assert (Hex : existsb (fun loc => String.eqb (loc_name loc) (location m))
                              acc = true).
        { destruct (existsb _ acc) eqn:Hex; [reflexivity|].
          apply find_none_existsb in Hex. congruence. }
        rewrite Hex.
        unfold bind at 1. unfold toast at 1. cbn iota beta.
        rewrite commitScan_run.
        change (scanRow E _ m) with (scanRow E st m).
        cbn [db calls clock_reads itemMaster closingStock
                auditedItems locations toasts].
        destruct (upsert_error E (db st) [scanRow E st m]);
          [reflexivity|].
        cbv zeta. rewrite <- !app_assoc. reflexivity.
      * apply find_none_existsb in Hacc. rewrite Hacc. reflexivity.
Qed.

(** ** What the operations submit *)

Lemma submitted_snoc_upsert cs rows rest :
  (forall c, In c rest -> exists q, c = CSelect q) ->
  submitted (cs ++ CUpsert rows :: rest) = submitted cs ++ rows.
Proof.
  intros Hrest. rewrite submitted_app. f_equal. cbn.
  assert (H : submitted rest = []).
  { induction rest as [|c rest IH]; [reflexivity|].
    destruct (Hrest c (or_introl eq_refl)) as [q ->]. cbn.
    apply IH. intros c' Hc'. apply Hrest. now right. }
  unfold submitted in H. rewrite H. apply app_nil_r.
Qed.

Ltac selects :=
  let c := fresh "c" in let H := fresh "H" in
  intros c H; cbn in H;
  repeat (destruct H as [<-|H]; [eexists; reflexivity|]); destruct H.

Lemma updateAuditedItem_submitted E item st :
  submitted (calls (run (InventoryContext.updateAuditedItem E item) st))
  = submitted (calls st)
    ++ [inventoryItemToDb
          (InventoryContext.itemToUpdate (clock E (clock_reads st)) item)].
Proof.
  unfold run. rewrite updateAuditedItem_run.
  destruct (upsert_error E (db st) _); cbn [snd calls refreshed];
    apply submitted_snoc_upsert; selects.
Qed.

Lemma itemToUpdate_status t item :
  physicalQuantity item <> Null ->
  status (InventoryContext.itemToUpdate t item)
  = Some (deriveStatus (systemQuantity item)
                       (number_of (physicalQuantity item))).
Proof.
  unfold InventoryContext.itemToUpdate, InventoryContext.defined_and_equal,
    deriveStatus. cbn.
  destruct (physicalQuantity item) as [| |p]; cbn; intros Hp;
    [reflexivity|congruence|].
  now rewrite Z.eqb_sym.
Qed.

Lemma itemToUpdate_status_null t item :
  physicalQuantity item = Null ->
  status (InventoryContext.itemToUpdate t item) = Some discrepancy.
Proof.
  intros Hp. unfold InventoryContext.itemToUpdate,
    InventoryContext.defined_and_equal. cbn. now rewrite Hp.
Qed.




Lemma setClosingStock_submitted E items st :
  submitted (calls (run (InventoryContext.setClosingStock E items) st))
  = submitted (calls st)
    ++ map inventoryItemToDb
           (map (InventoryContext.mergeIncoming (itemMaster st)) items).
Proof.
  unfold run. rewrite setClosingStock_run. destruct items as [|i items].
  - cbn [snd calls refreshed map]. rewrite submitted_app. now cbn.
  - destruct (upsert_error E (db st) _); cbn [snd calls refreshed];
      apply submitted_snoc_upsert; selects.
Qed.

Lemma setItemMaster_submitted E items st :
  submitted (calls (run (InventoryContext.setItemMaster E items) st))
  = submitted (calls st) ++ map inventoryItemToDb items.
Proof.
  unfold run. rewrite setItemMaster_run. destruct items as [|i items].
  - cbn [snd calls refreshed map]. rewrite submitted_app. now cbn.
  - destruct (upsert_error E (db st) _); cbn [snd calls refreshed];
      apply submitted_snoc_upsert; selects.
Qed.

Lemma length_zero_eqb {A : Type} (l : list A) :
  (Z.of_nat (List.length l) =? 0) = is_nil l.
Proof. destruct l; reflexivity. Qed.

Lemma existsb_loc_name (acc : list Location) (l : string) :
  existsb (fun loc => String.eqb (loc_name loc) l) acc = true
  <-> In l (map loc_name acc).
Proof.
  rewrite existsb_exists, in_map_iff. split.
  - intros (x & Hin & Heq). apply String.eqb_eq in Heq. eauto.
  - intros (x & Heq & Hin). exists x. split; [assumption|].
    now apply String.eqb_eq.
Qed.

(** ** The record-status invariant *)

Lemma statusInvariant_row (x : DbRow) :
  statusInvariant (dbToInventoryItem x) <-> rowInvariant (db_cols x).
Proof.
  unfold statusInvariant, rowInvariant. cbn.
  destruct (physical_quantity (db_cols x)); reflexivity.
Qed.

Lemma deriveStatus_counted (s p : Z) :
  deriveStatus s (Some p) = matched \/ deriveStatus s (Some p) = discrepancy.
Proof. unfold deriveStatus. destruct (p =? s); auto. Qed.

Lemma rowInvariant_itemToUpdate t item :
  physicalQuantity item <> Undefined ->
  rowInvariant (inventoryItemToDb (InventoryContext.itemToUpdate t item)).
Proof.
  intros Hp. unfold rowInvariant. cbn [inventoryItemToDb physical_quantity
    db_status InventoryContext.itemToUpdate physicalQuantity number_of].
  destruct (physicalQuantity item) as [| |p] eqn:Hq; [congruence| |].
  - rewrite (itemToUpdate_status_null t item Hq). cbn. auto.
  - rewrite itemToUpdate_status, Hq by congruence.
    cbn [or_pending number_of].
    destruct (deriveStatus_counted (systemQuantity item) p) as [-> | ->]; auto.
Qed.

Lemma rowInvariant_scanRow E st m : rowInvariant (scanRow E st m).
Proof.
  unfold rowInvariant, scanRow. cbn [physical_quantity db_status].
  match goal with
  | |- context [deriveStatus ?s (Some ?p)] =>
      destruct (deriveStatus_counted s p) as [-> | ->]; auto
  end.
Qed.

Lemma upsert_row_invariant E tbl r :
  rowInvariant r ->
  Forall statusInvariant (map dbToInventoryItem tbl) ->
  Forall statusInvariant (map dbToInventoryItem (upsert_row E tbl r)).
Proof.
  intros Hr Htbl. rewrite Forall_map, Forall_forall in *.
  intros x Hx. apply upsert_row_In in Hx as [[_ Hc] | [_ Hin]].
  - apply statusInvariant_row. now rewrite Hc.
  - now apply Htbl.
Qed.

Lemma selected_invariant E tbl q :
  Forall statusInvariant (map dbToInventoryItem tbl) ->
  Forall statusInvariant (SupabaseDataService.selected E tbl q).
Proof.
  intros Htbl. unfold SupabaseDataService.selected.
  destruct (select_error E tbl q); [constructor|].
  rewrite Forall_map, Forall_forall in *.
  intros x Hx. apply filter_In in Hx as [Hx _]. now apply Htbl.
Qed.

Lemma records_refreshed E tbl cs n st :
  Forall statusInvariant (map dbToInventoryItem tbl) ->
  Forall statusInvariant
    (records (refreshed E tbl cs n
                (SupabaseDataService.selected E tbl QAuditedItems) st)).
Proof.
  intros Htbl. unfold records, refreshed. cbn [db itemMaster closingStock
    auditedItems]. repeat (apply Forall_app; split); auto using selected_invariant.
Qed.

Lemma records_db st :
  Forall statusInvariant (records st) ->
  Forall statusInvariant (map dbToInventoryItem (db st)).
Proof. unfold records. intros H. now apply Forall_app in H as [H _]. Qed.

Lemma updateAuditedItem_invariant E item st :
  physicalQuantity item <> Undefined ->
  Forall statusInvariant (records st) ->
  Forall statusInvariant
         (records (run (InventoryContext.updateAuditedItem E item) st)).
Proof.
  intros Hp Hst. unfold run. rewrite updateAuditedItem_run.
  destruct (upsert_error E (db st) _); cbn [snd].
  - exact Hst.
  - apply records_refreshed, upsert_row_invariant; [|now apply records_db].
    now apply rowInvariant_itemToUpdate.
Qed.

Lemma handleItemScan_invariant E user acc barcode locationId st :
  Forall statusInvariant (records st) ->
  Forall statusInvariant
    (records (run (BarcodeScanner.handleItemScan E user acc barcode locationId)
                  st)).
Proof.
  intros Hst. unfold run. rewrite handleItemScan_run.
  destruct (String.eqb locationId ""); [exact Hst|].
  destruct (String.eqb (selectedLocationName st locationId) ""); [exact Hst|].
  destruct (catalogRecord st barcode) as [m|]; [|exact Hst].
  destruct (scanAllowed user acc m _); [|exact Hst].
  cbv zeta. destruct (upsert_error E (db st) _); cbn [snd]; [exact Hst|].
  unfold records. cbn [db itemMaster closingStock auditedItems].
  assert (Htbl : Forall statusInvariant
                   (map dbToInventoryItem (upsert_row E (db st) (scanRow E st m)))).
  { apply upsert_row_invariant; [apply rowInvariant_scanRow|].
    now apply records_db. }
  repeat (apply Forall_app; split); auto using selected_invariant.
Qed.

Lemma addItemToAudit_invariant E item quantity st :
  Forall statusInvariant (records st) ->
  Forall statusInvariant
         (records (run (InventoryContext.addItemToAudit E item quantity) st)).
Proof.
  intros Hst. unfold InventoryContext.addItemToAudit.
  destruct (quantity <? 0); [exact Hst|].
  unfold run, bind at 1. unfold InventoryContext.now at 1. cbn iota beta.
  apply updateAuditedItem_invariant; [discriminate | exact Hst].
Qed.

Lemma scanItem_invariant E barcode locationName st :
  Forall statusInvariant (records st) ->
  Forall statusInvariant
         (records (run (InventoryContext.scanItem E barcode locationName) st)).
Proof.
  intros Hst. unfold InventoryContext.scanItem, run, bind at 1.
  unfold get_st at 1. cbn iota beta.
  destruct (find _ (itemMaster st)); [|exact Hst].
  apply updateAuditedItem_invariant; [discriminate | exact Hst].
Qed.

(** ** Successive scans *)








(** ** Re-applying a closing-stock import *)

Lemma closingStockRow_key master i x :
  same_key (closingStockRow master i) x
  = String.eqb (db_sku (db_cols x)) (sku i)
    && String.eqb (db_location (db_cols x)) (location i).
Proof.
  unfold closingStockRow, InventoryContext.mergeIncoming.
  destruct (find _ master) as [e|] eqn:He; [|reflexivity].
  apply find_some in He as [_ He]. unfold InventoryContext.same_sku_location in He.
  apply andb_true_iff in He as [H1 H2]. apply String.eqb_eq in H1, H2.
  unfold same_key. cbn. now rewrite H1, H2.
Qed.

Lemma closingStockRow_quantity master i :
  system_quantity (closingStockRow master i) = systemQuantity i.
Proof.
  unfold closingStockRow, InventoryContext.mergeIncoming.
  now destruct (find _ master).
Qed.

Lemma closingStockRow_status master i :
  exists s, db_status (closingStockRow master i) = Some s.
Proof. unfold closingStockRow. cbn. eauto. Qed.

Lemma find_pointwise {A : Type} (p q : A -> bool) (l : list A) :
  (forall x, p x = q x) -> find p l = find q l.
Proof.
  intros Hpq. induction l as [|a l IH]; cbn; [reflexivity|].
  now rewrite Hpq, IH.
Qed.

Lemma existsb_pointwise {A : Type} (p q : A -> bool) (l : list A) :
  (forall x, p x = q x) -> existsb p l = existsb q l.
Proof.
  intros Hpq. induction l as [|a l IH]; cbn; [reflexivity|].
  now rewrite Hpq, IH.
Qed.

Lemma same_key_shared r x y :
  same_key r x = true -> same_key r y = true ->
  forall r', same_key r' y = same_key r' x.
Proof.
  unfold same_key. intros Hx Hy r'.
  apply andb_true_iff in Hx as [X1 X2], Hy as [Y1 Y2].
  apply String.eqb_eq in X1, X2, Y1, Y2. now rewrite X1, X2, Y1, Y2.
Qed.

(** The merge against the refreshed master rebuilds the stored row. *)
Lemma closingStockRow_refreshed E master tbl items i x :
  let tbl1 := upsert_rows E tbl (map (closingStockRow master) items) in
  In x tbl1 ->
  find (fun j => same_key (closingStockRow master j) x) (rev items) = Some i ->
  closingStockRow (map dbToInventoryItem tbl1) i = db_cols x.
Proof.
  intros tbl1 Hx Hlast.
  assert (Hlast1 : find (fun r => same_key r x)
                        (rev (map (closingStockRow master) items))
                   = Some (closingStockRow master i)).
  { rewrite <- map_rev.
    rewrite (find_map_compat _ (fun j => same_key (closingStockRow master j) x))
      by reflexivity.
    now rewrite Hlast. }
  pose proof (upsert_rows_last E _ _ _ _ Hx Hlast1) as Hcols.
  pose proof Hlast as Hi. apply find_some in Hi as [Hi Hkx].
  apply in_rev in Hi.
  assert (Hhas : existsb (same_key (closingStockRow master i)) tbl1 = true)
    by (apply upsert_rows_has_keys; now apply in_map).
  apply find_exists in Hhas as (y & Hy).
  pose proof Hy as Hy'. apply find_some in Hy' as [Hyin Hky].
  assert (Hycols : db_cols y = closingStockRow master i).
  { apply (upsert_rows_last E _ _ _ _ Hyin).
    rewrite (find_pointwise _ (fun r => same_key r x)); [exact Hlast1|].
    intros r. eapply same_key_shared; eauto. }
  unfold closingStockRow at 1, InventoryContext.mergeIncoming.
  rewrite (find_map_compat _ (same_key (closingStockRow master i))).
  2:{ intros z _. rewrite closingStockRow_key. reflexivity. }
  rewrite Hy. cbn [option_map].
  rewrite Hcols. rewrite <- Hycols.
  pose proof (closingStockRow_quantity master i) as Hq.
  destruct (closingStockRow_status master i) as (s & Hs).
  rewrite <- Hycols in Hq, Hs.
  unfold inventoryItemToDb, dbToInventoryItem. cbn.
  destruct y as [yid [a b c d e f g h k]]. cbn in *. subst. now destruct e.
Qed.

Lemma upsert_rows_closing_stock_again E master tbl items :
  let tbl1 := upsert_rows E tbl (map (closingStockRow master) items) in
  upsert_rows E tbl1 (map (closingStockRow (map dbToInventoryItem tbl1)) items)
  = tbl1.
Proof.
  intros tbl1.
  rewrite upsert_rows_overwrite.
  - rewrite <- (map_id tbl1) at 2. apply map_ext_in. intros x Hx.
    rewrite fold_overwrite_last, <- map_rev.
    rewrite (find_map_compat _ (fun j => same_key (closingStockRow master j) x)).
    2:{ intros j _. now rewrite !closingStockRow_key. }
    destruct (find _ (rev items)) as [i|] eqn:Hlast; [|reflexivity].
    cbn [option_map].
    pose proof (closingStockRow_refreshed E master tbl items i x Hx Hlast)
      as Hsame.
    cbv zeta in Hsame. fold tbl1 in Hsame. rewrite Hsame.
    now destruct x.
  - intros r Hr. apply in_map_iff in Hr as (i & <- & Hi).
    rewrite (existsb_pointwise _ (same_key (closingStockRow master i))).
    + apply upsert_rows_has_keys. now apply in_map.
    + intros x. now rewrite !closingStockRow_key.
Qed.

Lemma setClosingStock_reliable E items st :
  reliable E ->
  let tbl1 :=
    upsert_rows E (db st) (map (closingStockRow (itemMaster st)) items) in
  exists cs,
    InventoryContext.setClosingStock E items st
    = (Ok tt,
       mkSt tbl1 cs (clock_reads st)
            (map dbToInventoryItem tbl1)
            (map dbToInventoryItem (filter (select_filter QClosingStock) tbl1))
            (auditedItems st) (locations st) (toasts st)).
Proof.
  intros Hrel tbl1. rewrite setClosingStock_run. unfold refreshed.
  rewrite map_map. fold (closingStockRow (itemMaster st)). fold tbl1.
  destruct items as [|i items].
  - eexists. rewrite !(selected_reliable E) by assumption.
    rewrite filter_item_master. reflexivity.
  - destruct Hrel as [Hw Hs]. rewrite Hw. eexists.
    rewrite !(selected_reliable E) by (split; assumption).
    rewrite filter_item_master. reflexivity.
Qed.

(** ** Summaries *)

Lemma sumOver_zero locs : sumOver locs (fun _ => 0) = 0.
Proof.
  unfold sumOver.
  induction locs as [|l locs IH]; cbn [fold_right]; [reflexivity | now rewrite IH].
Qed.

Lemma sumOver_ext locs f g :
  (forall l, f l = g l) -> sumOver locs f = sumOver locs g.
Proof.
  intros Hfg. unfold sumOver.
  induction locs as [|l locs IH]; cbn [fold_right]; [reflexivity|].
  now rewrite Hfg, IH.
Qed.

Lemma sumOver_add locs f g :
  sumOver locs (fun l => f l + g l) = sumOver locs f + sumOver locs g.
Proof.
  unfold sumOver.
  induction locs as [|l locs IH]; cbn [fold_right]; [reflexivity | rewrite IH; lia].
Qed.

Lemma sumOver_indicator locs x :
  NoDup locs -> In x locs ->
  sumOver locs (fun l => if String.eqb x l then 1 else 0) = 1.
Proof.
  unfold sumOver.
  induction 1 as [|l locs Hnot Hnd IH]; intros Hin; [destruct Hin|].
  cbn [fold_right]. destruct (String.eqb_spec x l) as [->|Hne].
  - assert (Hz : fold_right (fun l0 acc => (if String.eqb l l0 then 1 else 0) + acc)
                            0 locs = 0).
    { clear IH Hin Hnd. induction locs as [|k locs IH]; [reflexivity|].
      cbn [fold_right]. destruct (String.eqb_spec l k) as [->|_].
      - exfalso. apply Hnot. now left.
      - rewrite IH; [reflexivity|]. intros Hk. apply Hnot. now right. }
    rewrite Hz. reflexivity.
  - destruct Hin as [Heq|Hin]; [congruence|].
    now rewrite (IH Hin).
Qed.

Lemma length_partition (master : list InventoryItem) (locs : list string) :
  NoDup locs ->
  (forall item, In item master -> In (location item) locs) ->
  Z.of_nat (List.length master)
  = sumOver locs
      (fun l => Z.of_nat (List.length
                            (filter (fun item => String.eqb (location item) l)
                                    master))).
Proof.
  intros Hnd. induction master as [|a master IH]; intros Hcover.
  - cbn [filter List.length Z.of_nat]. now rewrite sumOver_zero.
  - transitivity
      (sumOver locs
         (fun l => (if String.eqb (location a) l then 1 else 0)
                   + Z.of_nat (List.length
                                 (filter (fun item => String.eqb (location item) l)
                                         master)))).
    + rewrite sumOver_add, sumOver_indicator, <- IH; auto.
      * cbn [List.length]. lia.
      * intros item Hin. apply Hcover. now right.
      * apply Hcover. now left.
    + apply sumOver_ext. intros l. cbn [filter].
      destruct (String.eqb (location a) l); cbn [List.length]; lia.
Qed.

Lemma append_inv_tail (s1 s2 t : string) :
  (s1 ++ t)%string = (s2 ++ t)%string -> s1 = s2.
Proof.
  assert (Hlen : forall a b, String.length (a ++ b)%string
                             = (String.length a + String.length b)%nat).
  { induction a as [|c a IH]; intros b; cbn; [reflexivity | now rewrite IH]. }
  revert s2. induction s1 as [|c s1 IH]; intros [|d s2] H; cbn in H.
  - reflexivity.
  - apply (f_equal String.length) in H. cbn in H. rewrite Hlen in H. lia.
  - apply (f_equal String.length) in H. cbn in H. rewrite Hlen in H. lia.
  - injection H as -> H. f_equal. now apply IH.
Qed.

Lemma NoDup_map_transfer {A B C : Type} (f : A -> B) (g : A -> C) (l : list A) :
  (forall x y, In x l -> In y l -> g x = g y -> f x = f y) ->
  NoDup (map f l) -> NoDup (map g l).
Proof.
  induction l as [|a l IH]; intros Hinj Hnd; cbn; [constructor|].
  cbn in Hnd. inversion Hnd as [|? ? Hnot Hnd']; subst. constructor.
  - intros Hin. apply Hnot. apply in_map_iff in Hin as (y & Hy & Hyin).
    apply in_map_iff. exists y. split; [|assumption].
    apply Hinj; [now right | now left | assumption].
  - apply IH; [|assumption]. intros x y Hx Hy. apply Hinj; now right.
Qed.

Lemma recordKey_filter_NoDup (keep : InventoryItem -> bool)
      (rs : list InventoryItem) :
  NoDup (map recordKey rs) -> NoDup (map recordKey (filter keep rs)).
Proof.
  intros Hnd. induction rs as [|r rs IH]; [constructor|].
  cbn [map] in Hnd. apply NoDup_cons_iff in Hnd as [Hfresh Hnd].
  cbn [filter]. destruct (keep r); [|now apply IH].
  cbn [map]. apply NoDup_cons_iff. split; [|now apply IH].
  intros Hr. apply Hfresh.
  apply in_map_iff in Hr as (r' & Hkey & Hr').
  apply filter_In in Hr' as [Hr' _].
  apply in_map_iff. now exists r'.
Qed.

Lemma distinct_keys_at_location (audited : list InventoryItem) (l : string) :
  NoDup (map recordKey audited) ->
  NoDup (map InventoryContext.auditedItemKey
             (filter (fun item => String.eqb (location item) l) audited)).
Proof.
  intros Hnd.
  apply (NoDup_map_transfer recordKey); [|now apply recordKey_filter_NoDup].
  intros x y Hx Hy Hkey.
  apply filter_In in Hx as [_ Hx], Hy as [_ Hy].
  apply String.eqb_eq in Hx, Hy.
  unfold InventoryContext.auditedItemKey in Hkey. rewrite Hx, Hy in Hkey.
  apply append_inv_tail in Hkey. unfold recordKey. congruence.
Qed.

(** ** Imports and the invariant *)

Lemma rowInvariant_importable r :
  importable r -> rowInvariant (inventoryItemToDb r).
Proof.
  unfold importable, rowInvariant. cbn.
  destruct (physicalQuantity r); intros [-> | ->]; cbn; auto.
Qed.

Lemma statusInvariant_importable r : statusInvariant r -> importable r.
Proof.
  unfold statusInvariant, importable. destruct (physicalQuantity r); auto.
Qed.

Lemma importable_mergeIncoming master incoming :
  Forall statusInvariant master -> importable incoming ->
  importable (InventoryContext.mergeIncoming master incoming).
Proof.
  intros Hm Hi. unfold InventoryContext.mergeIncoming.
  destruct (find _ master) as [e|] eqn:He; [|assumption].
  apply find_some in He as [He _].
  rewrite Forall_forall in Hm. apply Hm, statusInvariant_importable in He.
  exact He.
Qed.

Lemma upsert_rows_invariant E rows : forall tbl,
  Forall rowInvariant rows ->
  Forall statusInvariant (map dbToInventoryItem tbl) ->
  Forall statusInvariant (map dbToInventoryItem (upsert_rows E tbl rows)).
Proof.
  induction rows as [|r rows IH]; intros tbl Hrows Htbl; [assumption|].
  inversion Hrows; subst. rewrite upsert_rows_cons.
  apply IH; [assumption|]. now apply upsert_row_invariant.
Qed.

Lemma records_parts st :
  Forall statusInvariant (records st) <->
  Forall statusInvariant (map dbToInventoryItem (db st))
  /\ Forall statusInvariant (itemMaster st)
  /\ Forall statusInvariant (closingStock st)
  /\ Forall statusInvariant (auditedItems st).
Proof. unfold records. rewrite !Forall_app. tauto. Qed.

Lemma import_invariant E tbl cs n st :
  Forall statusInvariant (records st) ->
  Forall statusInvariant (map dbToInventoryItem tbl) ->
  Forall statusInvariant (records (refreshed E tbl cs n (auditedItems st) st)).
Proof.
  intros Hst Htbl. apply records_parts in Hst as (_ & _ & _ & Ha).
  apply records_parts. unfold refreshed. cbn [db itemMaster closingStock
    auditedItems]. auto using selected_invariant.
Qed.

Lemma setItemMaster_invariant E items st :
  Forall importable items ->
  Forall statusInvariant (records st) ->
  Forall statusInvariant
         (records (run (InventoryContext.setItemMaster E items) st)).
Proof.
  intros Hitems Hst. unfold run. rewrite setItemMaster_run.
  destruct items as [|i items]; cbn [snd].
  - apply import_invariant; [assumption | now apply records_db].
  - destruct (upsert_error E (db st) _); cbn [snd]; [assumption|].
    apply import_invariant; [assumption|].
    apply upsert_rows_invariant; [|now apply records_db].
    apply Forall_map. eapply Forall_impl; [|exact Hitems].
    intros r. apply rowInvariant_importable.
Qed.

Lemma setClosingStock_invariant E items st :
  Forall importable items ->
  Forall statusInvariant (records st) ->
  Forall statusInvariant
         (records (run (InventoryContext.setClosingStock E items) st)).
Proof.
  intros Hitems Hst. unfold run. rewrite setClosingStock_run.
  destruct items as [|i items]; cbn [snd].
  - apply import_invariant; [assumption | now apply records_db].
  - destruct (upsert_error E (db st) _); cbn [snd]; [assumption|].
    apply import_invariant; [assumption|].
    apply upsert_rows_invariant; [|now apply records_db].
    rewrite map_map. apply Forall_map. eapply Forall_impl; [|exact Hitems].
    intros r Hr. apply rowInvariant_importable, importable_mergeIncoming;
      [|assumption].
    now apply records_parts in Hst as (_ & Hm & _).
Qed.

(** ** Tables built by upserts keep (SKU, location) a key *)

Lemma tableKey_overwrite r x : tableKey (overwrite r x) = tableKey x.
Proof.
  unfold overwrite, tableKey. destruct (same_key r x) eqn:Hk; [|reflexivity].
  unfold same_key in Hk. apply andb_true_iff in Hk as [H1 H2].
  apply String.eqb_eq in H1, H2. cbn. now rewrite H1, H2.
Qed.

Lemma upsert_row_distinct_keys E tbl r :
  NoDup (map tableKey tbl) -> NoDup (map tableKey (upsert_row E tbl r)).
Proof.
  intros Hnd. unfold upsert_row.
  destruct (existsb (same_key r) tbl) eqn:Hex.
  - fold (overwrite r). rewrite map_map.
    rewrite (map_ext _ tableKey); [assumption|]. apply tableKey_overwrite.
  - rewrite map_app. cbn [map]. apply NoDup_app; [assumption| |].
    + constructor; [intros []|constructor].
    + intros k Hk [<-|[]]. apply in_map_iff in Hk as (x & Hkey & Hx).
      assert (Hsame : same_key r x = true).
      { unfold tableKey in Hkey. cbn in Hkey. injection Hkey as H1 H2.
        unfold same_key. now rewrite H1, H2, !String.eqb_refl. }
      assert (existsb (same_key r) tbl = true) by (apply existsb_exists; eauto).
      congruence.
Qed.

Lemma upsert_rows_distinct_keys E rows : forall tbl,
  NoDup (map tableKey tbl) -> NoDup (map tableKey (upsert_rows E tbl rows)).
Proof.
  induction rows as [|r rows IH]; intros tbl Hnd; [assumption|].
  rewrite upsert_rows_cons. now apply IH, upsert_row_distinct_keys.
Qed.

Lemma in_sync_distinct_keys st :
  in_sync st -> NoDup (map tableKey (db st)) ->
  NoDup (map recordKey (auditedItems st)).
Proof.
  intros [_ Ha] Hnd. rewrite Ha, map_map.
  change (fun x => recordKey (dbToInventoryItem x)) with tableKey.
  revert Hnd. generalize (db st) as tbl.
  induction tbl as [|x tbl IH]; intros Hnd; [constructor|].
  cbn [map] in Hnd. apply NoDup_cons_iff in Hnd as [Hfresh Hnd].
  cbn [filter]. destruct (select_filter QAuditedItems x); [|now apply IH].
  cbn [map]. apply NoDup_cons_iff. split; [|now apply IH].
  intros Hin. apply Hfresh. apply in_map_iff in Hin as (y & Hy & Hyin).
  apply filter_In in Hyin as [Hyin _]. apply in_map_iff. now exists y.
Qed.

(** ** Facts about the sample data *)

Lemma sampleEnv_reliable : reliable sampleEnv.
Proof. split; [intros tbl rows | intros tbl q]; reflexivity. Qed.

Lemma catalogState_in_sync : in_sync catalogState.
Proof. split; reflexivity. Qed.

Lemma catalogState_invariant : Forall statusInvariant (records catalogState).
Proof. vm_compute. repeat constructor. Qed.


Lemma auditedState_master :
  itemMaster auditedState
  = [mkInventoryItem "row-0" "A1" (Some "Widget") None "L1" 3
                     (Number 1) (Some discrepancy) (Some "t1") None None;
     gadgetRecord].
Proof. vm_compute. reflexivity. Qed.

Lemma auditedState_keys :
  map recordKey (auditedItems auditedState) = [("A1", "L1")].
Proof. vm_compute. reflexivity. Qed.

(** ** The access test of the scanner *)

(** A caller who is no admin and selects a location other than the record's
    own is denied a record outside the accessible locations. *)
Lemma scan_off_location_is_denied E user acc barcode locationId st m :
  BarcodeScanner.isAdmin user = false ->
  catalogRecord st barcode = Some m ->
  ~ In (location m) (map loc_name acc) ->
  selectedLocationName st locationId <> location m ->
  let scan := BarcodeScanner.handleItemScan E user acc barcode locationId in
  result scan st = Ok false
  /\ (exists title, run scan st = addToast st TError title
                    /\ (locationId <> "" ->
                        selectedLocationName st locationId <> "" ->
                        title = "Access denied"))
  /\ db (run scan st) = db st
  /\ calls (run scan st) = calls st
  /\ records (run scan st) = records st.
Proof.
  intros Hadm Hm Hacc Hsel scan.
  assert (Hdenied : scanAllowed user acc m (selectedLocationName st locationId)
                    = false).
  { unfold scanAllowed. rewrite Hadm.
    destruct (String.eqb_spec (location m) (selectedLocationName st locationId));
      [congruence|].
    destruct (existsb _ acc) eqn:Hex; [|reflexivity].
    apply existsb_loc_name in Hex. contradiction. }
  unfold result, run, scan. rewrite handleItemScan_run, Hm, Hdenied.
  destruct (String.eqb_spec locationId "");
    [|destruct (String.eqb_spec (selectedLocationName st locationId) "")];
    cbn [fst snd]; (split; [reflexivity|]);
    (split; [eexists; split; [reflexivity|tauto || reflexivity]|]);
    repeat split.
Qed.

(** The access test sits on the mismatch branch of [handleItemScan]: called
    with the id of the record's own location, which the [Select] does not
    offer a caller without access to it, the function makes no access
    test. *)
Lemma own_location_is_not_tested :
  let scan :=
    BarcodeScanner.handleItemScan sampleEnv auditorUser [locL1] "B2" "loc-2" in
  ~ selectionOffered [locL1] catalogState "loc-2"
  /\ result scan catalogState = Ok true.
Proof.
  split; [|reflexivity].
  intros [H | (a & [<- | []] & H & _)]; discriminate.
Qed.

(** * The claims of the specification *)




(** C2, counterexample: [updateAuditedItem] applied to an item that leaves
    its physical quantity [undefined] stores physicalQuantity 0 under status
    pending, so the invariant, which held before, fails after. *)
Lemma status_invariant_counterexample :
  Forall statusInvariant (records catalogState)
  /\ physicalQuantity uncountedWidget = Undefined
  /\ ~ Forall statusInvariant
       (records (run (InventoryContext.updateAuditedItem sampleEnv uncountedWidget)
                     catalogState)).
Proof.
  split; [exact catalogState_invariant|]. split; [reflexivity|].
  intros H. vm_compute in H.
  inversion H as [|r rs Hhead _]. destruct Hhead; discriminate.
Qed.

(** C2 (amended). Every write preserves the record-status invariant on all
    reconciled records (stored rows and mirrors) when its input is
    consistent: a scan through [handleItemScan] or [scanItem], a manual entry
    through [addItemToAudit], [updateAuditedItem] applied to an item whose
    physicalQuantity is not [undefined] (a number, or the [null] of a record
    read back from the table), and the imports [setItemMaster] and
    [setClosingStock] applied to rows whose status agrees with their
    physicalQuantity. For an item whose physicalQuantity is [undefined]
    [updateAuditedItem] submits the quantity 0 under status pending. *)
Theorem writes_preserve_status_invariant E st :
  Forall statusInvariant (records st) ->
  (forall item,
      physicalQuantity item <> Undefined ->
      Forall statusInvariant
             (records (run (InventoryContext.updateAuditedItem E item) st)))
  /\ (forall user acc barcode locationId,
         Forall statusInvariant
           (records (run (BarcodeScanner.handleItemScan
                            E user acc barcode locationId) st)))
  /\ (forall barcode locationName,
         Forall statusInvariant
           (records (run (InventoryContext.scanItem E barcode locationName) st)))
  /\ (forall item quantity,
         Forall statusInvariant
           (records (run (InventoryContext.addItemToAudit E item quantity) st)))
  /\ (forall items,
         Forall importable items ->
         Forall statusInvariant
           (records (run (InventoryContext.setItemMaster E items) st)))
  /\ (forall items,
         Forall importable items ->
         Forall statusInvariant
           (records (run (InventoryContext.setClosingStock E items) st)))
  /\ (forall item,
         physicalQuantity item = Undefined ->
         exists r,
           submitted (calls (run (InventoryContext.updateAuditedItem E item) st))
           = submitted (calls st) ++ [r]
           /\ physical_quantity r = Some 0
           /\ db_status r = Some pending).
Proof.
  intros Hst. repeat split.
  - intros item Hp. now apply updateAuditedItem_invariant.
  - intros. now apply handleItemScan_invariant.
  - intros. now apply scanItem_invariant.
  - intros. now apply addItemToAudit_invariant.
  - intros. now apply setItemMaster_invariant.
  - intros. now apply setClosingStock_invariant.
  - intros item Hp. eexists. split; [apply updateAuditedItem_submitted|].
    cbn [inventoryItemToDb physical_quantity db_status].
    rewrite itemToUpdate_status by (rewrite Hp; discriminate).
    cbn [InventoryContext.itemToUpdate physicalQuantity]. rewrite Hp.
    split; reflexivity.
Qed.

Lemma writes_preserve_status_invariant_witness :
  Forall statusInvariant (records catalogState)
  /\ physicalQuantity countedWidget <> Undefined
  /\ physicalQuantity gadgetRecord <> Undefined
  /\ Forall importable [widgetClosing50]
  /\ physicalQuantity uncountedWidget = Undefined
  /\ Forall statusInvariant
       (records (run (InventoryContext.updateAuditedItem sampleEnv countedWidget)
                     catalogState))
  /\ Forall statusInvariant
       (records (run (InventoryContext.updateAuditedItem sampleEnv gadgetRecord)
                     catalogState))
  /\ Forall statusInvariant
       (records (run (InventoryContext.setClosingStock sampleEnv
                                                       [widgetClosing50])
                     catalogState))
  /\ (exists r,
         submitted (calls (run (InventoryContext.updateAuditedItem
                                  sampleEnv uncountedWidget) catalogState))
         = submitted (calls catalogState) ++ [r]
         /\ physical_quantity r = Some 0
         /\ db_status r = Some pending).
Proof.
  assert (Hcounted : physicalQuantity countedWidget <> Undefined) by discriminate.
  assert (Hnull : physicalQuantity gadgetRecord <> Undefined) by discriminate.
  assert (Himport : Forall importable [widgetClosing50]).
  { constructor; [left; reflexivity | constructor]. }
  split; [exact catalogState_invariant|]. split; [exact Hcounted|].
  split; [exact Hnull|]. split; [exact Himport|]. split; [reflexivity|].
  destruct (writes_preserve_status_invariant
              sampleEnv catalogState catalogState_invariant)
    as (Hupdate & _ & _ & _ & _ & Hclosing & Hpending).
  split; [exact (Hupdate countedWidget Hcounted)|].
  split; [exact (Hupdate gadgetRecord Hnull)|].
  split; [exact (Hclosing [widgetClosing50] Himport)|].
  exact (Hpending uncountedWidget eq_refl).
Defined.



(** C4. When the catalog record found for the barcode sits at another
    location than the selected one and persistence accepts the write, an
    admin, and likewise a non-admin whose accessible locations include the
    record's location, is not rejected: the scan returns success, the row is
    submitted and stored under the record's actual location, and the caller
    is shown the warning "Location mismatch" (admin) or "Location corrected"
    (non-admin) followed by the scan outcome. *)
Theorem location_mismatch_policy E user acc barcode locationId st m :
  writes_succeed E ->
  locationId <> "" ->
  selectedLocationName st locationId <> "" ->
  catalogRecord st barcode = Some m ->
  location m <> selectedLocationName st locationId ->
  BarcodeScanner.isAdmin user = true
  \/ (BarcodeScanner.isAdmin user = false /\ In (location m) (map loc_name acc)) ->
  let scan := BarcodeScanner.handleItemScan E user acc barcode locationId in
  result scan st = Ok true
  /\ (exists r,
         submitted (calls (run scan st)) = submitted (calls st) ++ [r]
         /\ db_sku r = sku m
         /\ db_location r = location m
         /\ db (run scan st) = upsert_row E (db st) r
         /\ existsb (same_key r) (db (run scan st)) = true)
  /\ toasts (run scan st)
     = toasts st
       ++ [mkToast TWarning (if BarcodeScanner.isAdmin user
                             then "Location mismatch" else "Location corrected");
           scanOutcome st m].
Proof.
  intros Hw Hid Hnm Hm Hloc Hwho scan.
  assert (Hallowed : scanAllowed user acc m (selectedLocationName st locationId)
                     = true).
  { unfold scanAllowed. destruct Hwho as [-> | [_ Hin]].
    - now rewrite orb_true_r.
    - apply existsb_loc_name in Hin. rewrite Hin. apply orb_true_r. }
  apply String.eqb_neq in Hid, Hnm, Hloc.
  unfold result, run, scan. rewrite handleItemScan_run, Hid, Hnm, Hm, Hallowed.
  cbv zeta. rewrite (Hw (db st) [scanRow E st m]). cbn [fst snd db calls toasts].
  split; [reflexivity|]. split.
  - exists (scanRow E st m). repeat split.
    + apply submitted_snoc_upsert. selects.
    + apply upsert_row_has_key.
  - unfold scanWarnings. rewrite Hloc, <- app_assoc. reflexivity.
Qed.

Lemma location_mismatch_policy_witness :
  writes_succeed sampleEnv
  /\ "loc-1" <> ""
  /\ selectedLocationName catalogState "loc-1" <> ""
  /\ catalogRecord catalogState "B2" = Some gadgetRecord
  /\ location gadgetRecord <> selectedLocationName catalogState "loc-1"
  /\ BarcodeScanner.isAdmin adminUser = true
  /\ BarcodeScanner.isAdmin auditorUser = false
  /\ In (location gadgetRecord) (map loc_name [locL1; locL2])
  /\ result (BarcodeScanner.handleItemScan sampleEnv adminUser [] "B2" "loc-1")
            catalogState = Ok true
  /\ result (BarcodeScanner.handleItemScan sampleEnv auditorUser [locL1; locL2]
                                           "B2" "loc-1")
            catalogState = Ok true.
Proof.
  assert (Hw : writes_succeed sampleEnv) by (intros tbl rows; reflexivity).
  assert (H1 : "loc-1" <> "") by discriminate.
  assert (H2 : selectedLocationName catalogState "loc-1" <> "") by discriminate.
  assert (H3 : location gadgetRecord <> selectedLocationName catalogState "loc-1")
    by discriminate.
  assert (H4 : In (location gadgetRecord) (map loc_name [locL1; locL2]))
    by (right; left; reflexivity).
  split; [exact Hw|]. split; [exact H1|]. split; [exact H2|].
  split; [reflexivity|]. split; [exact H3|]. split; [reflexivity|].
  split; [reflexivity|]. split; [exact H4|].
  split.
  - apply (location_mismatch_policy sampleEnv adminUser [] "B2" "loc-1"
             catalogState gadgetRecord Hw H1 H2 eq_refl H3 (or_introl eq_refl)).
  - apply (location_mismatch_policy sampleEnv auditorUser [locL1; locL2] "B2"
             "loc-1" catalogState gadgetRecord Hw H1 H2 eq_refl H3
             (or_intror (conj eq_refl H4))).
Defined.

(** C5. Access denial is atomic. A caller who is no admin selects what the
    scanner's [Select] offers such a caller: nothing, or one of the caller's
    accessible locations. The scan of a SKU whose catalog record sits at a
    location outside the caller's accessible locations is then rejected, and
    nothing but the error notification changes: table, requests sent, clock
    and mirrors, and with them every reconciled record, are what they
    were. *)
Theorem access_denial_is_atomic E user acc barcode locationId st m :
  BarcodeScanner.isAdmin user = false ->
  catalogRecord st barcode = Some m ->
  ~ In (location m) (map loc_name acc) ->
  selectionOffered acc st locationId ->
  let scan := BarcodeScanner.handleItemScan E user acc barcode locationId in
  result scan st = Ok false
  /\ (exists title, run scan st = addToast st TError title
                    /\ (locationId <> "" ->
                        selectedLocationName st locationId <> "" ->
                        title = "Access denied"))
  /\ db (run scan st) = db st
  /\ calls (run scan st) = calls st
  /\ records (run scan st) = records st.
Proof.
  intros Hadm Hm Hacc Hoffered scan.
  destruct Hoffered as [-> | (a & Hin & Hid & Hname)].
  - unfold result, run, scan. rewrite handleItemScan_run. cbn.
    split; [reflexivity|].
    split; [eexists; split; [reflexivity|congruence]|].
    split; [reflexivity|]. split; reflexivity.
  - apply (scan_off_location_is_denied E user acc barcode locationId st m
             Hadm Hm Hacc).
    rewrite Hname. intros He. apply Hacc. rewrite <- He. now apply in_map.
Qed.

Lemma access_denial_is_atomic_witness :
  let scan :=
    BarcodeScanner.handleItemScan sampleEnv auditorUser [locL1] "B2" "loc-1" in
  BarcodeScanner.isAdmin auditorUser = false
  /\ catalogRecord catalogState "B2" = Some gadgetRecord
  /\ ~ In (location gadgetRecord) (map loc_name [locL1])
  /\ selectionOffered [locL1] catalogState "loc-1"
  /\ result scan catalogState = Ok false
  /\ run scan catalogState = addToast catalogState TError "Access denied"
  /\ db (run scan catalogState) = db catalogState
  /\ calls (run scan catalogState) = calls catalogState
  /\ records (run scan catalogState) = records catalogState.
Proof.
  intros scan.
  assert (H3 : ~ In (location gadgetRecord) (map loc_name [locL1])).
  { intros [H|[]]. discriminate. }
  assert (H4 : selectionOffered [locL1] catalogState "loc-1").
  { right. exists locL1. split; [left; reflexivity|].
    split; reflexivity. }
  split; [reflexivity|]. split; [reflexivity|]. split; [exact H3|].
  split; [exact H4|].
  destruct (access_denial_is_atomic sampleEnv auditorUser [locL1] "B2" "loc-1"
              catalogState gadgetRecord eq_refl eq_refl H3 H4)
    as (Hres & (title & Hrun & Htitle) & Hdb & Hcalls & Hrec).
  assert (Ht : title = "Access denied"%string)
    by (apply Htitle; discriminate).
  rewrite Ht in Hrun.
  split; [exact Hres|]. split; [exact Hrun|].
  split; [exact Hdb|]. split; [exact Hcalls|exact Hrec].
Defined.

(** C6. The closing-stock merge keeps the descriptive fields of an existing
    master record with the same (SKU, location) and overwrites only its
    systemQuantity with the incoming value; an incoming row without such a
    record is taken as it is; and the merged record is what [setClosingStock]
    submits to persistence. *)
Theorem closing_stock_merge_preserves_fields E items st incoming :
  In incoming items ->
  let merged := InventoryContext.mergeIncoming (itemMaster st) incoming in
  In (inventoryItemToDb merged)
     (submitted (calls (run (InventoryContext.setClosingStock E items) st)))
  /\ match masterRecord st incoming with
     | Some existing =>
         merged = overwriteSystemQuantity (systemQuantity incoming) existing
         /\ name merged = name existing
         /\ category merged = category existing
         /\ systemQuantity merged = systemQuantity incoming
     | None => merged = incoming
     end.
Proof.
  intros Hin merged. split.
  - rewrite setClosingStock_submitted. apply in_or_app. right.
    now apply in_map, in_map.
  - unfold merged, InventoryContext.mergeIncoming, masterRecord.
    destruct (find _ (itemMaster st)); cbn; auto.
Qed.

Lemma closing_stock_merge_preserves_fields_witness :
  In widgetClosing50 [widgetClosing50]
  /\ name (InventoryContext.mergeIncoming (itemMaster catalogState)
                                          widgetClosing50) = Some "Widget"
  /\ systemQuantity (InventoryContext.mergeIncoming (itemMaster catalogState)
                                                    widgetClosing50) = 50.
Proof.
  split; [left; reflexivity|].
  destruct (closing_stock_merge_preserves_fields
              sampleEnv [widgetClosing50] catalogState widgetClosing50
              (or_introl eq_refl)) as [_ H].
  cbn in H. destruct H as (_ & Hname & _ & Hq).
  split; [exact Hname | exact Hq].
Defined.

(** C7. Whatever the CSV helpers return, every row the item-master path of
    [handleImport] submits to persistence has system quantity 0: the rows are
    exactly the processed catalog rows with the quantity zeroed, and with no
    closing-stock file selected they are all that [handleImport] submits. *)
Theorem item_master_import_forces_zero_quantity
        E (CsvRow : Type) (processCSV : string -> list CsvRow)
        (processItemMasterData : list CsvRow -> list InventoryItem)
        (processClosingStockData :
           list CsvRow -> option string -> list Location -> list InventoryItem)
        (userRole : Role) (canUploadItemMaster canUploadClosingStock : bool)
        (itemMasterFile : option string) (selectedLocation : string) (st : St) :
  let importMaster :=
    FileUploader.importItemMaster E CsvRow processCSV processItemMasterData
                                  canUploadItemMaster itemMasterFile in
  let importAll :=
    FileUploader.handleImport E CsvRow processCSV processItemMasterData
      processClosingStockData userRole canUploadItemMaster
      canUploadClosingStock itemMasterFile None selectedLocation in
  let catalogRows :=
    match itemMasterFile with
    | Some text =>
        if canUploadItemMaster
        then match processCSV text with
             | [] => []
             | items =>
                 map (fun item => inventoryItemToDb
                                    (FileUploader.zeroSystemQuantity item))
                     (processItemMasterData items)
             end
        else []
    | None => []
    end in
  submitted (calls (run importMaster st)) = submitted (calls st) ++ catalogRows
  /\ submitted (calls (run importAll st)) = submitted (calls st) ++ catalogRows
  /\ Forall (fun r => system_quantity r = 0) catalogRows.
Proof.
  intros importMaster importAll catalogRows.
  assert (Hmaster : submitted (calls (run importMaster st))
                    = submitted (calls st) ++ catalogRows).
  { unfold importMaster, catalogRows, FileUploader.importItemMaster, run.
    destruct itemMasterFile as [text|]; [|cbn; now rewrite app_nil_r].
    destruct canUploadItemMaster; [|cbn; now rewrite app_nil_r].
    rewrite length_zero_eqb.
    destruct (processCSV text) as [|c items] eqn:Hcsv;
      [cbn; now rewrite app_nil_r|].
    cbn [is_nil]. rewrite length_zero_eqb.
    destruct (processItemMasterData (c :: items)) as [|i base] eqn:Hbase;
      [cbn; now rewrite app_nil_r|].
    cbn [map is_nil].
    unfold bind at 1.
    pose proof (setItemMaster_submitted E
                  (FileUploader.zeroSystemQuantity i
                     :: map FileUploader.zeroSystemQuantity base) st) as Hs.
    unfold run in Hs.
    destruct (InventoryContext.setItemMaster E _ st) as [[[]|e] st1];
      cbn [snd] in *; cbn [map] in Hs; rewrite map_map in Hs; exact Hs. }
  split; [exact Hmaster|]. split.
  - rewrite <- Hmaster. unfold importAll, FileUploader.handleImport, run.
    unfold bind at 1. unfold get_st at 1. cbn iota beta.
    cbn [is_some]. rewrite andb_false_r. cbn [andb].
    unfold try_catch, bind. fold importMaster. unfold run.
    destruct (importMaster st) as [[[]|e] st1]; reflexivity.
  - unfold catalogRows. destruct itemMasterFile; [|constructor].
    destruct canUploadItemMaster; [|constructor].
    destruct (processCSV s); [constructor|].
    apply Forall_forall. intros r Hr. apply in_map_iff in Hr as (i & <- & _).
    reflexivity.
Qed.

(** C8. With a reliable collaborator, applying the same closing-stock import
    a second time, against the state the first application produced, changes
    no reconciled record: the table (hence its rows, their number and every
    column), the three mirrors and the whole record set are those of the
    single application, and the second application returns normally. *)
Theorem closing_stock_import_is_idempotent E items st :
  reliable E ->
  let once := run (InventoryContext.setClosingStock E items) st in
  let twice := run (InventoryContext.setClosingStock E items) once in
  result (InventoryContext.setClosingStock E items) once = Ok tt
  /\ db twice = db once
  /\ itemMaster twice = itemMaster once
  /\ closingStock twice = closingStock once
  /\ auditedItems twice = auditedItems once
  /\ records twice = records once.
Proof.
  intros Hrel once twice.
  destruct (setClosingStock_reliable E items st Hrel) as (cs1 & H1).
  cbv zeta in H1.
  assert (Honce : once = snd (InventoryContext.setClosingStock E items st))
    by reflexivity.
  rewrite H1 in Honce. cbn [snd] in Honce.
  destruct (setClosingStock_reliable E items once Hrel) as (cs2 & H2).
  cbv zeta in H2.
  assert (Htbl : upsert_rows E (db once)
                   (map (closingStockRow (itemMaster once)) items) = db once).
  { rewrite Honce. cbn [db itemMaster].
    apply upsert_rows_closing_stock_again. }
  rewrite Htbl in H2.
  unfold twice, result, run. rewrite H2. cbn [fst snd db itemMaster closingStock
    auditedItems].
  assert (Hm : itemMaster once = map dbToInventoryItem (db once))
    by (rewrite Honce; reflexivity).
  assert (Hc : closingStock once
               = map dbToInventoryItem
                     (filter (select_filter QClosingStock) (db once)))
    by (rewrite Honce; reflexivity).
  unfold records. cbn [db itemMaster closingStock auditedItems].
  rewrite <- Hm, <- Hc. repeat split.
Qed.

Lemma closing_stock_import_is_idempotent_witness :
  reliable sampleEnv
  /\ let once :=
       run (InventoryContext.setClosingStock sampleEnv [widgetClosing50])
           catalogState in
     let twice :=
       run (InventoryContext.setClosingStock sampleEnv [widgetClosing50]) once in
     db twice = db once /\ records twice = records once.
Proof.
  split; [exact sampleEnv_reliable|]. intros once twice.
  destruct (closing_stock_import_is_idempotent
              sampleEnv [widgetClosing50] catalogState sampleEnv_reliable)
    as (_ & Hdb & _ & _ & _ & Hrec).
  split; assumption.
Defined.

(** C9. For location names without repetition that cover the locations of
    the master records, the global summary's totalItems is the sum of the
    per-location summaries' totalItems; and, the audited records being keyed
    by (SKU, location), the per-location summary is the global summary
    computed on the records whose location is the given name. *)
Theorem summary_partition_consistency st :
  (forall locs,
      NoDup locs ->
      (forall item, In item (itemMaster st) -> In (location item) locs) ->
      totalItems (InventoryContext.getInventorySummary st)
      = sumOver locs
          (fun l => totalItems (InventoryContext.getLocationSummary st l)))
  /\ (forall locationName,
         NoDup (map recordKey (auditedItems st)) ->
         InventoryContext.getLocationSummary st locationName
         = InventoryContext.getInventorySummary (atLocation locationName st)).
Proof.
  split.
  - intros locs Hnd Hcover. cbn [InventoryContext.getInventorySummary
      InventoryContext.getLocationSummary totalItems].
    now apply length_partition.
  - intros locationName Hkeys.
    unfold InventoryContext.getLocationSummary,
      InventoryContext.getInventorySummary, atLocation.
    cbn [itemMaster auditedItems].
    rewrite (nodup_fixed_point string_dec)
      by now apply distinct_keys_at_location.
    now rewrite length_map.
Qed.

Lemma summary_partition_consistency_witness :
  NoDup ["L1"; "L2"]
  /\ (forall item, In item (itemMaster auditedState) ->
                   In (location item) ["L1"; "L2"])
  /\ NoDup (map recordKey (auditedItems auditedState))
  /\ totalItems (InventoryContext.getInventorySummary auditedState)
     = sumOver ["L1"; "L2"]
         (fun l => totalItems (InventoryContext.getLocationSummary auditedState l))
  /\ InventoryContext.getLocationSummary auditedState "L1"
     = InventoryContext.getInventorySummary (atLocation "L1" auditedState).
Proof.
  assert (Hnd : NoDup ["L1"; "L2"]).
  { constructor; [intros [H|[]]; discriminate|].
    constructor; [intros []|constructor]. }
  assert (Hcover : forall item, In item (itemMaster auditedState) ->
                                In (location item) ["L1"; "L2"]).
  { intros item Hin. rewrite auditedState_master in Hin.
    destruct Hin as [<-|[<-|[]]]; [left | right; left]; reflexivity. }
  assert (Hkeys : NoDup (map recordKey (auditedItems auditedState))).
  { rewrite auditedState_keys. constructor; [intros []|constructor]. }
  split; [exact Hnd|]. split; [exact Hcover|]. split; [exact Hkeys|].
  split.
  - apply (proj1 (summary_partition_consistency auditedState) _ Hnd Hcover).
  - apply (proj2 (summary_partition_consistency auditedState) "L1" Hkeys).
Defined.

(** C10. A negative manual quantity is ignored: [addItemToAudit] returns
    normally and the whole state (table, requests sent, clock, mirrors,
    notifications) is what it was. *)
Theorem addItemToAudit_negative_is_ignored E item quantity st :
  quantity < 0 ->
  InventoryContext.addItemToAudit E item quantity st = (Ok tt, st).
Proof.
  intros Hq. unfold InventoryContext.addItemToAudit.
  apply Z.ltb_lt in Hq. now rewrite Hq.
Qed.

Lemma addItemToAudit_negative_is_ignored_witness :
  -1 < 0
  /\ InventoryContext.addItemToAudit sampleEnv widgetRecord (-1) catalogState
     = (Ok tt, catalogState).
Proof.
  split; [lia|].
  apply (addItemToAudit_negative_is_ignored sampleEnv widgetRecord (-1)
           catalogState).
  lia.
Defined.

(** * Further properties of the program *)

(** ** The row mapping of the data service *)

(** X1. The two row mappings of the data service are inverse to each other
    up to what the table does not hold: a stored row with a status is mapped
    to a record and back to the same columns; a stored row without a status
    comes back with status pending; a record written and read back keeps
    every field except [category], which is never stored, takes the row's
    [id], has its absent status replaced by pending, and holds its physical
    quantity as the column gives it back: the same number, or [null] where
    it was [null] or [undefined]. *)
Theorem row_mapping_round_trip :
  (forall x s,
      db_status (db_cols x) = Some s ->
      inventoryItemToDb (dbToInventoryItem x) = db_cols x)
  /\ (forall x,
         db_status (db_cols x) = None ->
         db_status (inventoryItemToDb (dbToInventoryItem x)) = Some pending)
  /\ (forall i item,
         dbToInventoryItem (mkDbRow i (inventoryItemToDb item))
         = mkInventoryItem i (sku item) (name item) None (location item)
                           (systemQuantity item)
                           (of_column (number_of (physicalQuantity item)))
                           (Some (or_pending (status item)))
                           (lastAudited item) (notes item) (companyId item)).
Proof.
  split; [|split].
  - intros [i [a b c d e f g h k]] s Hs. cbn in Hs. subst f.
    unfold inventoryItemToDb, dbToInventoryItem. cbn -[or_zero].
    now rewrite or_zero_Some, number_of_of_column.
  - intros [i [a b c d e f g h k]] Hs. cbn in Hs. subst f. reflexivity.
  - intros i item. unfold inventoryItemToDb, dbToInventoryItem.
    cbn -[or_zero]. now rewrite or_zero_Some.
Qed.

Lemma row_mapping_round_trip_witness :
  inventoryItemToDb (dbToInventoryItem storedWidget) = db_cols storedWidget
  /\ db_status (inventoryItemToDb (dbToInventoryItem storedWithoutStatus))
     = Some pending.
Proof.
  split.
  - exact (proj1 row_mapping_round_trip storedWidget pending eq_refl).
  - exact (proj1 (proj2 row_mapping_round_trip) storedWithoutStatus eq_refl).
Defined.

(** ** Writes of the provider and of the scanner *)

(** X2. The two outcomes of [handleItemScan]: it never throws; it returns
    [false] with the table and the record set unchanged and an error
    notification shown, or it returns [true] after storing exactly one row,
    the scanned record's row with its count raised by one. *)
Theorem scan_outcome E user acc barcode locationId st :
  let scan := BarcodeScanner.handleItemScan E user acc barcode locationId in
  (result scan st = Ok false
   /\ db (run scan st) = db st
   /\ records (run scan st) = records st
   /\ exists title, In (mkToast TError title) (toasts (run scan st)))
  \/ (result scan st = Ok true
      /\ exists m,
          catalogRecord st barcode = Some m
          /\ db (run scan st) = upsert_row E (db st) (scanRow E st m)
          /\ submitted (calls (run scan st))
             = submitted (calls st) ++ [scanRow E st m]).
Proof.
  intros scan. unfold scan, result, run. rewrite handleItemScan_run.
  destruct (String.eqb locationId "");
    [left; cbn; repeat split; eexists; apply in_or_app; right; left; reflexivity|].
  destruct (String.eqb (selectedLocationName st locationId) "");
    [left; cbn; repeat split; eexists; apply in_or_app; right; left; reflexivity|].
  destruct (catalogRecord st barcode) as [m|];
    [|left; cbn; repeat split; eexists; apply in_or_app; right; left; reflexivity].
  destruct (scanAllowed user acc m _);
    [|left; cbn; repeat split; eexists; apply in_or_app; right; left; reflexivity].
  cbv zeta. destruct (upsert_error E (db st) _).
  - left. cbn [fst snd db toasts]. repeat split.
    eexists. apply in_or_app. right. left. reflexivity.
  - right. cbn [fst snd db calls]. split; [reflexivity|].
    exists m. repeat split. apply submitted_snoc_upsert. selects.
Qed.






(** X4. A write the database rejects changes no record: when the upsert of
    [updateAuditedItem] is answered with an error, the operation throws that
    error and the table, the three mirrors of the provider and the
    notifications are what they were. *)
Theorem rejected_write_changes_no_record E item st e :
  upsert_error E (db st)
    [inventoryItemToDb
       (InventoryContext.itemToUpdate (clock E (clock_reads st)) item)]
  = Some e ->
  let st' := run (InventoryContext.updateAuditedItem E item) st in
  result (InventoryContext.updateAuditedItem E item) st = Throw e
  /\ db st' = db st
  /\ itemMaster st' = itemMaster st
  /\ closingStock st' = closingStock st
  /\ auditedItems st' = auditedItems st
  /\ toasts st' = toasts st.
Proof.
  intros He st'. unfold st', result, run.
  rewrite updateAuditedItem_run, He. cbn. repeat split.
Qed.

Lemma rejected_write_changes_no_record_witness :
  result (InventoryContext.updateAuditedItem rejectingEnv countedWidget)
         catalogState
  = Throw "permission denied"
  /\ db (run (InventoryContext.updateAuditedItem rejectingEnv countedWidget)
             catalogState)
     = db catalogState.
Proof.
  destruct (rejected_write_changes_no_record rejectingEnv countedWidget
              catalogState "permission denied" eq_refl) as (H1 & H2 & _).
  split; [exact H1 | exact H2].
Defined.

(** X5. [scanItem] requires the item at the named location: when no master
    record has the scanned code as its [id] or [sku] at that location, the
    call throws the "not found at location" error and changes nothing, not
    even when the code exists at another location. *)
Theorem scanItem_requires_the_location E barcode locationName st :
  (forall i, In i (itemMaster st) ->
             (id i = barcode \/ sku i = barcode) -> location i <> locationName) ->
  InventoryContext.scanItem E barcode locationName st
  = (Throw ("Item with barcode " ++ barcode ++ " not found at location "
            ++ locationName)%string,
     st).
Proof.
  intros Hnone. unfold InventoryContext.scanItem, bind, get_st.
  destruct (find _ (itemMaster st)) as [i|] eqn:Hfind; [|reflexivity].
  exfalso. apply find_some in Hfind as [Hin Hp].
  apply andb_true_iff in Hp as [Hcode Hloc].
  apply String.eqb_eq in Hloc. apply (Hnone i Hin); [|assumption].
  apply orb_true_iff in Hcode as [H|H]; apply String.eqb_eq in H; auto.
Qed.

Lemma scanItem_requires_the_location_witness :
  InventoryContext.scanItem sampleEnv "A1" "L2" catalogState
  = (Throw "Item with barcode A1 not found at location L2", catalogState).
Proof.
  apply (scanItem_requires_the_location sampleEnv "A1" "L2" catalogState).
  intros i Hin Hcode. vm_compute in Hin.
  destruct Hin as [<- | [<- | []]].
  - discriminate.
  - destruct Hcode as [Hc | Hc]; discriminate Hc.
Defined.

(** ** The summaries of the provider *)

Lemma countStatuses_counts master audited :
  InventoryContext.countStatuses master audited
  = (Z.of_nat (List.length (filter (auditedAs matched audited) master)),
     Z.of_nat (List.length (filter (auditedAs discrepancy audited) master))).
Proof.
  unfold InventoryContext.countStatuses.
  assert (H : forall acc,
             fold_left
               (fun (acc : Z * Z) masterItem =>
                  match find (fun a => InventoryContext.same_sku_location a masterItem)
                             audited with
                  | Some a =>
                      match status a with
                      | Some matched => (fst acc + 1, snd acc)
                      | Some discrepancy => (fst acc, snd acc + 1)
                      | _ => acc
                      end
                  | None => acc
                  end) master acc
             = (fst acc + Z.of_nat (List.length
                                      (filter (auditedAs matched audited) master)),
                snd acc + Z.of_nat (List.length
                                      (filter (auditedAs discrepancy audited) master)))).
  { induction master as [|m master IH]; intros [a b].
    - cbn. f_equal; lia.
    - cbn [fold_left filter]. rewrite IH.
      assert (Hm : auditedAs matched audited m
                   = match find (fun a => InventoryContext.same_sku_location a m)
                                audited with
                     | Some x => match status x with
                                 | Some matched => true | _ => false end
                     | None => false
                     end).
      { unfold auditedAs. destruct (find _ audited) as [x|]; [|reflexivity].
        now destruct (status x) as [[]|]. }
      assert (Hd : auditedAs discrepancy audited m
                   = match find (fun a => InventoryContext.same_sku_location a m)
                                audited with
                     | Some x => match status x with
                                 | Some discrepancy => true | _ => false end
                     | None => false
                     end).
      { unfold auditedAs. destruct (find _ audited) as [x|]; [|reflexivity].
        now destruct (status x) as [[]|]. }
      rewrite Hm, Hd.
      destruct (find _ audited) as [x|]; [destruct (status x) as [[]|]|];
        cbn [fst snd List.length]; f_equal; lia. }
  rewrite H. reflexivity.
Qed.

Lemma filter_length_le {A : Type} (p : A -> bool) (l : list A) :
  (List.length (filter p l) <= List.length l)%nat.
Proof. induction l as [|a l IH]; cbn; [lia|]. destruct (p a); cbn; lia. Qed.

Lemma filter_two_le {A : Type} (p q : A -> bool) (l : list A) :
  (forall x, p x = true -> q x = false) ->
  (List.length (filter p l) + List.length (filter q l) <= List.length l)%nat.
Proof.
  intros Hpq. induction l as [|a l IH]; cbn; [lia|].
  destruct (p a) eqn:Hp; [rewrite (Hpq a Hp)|destruct (q a)]; cbn; lia.
Qed.

Lemma auditedAs_exclusive audited m :
  auditedAs matched audited m = true -> auditedAs discrepancy audited m = false.
Proof.
  unfold auditedAs. destruct (find _ audited) as [a|]; [|discriminate].
  destruct (status a) as [[]|]; cbn; congruence.
Qed.

Lemma nodup_length_le (l : list string) :
  (List.length (nodup string_dec l) <= List.length l)%nat.
Proof.
  induction l as [|a l IH]; cbn; [lia|].
  destruct (in_dec string_dec a l); cbn; lia.
Qed.

Lemma filter_map_filter_le {A B : Type} (p : B -> bool) (q : A -> bool)
      (f : A -> B) (l : list A) :
  (List.length (filter p (map f (filter q l)))
   <= List.length (filter p (map f l)))%nat.
Proof.
  induction l as [|a l IH]; cbn; [lia|].
  destruct (q a); cbn; destruct (p (f a)); cbn; lia.
Qed.

(** X6. Bounds of the summaries, global and per location: the numbers of
    matched items and of discrepancies are not negative and together do not
    exceed the number of items; a location never has more items than the
    whole; and when the mirrors are what the table holds, the number of
    audited items does not exceed the number of items, so that the number of
    pending items is not negative. *)
Theorem summary_bounds st locationName :
  let g := InventoryContext.getInventorySummary st in
  let s := InventoryContext.getLocationSummary st locationName in
  (0 <= matchedCount g /\ 0 <= discrepancies g
   /\ matchedCount g + discrepancies g <= totalItems g)
  /\ (0 <= matchedCount s /\ 0 <= discrepancies s
      /\ matchedCount s + discrepancies s <= totalItems s)
  /\ totalItems s <= totalItems g
  /\ (in_sync st ->
      0 <= pendingItems g /\ auditedItemsCount g <= totalItems g
      /\ 0 <= pendingItems s /\ auditedItemsCount s <= totalItems s).
Proof.
  intros g s. unfold g, s, InventoryContext.getInventorySummary,
    InventoryContext.getLocationSummary.
  cbn [matchedCount discrepancies totalItems pendingItems auditedItemsCount].
  rewrite !countStatuses_counts. cbn [fst snd].
  split; [|split; [|split]].
  - pose proof (filter_two_le _ _ (itemMaster st)
                  (auditedAs_exclusive (auditedItems st))). lia.
  - match goal with
    | |- context [filter (auditedAs matched ?a) ?m] =>
        pose proof (filter_two_le _ _ m (auditedAs_exclusive a))
    end. lia.
  - pose proof (filter_length_le
                  (fun item => String.eqb (location item) locationName)
                  (itemMaster st)). lia.
  - intros [Hm Ha]. rewrite Hm, Ha.
    pose proof (nodup_length_le
                  (map InventoryContext.auditedItemKey
                       (map dbToInventoryItem
                            (filter (select_filter QAuditedItems) (db st))))).
    rewrite !length_map in H.
    pose proof (filter_length_le (select_filter QAuditedItems) (db st)).
    pose proof (filter_map_filter_le
                  (fun item => String.eqb (location item) locationName)
                  (select_filter QAuditedItems) dbToInventoryItem (db st)).
    rewrite !length_map. lia.
Qed.

Lemma summary_bounds_witness :
  0 <= pendingItems (InventoryContext.getInventorySummary catalogState)
  /\ auditedItemsCount (InventoryContext.getInventorySummary catalogState)
     <= totalItems (InventoryContext.getInventorySummary catalogState).
Proof.
  destruct (summary_bounds catalogState "L1") as (_ & _ & _ & H).
  destruct (H catalogState_in_sync) as (H1 & H2 & _).
  split; [exact H1 | exact H2].
Defined.

Lemma find_filter_implied {A : Type} (p q : A -> bool) (l : list A) :
  (forall x, p x = true -> q x = true) ->
  find p (filter q l) = find p l.
Proof.
  intros Hpq. induction l as [|a l IH]; cbn; [reflexivity|].
  destruct (q a) eqn:Hq; cbn.
  - destruct (p a); [reflexivity | exact IH].
  - destruct (p a) eqn:Hp; [|exact IH].
    apply Hpq in Hp. congruence.
Qed.

Lemma filter_swap {A : Type} (p q : A -> bool) (l : list A) :
  filter p (filter q l) = filter q (filter p l).
Proof.
  induction l as [|a l IH]; cbn; [reflexivity|].
  destruct (p a) eqn:Hp, (q a) eqn:Hq; cbn; rewrite ?Hp, ?Hq, IH; reflexivity.
Qed.

Lemma auditedAs_at_location s audited locationName m :
  location m = locationName ->
  auditedAs s (filter (fun item => String.eqb (location item) locationName)
                      audited) m
  = auditedAs s audited m.
Proof.
  intros Hloc. unfold auditedAs. rewrite find_filter_implied; [reflexivity|].
  intros x Hx. unfold InventoryContext.same_sku_location in Hx.
  apply andb_true_iff in Hx as [_ Hx]. apply String.eqb_eq in Hx.
  apply String.eqb_eq. congruence.
Qed.

Lemma auditedAs_partition s master audited locs :
  NoDup locs ->
  (forall item, In item master -> In (location item) locs) ->
  Z.of_nat (List.length (filter (auditedAs s audited) master))
  = sumOver locs
      (fun l =>
         Z.of_nat
           (List.length
              (filter (auditedAs s (filter (fun item => String.eqb (location item) l)
                                           audited))
                      (filter (fun item => String.eqb (location item) l) master)))).
Proof.
  intros Hnd Hcover.
  rewrite (length_partition (filter (auditedAs s audited) master) locs Hnd).
  - apply sumOver_ext. intros l. rewrite filter_swap. do 2 f_equal.
    apply filter_ext_in. intros m Hm. apply filter_In in Hm as [_ Hm].
    apply String.eqb_eq in Hm. symmetry. now apply auditedAs_at_location.
  - intros item Hin. apply filter_In in Hin as [Hin _]. now apply Hcover.
Qed.

(** X7. The status counters partition by location like the totals: over
    distinct location names that cover the master records, the global
    numbers of matched items and of discrepancies are the sums of the
    per-location ones. *)
Theorem status_counts_partition st locs :
  NoDup locs ->
  (forall item, In item (itemMaster st) -> In (location item) locs) ->
  matchedCount (InventoryContext.getInventorySummary st)
  = sumOver locs
      (fun l => matchedCount (InventoryContext.getLocationSummary st l))
  /\ discrepancies (InventoryContext.getInventorySummary st)
     = sumOver locs
         (fun l => discrepancies (InventoryContext.getLocationSummary st l)).
Proof.
  intros Hnd Hcover.
  unfold InventoryContext.getInventorySummary, InventoryContext.getLocationSummary.
  cbn [matchedCount discrepancies]. rewrite countStatuses_counts. cbn [fst snd].
  split.
  - rewrite (auditedAs_partition matched _ _ locs Hnd Hcover).
    apply sumOver_ext. intros l. now rewrite countStatuses_counts.
  - rewrite (auditedAs_partition discrepancy _ _ locs Hnd Hcover).
    apply sumOver_ext. intros l. now rewrite countStatuses_counts.
Qed.

Lemma status_counts_partition_witness :
  matchedCount (InventoryContext.getInventorySummary auditedState)
  = sumOver ["L1"; "L2"]%string
      (fun l => matchedCount (InventoryContext.getLocationSummary auditedState l)).
Proof.
  apply (status_counts_partition auditedState ["L1"; "L2"]%string).
  - repeat constructor; cbn; intuition discriminate.
  - intros item. rewrite auditedState_master.
    intros [<- | [<- | []]]; cbn; auto.
Defined.

Lemma append_assoc (a b c : string) :
  ((a ++ b) ++ c)%string = (a ++ (b ++ c))%string.
Proof. induction a as [|x a IH]; cbn; [reflexivity | now rewrite IH]. Qed.

Lemma append_length (a b : string) :
  String.length (a ++ b)%string = (String.length a + String.length b)%nat.
Proof. induction a as [|x a IH]; cbn; [reflexivity | now rewrite IH]. Qed.

(** X8. The global summary counts audited records by the key string
    [sku-location], which does not separate the two fields: two audited
    records with different (SKU, location) pairs, one with SKU [s-t] at [l]
    and one with SKU [s] at [t-l], count as one audited item globally, while
    the per-location summaries count them as two. *)
Theorem audited_key_strings_collide st r1 r2 s t l :
  sku r1 = (s ++ "-" ++ t)%string -> location r1 = l ->
  sku r2 = s -> location r2 = (t ++ "-" ++ l)%string ->
  auditedItems st = [r1; r2] ->
  recordKey r1 <> recordKey r2
  /\ auditedItemsCount (InventoryContext.getInventorySummary st) = 1
  /\ auditedItemsCount (InventoryContext.getLocationSummary st (location r1))
     + auditedItemsCount (InventoryContext.getLocationSummary st (location r2))
     = 2.
Proof.
  intros Hs1 Hl1 Hs2 Hl2 Ha.
  assert (Hne : location r1 <> location r2).
  { rewrite Hl1, Hl2. intros H. apply (f_equal String.length) in H.
    rewrite !append_length in H. cbn in H. lia. }
  split; [|split].
  - unfold recordKey. intros H. injection H as _ H. contradiction.
  - unfold InventoryContext.getInventorySummary. cbn [auditedItemsCount].
    rewrite Ha. cbn [map nodup].
    assert (Hk : InventoryContext.auditedItemKey r1
                 = InventoryContext.auditedItemKey r2).
    { unfold InventoryContext.auditedItemKey.
      rewrite Hs1, Hl1, Hs2, Hl2. now rewrite !append_assoc. }
    rewrite Hk.
    destruct (in_dec string_dec _ _) as [_|Hn]; [reflexivity|].
    exfalso. apply Hn. now left.
  - unfold InventoryContext.getLocationSummary. cbn [auditedItemsCount].
    rewrite Ha. cbn [filter]. rewrite !String.eqb_refl.
    destruct (String.eqb_spec (location r2) (location r1)); [congruence|].
    destruct (String.eqb_spec (location r1) (location r2)); [congruence|].
    reflexivity.
Qed.

Lemma audited_key_strings_collide_witness :
  recordKey dashedSku <> recordKey dashedLocation
  /\ auditedItemsCount (InventoryContext.getInventorySummary dashedState) = 1
  /\ auditedItemsCount (InventoryContext.getLocationSummary dashedState "L1")
     + auditedItemsCount (InventoryContext.getLocationSummary dashedState "1-L1")
     = 2.
Proof.
  exact (audited_key_strings_collide dashedState dashedSku dashedLocation
           "A" "1" "L1" eq_refl eq_refl eq_refl eq_refl eq_refl).
Defined.

(** ** The import handler of the FileUploader *)

Section ImportHandler.
Variable E : Env.
Variable CsvRow : Type.
Variable processCSV : string -> list CsvRow.
Variable processItemMasterData : list CsvRow -> list InventoryItem.
Variable processClosingStockData :
  list CsvRow -> option string -> list Location -> list InventoryItem.
Variable userRole : Role.
Variable canUploadItemMaster canUploadClosingStock : bool.
Variable itemMasterFile closingStockFile : option string.
Variable selectedLocation : string.









(** X10. An auditor who imports a closing-stock file without a selected
    location (none, or ["default"]) gets the "Please select a location"
    error and nothing else happens: no file is read and no request is sent,
    not even for an item-master file chosen in the same import. *)
Theorem handleImport_requires_location st :
  locationMissing userRole canUploadClosingStock closingStockFile
                  selectedLocation = true ->
  (FileUploader.handleImport E CsvRow processCSV processItemMasterData
     processClosingStockData userRole canUploadItemMaster canUploadClosingStock
     itemMasterFile closingStockFile selectedLocation) st = (Ok tt, addToast st TError "Please select a location").
Proof.
  intros H. unfold FileUploader.handleImport.
  unfold locationMissing in H. now rewrite H.
Qed.

(** X11. An item-master file without rows stops the whole import: the
    handler shows "Invalid file format or empty file" and returns without
    reading the closing-stock file. *)
Theorem handleImport_stops_on_empty_catalog st text :
  locationMissing userRole canUploadClosingStock closingStockFile
                  selectedLocation = false ->
  canUploadItemMaster = true ->
  itemMasterFile = Some text ->
  processCSV text = [] ->
  (FileUploader.handleImport E CsvRow processCSV processItemMasterData
     processClosingStockData userRole canUploadItemMaster canUploadClosingStock
     itemMasterFile closingStockFile selectedLocation) st
  = (Ok tt, addToast st TError "Invalid file format or empty file").
Proof.
  intros Hg Hc Hf Hcsv. unfold FileUploader.handleImport.
  unfold locationMissing in Hg. rewrite Hg.
  unfold try_catch, bind, FileUploader.importItemMaster.
  rewrite Hf, Hc, Hcsv. reflexivity.
Qed.

(** X12. The import button and the handler agree where the button is
    disabled, and only there: with no usable file the button is disabled
    and the handler would do nothing; when only a closing-stock import is
    possible and its location is missing, the button is disabled; but with
    a usable item-master file the button is enabled whatever the
    location. *)
Theorem import_button_and_handler_agree st :
  (canUploadItemMaster && is_some itemMasterFile = false ->
   canUploadClosingStock && is_some closingStockFile = false ->
   isImportButtonDisabled false userRole canUploadItemMaster
     canUploadClosingStock itemMasterFile closingStockFile selectedLocation
   = true
   /\ (FileUploader.handleImport E CsvRow processCSV processItemMasterData
     processClosingStockData userRole canUploadItemMaster canUploadClosingStock
     itemMasterFile closingStockFile selectedLocation) st = (Ok tt, st))
  /\ (canUploadItemMaster = false ->
      locationMissing userRole canUploadClosingStock closingStockFile
                      selectedLocation = true ->
      isImportButtonDisabled false userRole canUploadItemMaster
        canUploadClosingStock itemMasterFile closingStockFile selectedLocation
      = true)
  /\ (canUploadItemMaster = true ->
      is_some itemMasterFile = true ->
      isImportButtonDisabled false userRole canUploadItemMaster
        canUploadClosingStock itemMasterFile closingStockFile selectedLocation
      = false).
Proof.
  split; [|split].
  - intros Him Hcs. split.
    + unfold isImportButtonDisabled. now rewrite Him, Hcs.
    + unfold FileUploader.handleImport.
      replace (Role_eqb userRole auditor && canUploadClosingStock
               && is_some closingStockFile) with false
        by (rewrite <- andb_assoc, Hcs; now rewrite andb_false_r).
      cbn [andb]. unfold try_catch, bind, FileUploader.importItemMaster,
        FileUploader.importClosingStock.
      destruct itemMasterFile, canUploadItemMaster, closingStockFile,
        canUploadClosingStock; try discriminate; reflexivity.
  - intros Hc Hg. unfold isImportButtonDisabled, locationMissing in *. subst.
    destruct (Role_eqb userRole auditor), canUploadClosingStock,
      closingStockFile; try discriminate.
    cbn in *. now rewrite Hg.
  - intros Hc Hf. unfold isImportButtonDisabled. rewrite Hc, Hf. cbn.
    now destruct canUploadClosingStock, (is_some closingStockFile).
Qed.
End ImportHandler.


Lemma handleImport_requires_location_witness :
  FileUploader.handleImport sampleEnv string (fun _ => []) (fun _ => [])
    (fun _ _ _ => []) auditor true true (Some "sku,name") (Some "sku,quantity")
    "default" catalogState
  = (Ok tt, addToast catalogState TError "Please select a location").
Proof.
  apply (handleImport_requires_location sampleEnv string (fun _ => [])
           (fun _ => []) (fun _ _ _ => []) auditor true true (Some "sku,name")
           (Some "sku,quantity") "default" catalogState).
  reflexivity.
Defined.

Lemma handleImport_stops_on_empty_catalog_witness :
  FileUploader.handleImport sampleEnv string (fun _ => []) (fun _ => [])
    (fun _ _ _ => [widget]) admin true true (Some "") (Some "sku,quantity")
    "" catalogState
  = (Ok tt, addToast catalogState TError "Invalid file format or empty file").
Proof.
  apply (handleImport_stops_on_empty_catalog sampleEnv string (fun _ => [])
           (fun _ => []) (fun _ _ _ => [widget]) admin true true (Some "")
           (Some "sku,quantity") "" catalogState "");
    reflexivity.
Defined.

Lemma import_button_and_handler_agree_witness :
  isImportButtonDisabled false auditor false true None None "loc-1" = true
  /\ FileUploader.handleImport sampleEnv string (fun _ => []) (fun _ => [])
       (fun _ _ _ => []) auditor false true None None "loc-1" catalogState
     = (Ok tt, catalogState).
Proof.
  apply (proj1 (import_button_and_handler_agree sampleEnv string (fun _ => [])
                  (fun _ => []) (fun _ _ _ => []) auditor false true None None
                  "loc-1" catalogState));
    reflexivity.
Defined.

(** One import with both files: the closing-stock rows are merged against
    the master list of the render that made the handler, here an empty one,
    not against the catalog the first branch has just stored, so the
    widget's closing-stock row is submitted without the name the catalog
    holds. *)
Lemma combined_import_merges_against_the_rendered_master :
  map db_name
      (submitted
         (calls (snd (FileUploader.handleImport
                        sampleEnv string (fun _ => ["row"]%string)
                        (fun _ => [widget]) (fun _ _ _ => [widgetClosing50])
                        admin true true (Some "catalog") (Some "stock") ""
                        emptyState))))
  = [Some "Widget"%string; None].
Proof. vm_compute. reflexivity. Qed.

(** ** Permissions and the inventory table *)

(** X13. Permissions grow with the role, in both UserContexts of the
    repository: nobody signed in has no permission; whatever a user may do,
    an admin may do; every permission the narrow context grants, the wide
    one grants too; and in the narrow context a client has no permission at
    all. No permission name outside the four listed ones is ever
    granted. *)
Theorem permissions_grow_with_the_role (u a : UserProfile) (permission : string) :
  role a = admin ->
  (UserContext.hasPermission None permission = false
   /\ UserContextWide.hasPermission None permission = false)
  /\ (UserContext.hasPermission (Some u) permission = true ->
      UserContext.hasPermission (Some a) permission = true
      /\ UserContextWide.hasPermission (Some u) permission = true)
  /\ (UserContextWide.hasPermission (Some u) permission = true ->
      UserContextWide.hasPermission (Some a) permission = true)
  /\ (role u = client ->
      UserContext.hasPermission (Some u) permission = false)
  /\ (UserContextWide.hasPermission (Some u) permission = true ->
      In permission ["viewAllLocations"; "manageUsers"; "viewReports";
                     "conductAudits"]%string).
Proof.
  intros Ha. unfold UserContext.hasPermission, UserContextWide.hasPermission.
  rewrite Ha. split; [split; reflexivity|].
  split; [|split; [|split]].
  - destruct (String.eqb_spec permission "manageUsers") as [->|];
      [cbn; intros ->; now split|].
    destruct (String.eqb_spec permission "conductAudits") as [->|];
      [cbn; intros ->; now split|]. discriminate.
  - destruct (String.eqb permission "viewAllLocations"); [reflexivity|].
    destruct (String.eqb permission "manageUsers"); [reflexivity|].
    destruct (String.eqb permission "viewReports"); [reflexivity|].
    destruct (String.eqb permission "conductAudits"); [reflexivity|].
    discriminate.
  - intros ->. cbn.
    now destruct (String.eqb permission "manageUsers"),
      (String.eqb permission "conductAudits").
  - destruct (String.eqb_spec permission "viewAllLocations") as [->|_];
      [intros _; cbn; auto|].
    destruct (String.eqb_spec permission "manageUsers") as [->|_];
      [intros _; cbn; auto|].
    destruct (String.eqb_spec permission "viewReports") as [->|_];
      [intros _; cbn; auto|].
    destruct (String.eqb_spec permission "conductAudits") as [->|_];
      [intros _; cbn; auto 6|].
    discriminate.
Qed.

Lemma permissions_grow_with_the_role_witness :
  UserContextWide.hasPermission None "viewReports" = false
  /\ UserContext.hasPermission (Some (mkUserProfile "u-3" client []))
                               "viewReports" = false.
Proof.
  destruct (permissions_grow_with_the_role
              (mkUserProfile "u-3" client []) (mkUserProfile "u-1" admin [])
              "viewReports" eq_refl) as ((_ & H1) & _ & _ & H4 & _).
  split; [exact H1 | exact (H4 eq_refl)].
Defined.

Lemma three_way_count {A : Type} (p q r : A -> bool) (l : list A) :
  (forall x, In x l ->
             (p x = true /\ q x = false /\ r x = false)
             \/ (p x = false /\ q x = true /\ r x = false)
             \/ (p x = false /\ q x = false /\ r x = true)) ->
  (List.length (filter p l) + List.length (filter q l)
   + List.length (filter r l) = List.length l)%nat.
Proof.
  induction l as [|a l IH]; intros H; [reflexivity|].
  assert (IH' := IH (fun x Hx => H x (or_intror Hx))).
  cbn [filter].
  destruct (H a (or_introl eq_refl)) as [(-> & -> & ->)|[(-> & -> & ->)|(-> & -> & ->)]];
    cbn [List.length]; lia.
Qed.

Lemma allTableData_status master audited row :
  (forall a, In a audited -> status a <> None) ->
  In row (InventoryTable.allTableData master audited) ->
  status row <> None.
Proof.
  intros Haud Hin. unfold InventoryTable.allTableData in Hin.
  apply in_map_iff in Hin as (item & <- & _).
  destruct (find _ audited) as [a|] eqn:Hf; cbn; [|discriminate].
  apply find_some in Hf as [Hf _]. now apply Haud.
Qed.

Lemma exclusive_count {A : Type} (p q r : A -> bool) (l : list A) :
  (forall x, p x && q x = false /\ p x && r x = false /\ q x && r x = false) ->
  (List.length (filter p l) + List.length (filter q l)
   + List.length (filter r l) <= List.length l)%nat.
Proof.
  intros H. induction l as [|a l IH]; [cbn; lia|].
  cbn [filter]. destruct (H a) as (H1 & H2 & H3).
  destruct (p a), (q a), (r a); cbn in H1, H2, H3; try discriminate;
    cbn [List.length]; lia.
Qed.

Lemma statusIs_exclusive (x : InventoryItem) :
  InventoryTable.statusIs pending x && InventoryTable.statusIs matched x = false
  /\ InventoryTable.statusIs pending x && InventoryTable.statusIs discrepancy x = false
  /\ InventoryTable.statusIs matched x && InventoryTable.statusIs discrepancy x = false.
Proof.
  unfold InventoryTable.statusIs. destruct (status x) as [[]|]; cbn; auto.
Qed.

Lemma statusIs_cases (x : InventoryItem) :
  status x <> None ->
  (InventoryTable.statusIs pending x = true
   /\ InventoryTable.statusIs matched x = false
   /\ InventoryTable.statusIs discrepancy x = false)
  \/ (InventoryTable.statusIs pending x = false
      /\ InventoryTable.statusIs matched x = true
      /\ InventoryTable.statusIs discrepancy x = false)
  \/ (InventoryTable.statusIs pending x = false
      /\ InventoryTable.statusIs matched x = false
      /\ InventoryTable.statusIs discrepancy x = true).
Proof.
  unfold InventoryTable.statusIs. destruct (status x) as [[]|]; cbn; intros H;
    auto; now destruct H.
Qed.

(** X14. The statistics over the inventory table: the table has one row
    per master record; the pending, matched and discrepancy counters never
    exceed the total together; and when every audited record carries a
    status they add up to it, the scanned total being the matched and the
    discrepancies. *)
Theorem table_statistics_add_up master audited :
  let rows := InventoryTable.allTableData master audited in
  let stats := InventoryTable.summaryStats rows in
  InventoryTable.total stats = Z.of_nat (List.length master)
  /\ InventoryTable.pending_count stats + InventoryTable.matched_count stats
     + InventoryTable.discrepancies_count stats <= InventoryTable.total stats
  /\ InventoryTable.totalScanned stats
     = InventoryTable.matched_count stats + InventoryTable.discrepancies_count stats
  /\ ((forall a, In a audited -> status a <> None) ->
      InventoryTable.pending_count stats + InventoryTable.totalScanned stats
      = InventoryTable.total stats).
Proof.
  intros rows stats. subst stats. unfold InventoryTable.summaryStats. cbn.
  split; [|split; [|split]].
  - subst rows. unfold InventoryTable.allTableData. now rewrite length_map.
  - pose proof (exclusive_count (InventoryTable.statusIs pending)
                  (InventoryTable.statusIs matched)
                  (InventoryTable.statusIs discrepancy) rows statusIs_exclusive).
    lia.
  - reflexivity.
  - intros Haud.
    pose proof (three_way_count (InventoryTable.statusIs pending)
                  (InventoryTable.statusIs matched)
                  (InventoryTable.statusIs discrepancy) rows) as H.
    assert (Hrows : forall x, In x rows -> status x <> None)
      by (intros x Hx; eapply allTableData_status; eauto).
    specialize (H (fun x Hx => statusIs_cases x (Hrows x Hx))). lia.
Qed.

Lemma table_statistics_add_up_witness :
  InventoryTable.pending_count
    (InventoryTable.summaryStats
       (InventoryTable.allTableData [widgetRecord; gadgetRecord] [countedThrice]))
  + InventoryTable.totalScanned
      (InventoryTable.summaryStats
         (InventoryTable.allTableData [widgetRecord; gadgetRecord] [countedThrice]))
  = InventoryTable.total
      (InventoryTable.summaryStats
         (InventoryTable.allTableData [widgetRecord; gadgetRecord] [countedThrice])).
Proof.
  apply (table_statistics_add_up [widgetRecord; gadgetRecord] [countedThrice]).
  intros a [<- | []]. discriminate.
Defined.

(** X15. What a user who is no admin sees in the inventory table: every
    row shown is a row of the table and, with a location selected, sits at
    the location the selection resolves to (a selection that resolves to
    nothing shows no row); with none selected, it sits at one of the user's
    accessible locations. *)
Theorem table_rows_follow_the_selection currentUser userLocations
        selectedLocation locations rows row :
  roleIsAdmin currentUser = false ->
  In row (InventoryTable.filteredData currentUser userLocations
                                      selectedLocation locations rows) ->
  In row rows
  /\ (if InventoryTable.given selectedLocation
      then exists loc, In loc locations
                       /\ selectedLocation = Some (loc_id loc)
                       /\ location row = loc_name loc
      else In (location row) (map loc_name userLocations)).
Proof.
  intros Hrole. unfold InventoryTable.filteredData. rewrite Hrole.
  cbn [andb negb]. destruct (InventoryTable.given selectedLocation) eqn:Hg.
  - destruct selectedLocation as [v|]; [|discriminate].
    destruct (find _ locations) as [loc|] eqn:Hf; [|intros []].
    intros Hin. apply filter_In in Hin as [Hin Hloc].
    apply find_some in Hf as [Hl Hid].
    apply String.eqb_eq in Hid, Hloc.
    split; [exact Hin|]. exists loc. now rewrite Hid.
  - intros Hin. apply filter_In in Hin as [Hin Hacc]. split; [exact Hin|].
    apply existsb_exists in Hacc as (n & Hn & He).
    apply String.eqb_eq in He. now rewrite He.
Qed.

Lemma table_rows_follow_the_selection_witness :
  In widgetRecord [widgetRecord; gadgetRecord]
  /\ In (location widgetRecord) (map loc_name [locL1]).
Proof.
  apply (table_rows_follow_the_selection auditorUser [locL1] None
           [locL1; locL2] [widgetRecord; gadgetRecord] widgetRecord eq_refl).
  left. reflexivity.
Defined.

(** ** Locations *)

Lemma hexDigits_length n s t :
  hexDigits n s = Some t -> String.length s = (n + String.length t)%nat.
Proof.
  revert s. induction n as [|n IH]; intros s H; cbn in H.
  - now inversion H.
  - destruct s as [|c r]; [discriminate|].
    destruct (isHexDigit c); [|discriminate].
    apply IH in H. cbn. lia.
Qed.

Lemma dash_length s t :
  dash s = Some t -> String.length s = S (String.length t).
Proof.
  destruct s as [|c r]; cbn; [discriminate|].
  destruct (Ascii.eqb_spec c "-"%char) as [->|Hc].
  - intros H. now inversion H.
  - destruct c as [[] [] [] [] [] [] [] []]; cbn; try discriminate.
    now destruct Hc.
Qed.

Lemma tempId_not_uuid millis : isValidUuid (tempId millis) = false.
Proof. reflexivity. Qed.

(** X16. The shape of a location id the service keeps: a string accepted
    by [isValidUuid] has 36 characters, and the temporary id [loc<millis>]
    that [addLocation] makes is never accepted, whatever the clock shows. *)
Theorem uuid_shape (v : string) :
  (isValidUuid v = true -> String.length v = 36%nat)
  /\ (forall millis, isValidUuid (tempId millis) = false).
Proof.
  split; [|exact tempId_not_uuid].
  unfold isValidUuid, and_then. intros H.
  destruct (hexDigits 8 v) as [r1|] eqn:H1; [|discriminate].
  destruct (dash r1) as [r2|] eqn:H2; [|discriminate].
  destruct (hexDigits 4 r2) as [r3|] eqn:H3; [|discriminate].
  destruct (dash r3) as [r4|] eqn:H4; [|discriminate].
  destruct (hexDigits 4 r4) as [r5|] eqn:H5; [|discriminate].
  destruct (dash r5) as [r6|] eqn:H6; [|discriminate].
  destruct (hexDigits 4 r6) as [r7|] eqn:H7; [|discriminate].
  destruct (dash r7) as [r8|] eqn:H8; [|discriminate].
  destruct (hexDigits 12 r8) as [[|c r9]|] eqn:H9; try discriminate.
  apply hexDigits_length in H1, H3, H5, H7, H9.
  apply dash_length in H2, H4, H6, H8. cbn in H9. lia.
Qed.

Lemma uuid_shape_witness : String.length (loc_id warehouse) = 36%nat.
Proof. exact (proj1 (uuid_shape (loc_id warehouse)) eq_refl). Defined.

Lemma refreshLocations_run LE st :
  InventoryContextLocations.refreshLocations LE st
  = (Ok tt,
     mkLocationSt
       (setLocations (if location_select_error LE (locations_table st) then []
                      else order_by_name LE (locations_table st))
                     (inventory st))
       (locations_table st) (location_calls st ++ [LSelect]) (date_reads st)).
Proof. reflexivity. Qed.

(** X17. The guard of [deleteLocation]: for an id the provider does not
    list, the call returns without doing anything; for a listed location
    that some master record names, it throws "Cannot delete location that
    contains inventory items" and sends no request: the whole state,
    requests included, is unchanged. *)
Theorem deleteLocation_guard LE st locationId :
  (find (fun loc => String.eqb (loc_id loc) locationId)
        (locations (inventory st)) = None ->
   InventoryContextLocations.deleteLocation LE locationId st = (Ok tt, st))
  /\ (forall l item,
         find (fun loc => String.eqb (loc_id loc) locationId)
              (locations (inventory st)) = Some l ->
         In item (itemMaster (inventory st)) ->
         location item = loc_name l ->
         InventoryContextLocations.deleteLocation LE locationId st
         = (Throw "Cannot delete location that contains inventory items", st)).
Proof.
  unfold InventoryContextLocations.deleteLocation. split.
  - now intros ->.
  - intros l item -> Hin Hloc.
    assert (H : existsb (fun item0 => String.eqb (location item0) (loc_name l))
                        (itemMaster (inventory st)) = true).
    { apply existsb_exists. exists item. split; [exact Hin|].
      rewrite Hloc. apply String.eqb_refl. }
    now rewrite H.
Qed.

Lemma deleteLocation_guard_witness :
  InventoryContextLocations.deleteLocation sampleLocationEnv (loc_id warehouse)
                                           locationState
  = (Throw "Cannot delete location that contains inventory items",
     locationState).
Proof.
  apply (proj2 (deleteLocation_guard sampleLocationEnv locationState
                  (loc_id warehouse)) warehouse widgetRecord).
  - reflexivity.
  - left. reflexivity.
  - reflexivity.
Defined.

Lemma sampleLocationEnv_reliable : location_reliable sampleLocationEnv.
Proof.
  split; [intros tbl row; reflexivity|].
  split; [intros tbl i; reflexivity|].
  split; [intros tbl; reflexivity|].
  intros tbl l. reflexivity.
Qed.

(** X18. Deleting a location no master record names, with a collaborator
    that answers every request: the call succeeds, the table loses exactly
    the rows with that id, the provider then lists what the table holds, and
    the inventory is untouched. The guard reads the master records only:
    audited records that name the location do not stop the deletion and
    stay as they are. *)
Theorem deleteLocation_removes_one_row LE st locationId l :
  location_reliable LE ->
  find (fun loc => String.eqb (loc_id loc) locationId)
       (locations (inventory st)) = Some l ->
  (forall item, In item (itemMaster (inventory st)) ->
                location item <> loc_name l) ->
  let st' := snd (InventoryContextLocations.deleteLocation LE locationId st) in
  fst (InventoryContextLocations.deleteLocation LE locationId st) = Ok tt
  /\ (forall x, In x (locations_table st')
                <-> In x (locations_table st) /\ loc_id x <> locationId)
  /\ (forall x, In x (locations (inventory st')) <-> In x (locations_table st'))
  /\ itemMaster (inventory st') = itemMaster (inventory st)
  /\ auditedItems (inventory st') = auditedItems (inventory st)
  /\ db (inventory st') = db (inventory st).
Proof.
  intros (Hup & Hdel & Hsel & Hord) Hfind Hfree.
  unfold InventoryContextLocations.deleteLocation. rewrite Hfind.
  assert (H : existsb (fun item => String.eqb (location item) (loc_name l))
                      (itemMaster (inventory st)) = false).
  { apply not_true_is_false. intros H. apply existsb_exists in H as (item & Hin & He).
    apply String.eqb_eq in He. exact (Hfree item Hin He). }
  rewrite H. unfold LocationService.deleteLocation. rewrite Hdel.
  rewrite refreshLocations_run. cbn. rewrite Hsel.
  split; [reflexivity|]. split; [|split; [|now repeat split]].
  - intros x. rewrite filter_In.
    destruct (String.eqb_spec (loc_id x) locationId); cbn; intuition congruence.
  - intros x. apply Hord.
Qed.

Lemma deleteLocation_removes_one_row_witness :
  fst (InventoryContextLocations.deleteLocation sampleLocationEnv (loc_id depot)
                                                locationState)
  = Ok tt
  /\ auditedItems
       (inventory
          (snd (InventoryContextLocations.deleteLocation
                  sampleLocationEnv (loc_id depot) locationState)))
     = [auditedAtDepot].
Proof.
  destruct (deleteLocation_removes_one_row sampleLocationEnv locationState
              (loc_id depot) depot sampleLocationEnv_reliable eq_refl)
    as (H1 & _ & _ & _ & H5 & _).
  - intros item [<- | [<- | []]]; discriminate.
  - split; [exact H1 | exact H5].
Defined.

Lemma upsert_location_replace LE tbl row i :
  up_id row = Some i ->
  existsb (fun l => String.eqb (loc_id l) i) tbl = true ->
  map loc_id (upsert_location LE tbl row) = map loc_id tbl
  /\ In (mkLocation i (up_name row) (up_description row) (Some (up_active row)))
        (upsert_location LE tbl row).
Proof.
  intros Hi Hex. unfold upsert_location. rewrite Hi, Hex. split.
  - rewrite map_map. apply map_ext. intros a.
    now destruct (String.eqb_spec (loc_id a) i).
  - apply existsb_exists in Hex as (a & Hin & Ha).
    apply in_map_iff. exists a. now rewrite Ha.
Qed.

(** X19. [addLocation] always adds a row and never replaces one: its
    temporary id is dropped before the upsert, so that on success the table
    is the old table followed by one row with a generated id, and the
    provider lists the table afresh; when the upsert is rejected, the table
    and the provider's state are unchanged. *)
Theorem addLocation_appends_a_row LE st location :
  let out := InventoryContextLocations.addLocation LE location st in
  let added :=
    mkLocation (location_id LE (locations_table st)) (loc_name location)
               (loc_description location)
               (Some (match loc_active location with
                      | Some b => b
                      | None => true
                      end)) in
  match fst out with
  | Ok _ =>
      locations_table (snd out) = locations_table st ++ [added]
      /\ locations (inventory (snd out))
         = (if location_select_error LE (locations_table (snd out)) then []
            else order_by_name LE (locations_table (snd out)))
  | Throw _ =>
      locations_table (snd out) = locations_table st
      /\ inventory (snd out) = inventory st
  end.
Proof.
  unfold InventoryContextLocations.addLocation, LocationService.updateLocation.
  cbn [loc_id loc_name loc_description loc_active inventory locations_table
       location_calls date_reads].
  rewrite tempId_not_uuid, andb_false_r.
  destruct (location_upsert_error LE _ _); cbn; [now split|].
  split; reflexivity.
Qed.

(** X20. [updateLocation] on a location whose id is in the table, the
    upsert being accepted: with a well-formed UUID the row of that id is
    replaced in place (same ids in the same order, the new fields stored);
    with any other id the id is dropped, so that the edit is stored as an
    additional row under a generated id and the old row stays. *)
Theorem updateLocation_replaces_or_duplicates LE st location :
  location_upsert_error LE (locations_table st)
    {| up_id := if negb (String.eqb (loc_id location) "")
                   && isValidUuid (loc_id location)
                then Some (loc_id location) else None;
       up_name := loc_name location;
       up_description := loc_description location;
       up_active := match loc_active location with
                    | Some b => b
                    | None => true
                    end |} = None ->
  In (loc_id location) (map loc_id (locations_table st)) ->
  let out := InventoryContextLocations.updateLocation LE location st in
  fst out = Ok tt
  /\ (isValidUuid (loc_id location) = true ->
      map loc_id (locations_table (snd out)) = map loc_id (locations_table st)
      /\ In (mkLocation (loc_id location) (loc_name location)
                        (loc_description location)
                        (Some (match loc_active location with
                               | Some b => b
                               | None => true
                               end)))
            (locations_table (snd out)))
  /\ (isValidUuid (loc_id location) = false ->
      locations_table (snd out)
      = locations_table st
        ++ [mkLocation (location_id LE (locations_table st)) (loc_name location)
                       (loc_description location)
                       (Some (match loc_active location with
                              | Some b => b
                              | None => true
                              end))]).
Proof.
  intros Hok Hin.
  unfold InventoryContextLocations.updateLocation, LocationService.updateLocation.
  rewrite Hok. rewrite refreshLocations_run. cbn.
  split; [reflexivity|]. split.
  - intros Hu.
    assert (Hne : negb (String.eqb (loc_id location) "") = true).
    { destruct (String.eqb_spec (loc_id location) "") as [He|]; [|reflexivity].
      rewrite He in Hu. discriminate. }
    apply (upsert_location_replace LE).
    + cbn. now rewrite Hne, Hu.
    + apply existsb_exists. apply in_map_iff in Hin as (a & Ha & Hin).
      exists a. split; [exact Hin|]. now apply String.eqb_eq.
  - intros Hu. unfold upsert_location. cbn. now rewrite Hu, andb_false_r.
Qed.

Lemma updateLocation_replaces_or_duplicates_witness :
  map loc_id
      (locations_table
         (snd (InventoryContextLocations.updateLocation
                 sampleLocationEnv
                 (mkLocation (loc_id warehouse) "Main" None None)
                 locationState)))
  = [loc_id warehouse; loc_id depot].
Proof.
  destruct (updateLocation_replaces_or_duplicates sampleLocationEnv
              locationState (mkLocation (loc_id warehouse) "Main" None None)
              eq_refl (or_introl eq_refl)) as (_ & H2 & _).
  exact (proj1 (H2 eq_refl)).
Defined.

(** ** The questionnaire *)

Lemma findIndex_none {A : Type} (p : A -> bool) (l : list A) :
  findIndex p l = None -> forall a, In a l -> p a = false.
Proof.
  induction l as [|h t IH]; cbn; [now intros|].
  destruct (p h) eqn:Hh; [discriminate|].
  destruct (findIndex p t); [discriminate|].
  intros _ a [<-|Hin]; [exact Hh|now apply IH].
Qed.

Lemma assign_first_match {A : Type} (p : A -> bool) (x : A) (l : list A) i :
  findIndex p l = Some i -> p x = true ->
  find p (assign_at i x l) = Some x
  /\ filter (fun a => negb (p a)) (assign_at i x l)
     = filter (fun a => negb (p a)) l
  /\ List.length (assign_at i x l) = List.length l.
Proof.
  revert i. induction l as [|h t IH]; intros i Hi Hx; cbn in Hi; [discriminate|].
  destruct (p h) eqn:Hh.
  - inversion Hi; subst i. cbn. now rewrite Hx, Hh.
  - destruct (findIndex p t) as [j|]; [|discriminate].
    inversion Hi; subst i. cbn. rewrite Hh. cbn.
    destruct (IH j eq_refl Hx) as (H1 & H2 & H3).
    now rewrite H1, H2, H3.
Qed.

Lemma append_no_match {A : Type} (p : A -> bool) (x : A) (l : list A) :
  findIndex p l = None -> p x = true ->
  find p (l ++ [x]) = Some x
  /\ filter (fun a => negb (p a)) (l ++ [x]) = filter (fun a => negb (p a)) l.
Proof.
  intros Hn Hx. pose proof (findIndex_none p l Hn) as Hall. clear Hn.
  induction l as [|h t IH]; cbn.
  - now rewrite Hx.
  - rewrite (Hall h (or_introl eq_refl)). cbn.
    destruct IH as [H1 H2]; [intros a Ha; apply Hall; now right|].
    now rewrite H1, H2.
Qed.

Lemma answers_same_key q l a :
  InventoryContextQuestions.answers_same q l a = true <-> answerKey a = (q, l).
Proof.
  unfold InventoryContextQuestions.answers_same, answerKey.
  rewrite andb_true_iff, !String.eqb_eq. split; [intros [-> ->]|intros H; inversion H]; auto.
Qed.

Lemma assign_keeps_keys (x : QuestionnaireAnswer) l i :
  findIndex (InventoryContextQuestions.answers_same (questionId x) (locationId x)) l
  = Some i ->
  map answerKey (assign_at i x l) = map answerKey l.
Proof.
  revert i. induction l as [|h t IH]; intros i Hi; cbn in Hi; [discriminate|].
  destruct (InventoryContextQuestions.answers_same _ _ h) eqn:Hh.
  - inversion Hi; subst i. cbn. f_equal.
    apply answers_same_key in Hh. now rewrite Hh.
  - destruct (findIndex _ t) as [j|]; [|discriminate].
    inversion Hi; subst i. cbn. f_equal. now apply IH.
Qed.

Lemma same_answer_key_iff a b :
  same_answer_key a b = true <-> rowKey a = rowKey b.
Proof.
  unfold same_answer_key, rowKey.
  rewrite andb_true_iff, !String.eqb_eq.
  split; [intros [-> ->]|intros H; inversion H]; auto.
Qed.

Lemma same_answer_key_neq a b :
  same_answer_key a b = false <-> rowKey a <> rowKey b.
Proof.
  rewrite <- same_answer_key_iff. now destruct (same_answer_key a b).
Qed.

Lemma upsert_answer_find_same tbl r :
  find (same_answer_key r) (upsert_answer tbl r) = Some r.
Proof.
  assert (Hrr : same_answer_key r r = true) by now apply same_answer_key_iff.
  unfold upsert_answer. destruct (existsb _ tbl) eqn:Hex.
  - induction tbl as [|a t IH]; cbn in *; [discriminate|].
    destruct (same_answer_key r a) eqn:Ha; cbn.
    + now rewrite Hrr.
    + rewrite Ha. apply IH. exact Hex.
  - induction tbl as [|a t IH]; cbn in *; [now rewrite Hrr|].
    apply orb_false_iff in Hex as [Ha Hex]. rewrite Ha. now apply IH.
Qed.

Lemma upsert_answer_find_other tbl r x :
  rowKey r <> rowKey x ->
  find (same_answer_key x) (upsert_answer tbl r) = find (same_answer_key x) tbl.
Proof.
  intros Hne.
  assert (Hxr : same_answer_key x r = false)
    by (apply same_answer_key_neq; congruence).
  unfold upsert_answer. destruct (existsb _ tbl).
  - induction tbl as [|a t IH]; cbn; [reflexivity|].
    destruct (same_answer_key r a) eqn:Ha.
    + rewrite Hxr.
      assert (same_answer_key x a = false) as ->.
      { apply same_answer_key_neq. apply same_answer_key_iff in Ha. congruence. }
      exact IH.
    + now rewrite IH.
  - induction tbl as [|a t IH]; cbn; [now rewrite Hxr|].
    now rewrite IH.
Qed.

Lemma upsert_answers_find_other rows tbl x :
  (forall r, In r rows -> rowKey r <> rowKey x) ->
  find (same_answer_key x) (upsert_answers tbl rows)
  = find (same_answer_key x) tbl.
Proof.
  unfold upsert_answers. revert tbl.
  induction rows as [|r rest IH]; intros tbl H; cbn; [reflexivity|].
  rewrite IH by (intros y Hy; apply H; now right).
  apply upsert_answer_find_other. apply H. now left.
Qed.

Lemma upsert_answers_find rows tbl x :
  NoDup (map rowKey rows) -> In x rows ->
  find (same_answer_key x) (upsert_answers tbl rows) = Some x.
Proof.
  unfold upsert_answers. revert tbl.
  induction rows as [|r rest IH]; intros tbl Hnd Hin; [destruct Hin|].
  cbn in Hnd. inversion Hnd as [|k ks Hnotin Hnd']; subst.
  cbn. destruct Hin as [->|Hin].
  - fold (upsert_answers (upsert_answer tbl x) rest).
    rewrite upsert_answers_find_other; [apply upsert_answer_find_same|].
    intros y Hy He. apply Hnotin. rewrite <- He. now apply in_map.
  - now apply IH.
Qed.

Lemma upsert_answer_keeps tbl r row :
  In row tbl -> rowKey r <> rowKey row -> In row (upsert_answer tbl r).
Proof.
  intros Hin Hne. unfold upsert_answer. destruct (existsb _ tbl).
  - apply in_map_iff. exists row. split; [|exact Hin].
    now apply same_answer_key_neq in Hne as ->.
  - apply in_or_app. now left.
Qed.

Lemma upsert_answers_keeps rows tbl row :
  In row tbl -> (forall r, In r rows -> rowKey r <> rowKey row) ->
  In row (upsert_answers tbl rows).
Proof.
  unfold upsert_answers. revert tbl.
  induction rows as [|r rest IH]; intros tbl Hin H; cbn; [exact Hin|].
  apply IH; [|intros y Hy; apply H; now right].
  apply upsert_answer_keeps; [exact Hin|apply H; now left].
Qed.

Lemma toDbAnswer_key QE a : rowKey (QuestionService.toDbAnswer QE a) = answerKey a.
Proof. reflexivity. Qed.

Lemma nonempty_positive {A : Type} (l : list A) :
  l <> [] -> (0 <? Z.of_nat (List.length l)) = true.
Proof. destruct l; [congruence|reflexivity]. Qed.

(** X21. Saving an answer, the upsert being accepted: the call succeeds;
    the provider then holds the new answer, stamped with the clock, as its
    first answer for that question and location; the answers of every other
    key are kept in order; and when the answers had distinct keys before,
    they have distinct keys after (the old answer of the key is replaced,
    not joined) and the table holds the new answer's row under its key. *)
Theorem saved_answer_replaces_the_old_one QE a st :
  answers_accepted QE ->
  let out := InventoryContextQuestions.saveQuestionnaireAnswer QE a st in
  let newAnswer :=
    mkQuestionnaireAnswer (questionId a) (locationId a) (answer a)
                          (answeredBy a) (iso_now QE (time_reads st)) in
  let same := InventoryContextQuestions.answers_same (questionId a) (locationId a) in
  fst out = Ok tt
  /\ find same (questionnaireAnswers (snd out)) = Some newAnswer
  /\ filter (fun x => negb (same x)) (questionnaireAnswers (snd out))
     = filter (fun x => negb (same x)) (questionnaireAnswers st)
  /\ (NoDup (map answerKey (questionnaireAnswers st)) ->
      NoDup (map answerKey (questionnaireAnswers (snd out)))
      /\ find (same_answer_key (QuestionService.toDbAnswer QE newAnswer))
              (answers_table (snd out))
         = Some (QuestionService.toDbAnswer QE newAnswer)).
Proof.
  intros Hacc out newAnswer same. subst out.
  unfold InventoryContextQuestions.saveQuestionnaireAnswer.
  fold newAnswer. fold same.
  set (updated := match findIndex same (questionnaireAnswers st) with
                  | Some i => assign_at i newAnswer (questionnaireAnswers st)
                  | None => questionnaireAnswers st ++ [newAnswer]
                  end).
  assert (Hnew : same newAnswer = true) by (apply answers_same_key; reflexivity).
  assert (Hin : In newAnswer updated).
  { subst updated. destruct (findIndex same _) as [i|] eqn:Hi.
    - destruct (assign_first_match same newAnswer _ i Hi Hnew) as (Hf & _).
      now apply find_some in Hf.
    - apply in_or_app. right. now left. }
  assert (Hne : updated <> []) by (intros He; rewrite He in Hin; destruct Hin).
  unfold QuestionService.setQuestionnaireAnswers.
  cbn [InventoryContextQuestions.tick questions questionnaireAnswers
       questions_table answers_table question_calls time_reads].
  rewrite (nonempty_positive updated Hne), Hacc. cbn.
  split; [reflexivity|].
  assert (H12 : find same updated = Some newAnswer
                /\ filter (fun x => negb (same x)) updated
                   = filter (fun x => negb (same x)) (questionnaireAnswers st)).
  { subst updated. destruct (findIndex same _) as [i|] eqn:Hi.
    - destruct (assign_first_match same newAnswer _ i Hi Hnew) as (H1 & H2 & _).
      now split.
    - now apply append_no_match. }
  destruct H12 as [H1 H2]. split; [exact H1|]. split; [exact H2|].
  intros Hnd.
  assert (Hnd' : NoDup (map answerKey updated)).
  { subst updated. destruct (findIndex same _) as [i|] eqn:Hi.
    - now rewrite (assign_keeps_keys newAnswer _ i Hi).
    - rewrite map_app. cbn.
      apply NoDup_app; [exact Hnd|repeat constructor; intros []|].
      intros k Hk [<-|[]].
      apply in_map_iff in Hk as (b & Hb & Hbin).
      pose proof (findIndex_none same _ Hi b Hbin) as Hf.
      assert (same b = true) by (apply answers_same_key; exact Hb). congruence. }
  split; [exact Hnd'|].
  apply upsert_answers_find.
  - rewrite map_map. erewrite map_ext; [exact Hnd'|]. intros; reflexivity.
  - now apply in_map.
Qed.

Lemma saved_answer_replaces_the_old_one_witness :
  find (InventoryContextQuestions.answers_same "q1" "loc-1")
       (questionnaireAnswers
          (snd (InventoryContextQuestions.saveQuestionnaireAnswer
                  sampleQuestionEnv secondAnswer questionState)))
  = Some (mkQuestionnaireAnswer "q1" "loc-1" (OneAnswer "no") (Some "u-2") "t1")
  /\ List.length
       (questionnaireAnswers
          (snd (InventoryContextQuestions.saveQuestionnaireAnswer
                  sampleQuestionEnv secondAnswer questionState)))
     = 1%nat.
Proof.
  destruct (saved_answer_replaces_the_old_one sampleQuestionEnv secondAnswer
              questionState (fun tbl rows => eq_refl)) as (_ & H2 & _).
  split; [exact H2 | reflexivity].
Defined.

(** X22. An answer the database rejects is not kept: when the upsert is
    answered with an error, [saveQuestionnaireAnswer] throws that error and
    the provider's answers, its questions and the table are unchanged. *)
Theorem rejected_answer_changes_nothing QE a st e :
  (forall rows, answers_upsert_error QE (answers_table st) rows = Some e) ->
  let out := InventoryContextQuestions.saveQuestionnaireAnswer QE a st in
  fst out = Throw e
  /\ questionnaireAnswers (snd out) = questionnaireAnswers st
  /\ answers_table (snd out) = answers_table st
  /\ questions (snd out) = questions st.
Proof.
  intros Hrej out. subst out.
  unfold InventoryContextQuestions.saveQuestionnaireAnswer.
  set (updated := match findIndex _ (questionnaireAnswers st) with
                  | Some i => _
                  | None => _
                  end).
  assert (Hne : updated <> []).
  { subst updated. destruct (findIndex _ _) as [i|] eqn:Hi.
    - destruct (questionnaireAnswers st) as [|h t]; [discriminate|].
      destruct i; discriminate.
    - destruct (questionnaireAnswers st); discriminate. }
  unfold QuestionService.setQuestionnaireAnswers.
  cbn [InventoryContextQuestions.tick questions questionnaireAnswers
       questions_table answers_table question_calls time_reads].
  rewrite (nonempty_positive updated Hne), Hrej. cbn. now repeat split.
Qed.

Lemma rejected_answer_changes_nothing_witness :
  fst (InventoryContextQuestions.saveQuestionnaireAnswer
         rejectingQuestionEnv secondAnswer questionState)
  = Throw "permission denied"
  /\ questionnaireAnswers
       (snd (InventoryContextQuestions.saveQuestionnaireAnswer
               rejectingQuestionEnv secondAnswer questionState))
     = [firstAnswer].
Proof.
  destruct (rejected_answer_changes_nothing rejectingQuestionEnv secondAnswer
              questionState "permission denied" (fun rows => eq_refl))
    as (H1 & H2 & _).
  split; [exact H1 | exact H2].
Defined.

Lemma setQuestionnaireAnswers_table QE answers st :
  answers_table (snd (QuestionService.setQuestionnaireAnswers QE answers st))
  = answers_table st
  \/ answers_table (snd (QuestionService.setQuestionnaireAnswers QE answers st))
     = upsert_answers (answers_table st)
                      (map (QuestionService.toDbAnswer QE) answers).
Proof.
  unfold QuestionService.setQuestionnaireAnswers.
  destruct (0 <? _); [|now left].
  destruct (answers_upsert_error QE _ _); cbn; [now left|now right].
Qed.

Lemma setQuestions_answers QE qs st :
  answers_table (snd (QuestionService.setQuestions QE qs st)) = answers_table st
  /\ questionnaireAnswers (snd (QuestionService.setQuestions QE qs st))
     = questionnaireAnswers st
  /\ questions (snd (QuestionService.setQuestions QE qs st)) = questions st.
Proof.
  unfold QuestionService.setQuestions.
  destruct (0 <? _); [|now repeat split].
  destruct (questions_insert_error QE _ _); cbn; now repeat split.
Qed.

(** X23. [deleteQuestion] never deletes a stored answer: the rows of the
    answers table for the deleted question are still in the table after the
    call, whatever the collaborator answers, since the remaining answers are
    only upserted; on success the provider holds no question with that id
    and no answer to it. *)
Theorem deleteQuestion_leaves_stored_answers QE qid st row :
  In row (answers_table st) ->
  ans_question_id row = qid ->
  let out := InventoryContextQuestions.deleteQuestion QE qid st in
  In row (answers_table (snd out))
  /\ (fst out = Ok tt ->
      InventoryContextQuestions.getQuestionById qid (snd out) = None
      /\ (forall a, In a (questionnaireAnswers (snd out)) -> questionId a <> qid)).
Proof.
  intros Hin Hq out. subst out.
  unfold InventoryContextQuestions.deleteQuestion.
  set (qs := filter _ (questions st)).
  set (answers := filter _ (questionnaireAnswers st)).
  destruct (setQuestions_answers QE qs st) as (Ht & _ & _).
  destruct (QuestionService.setQuestions QE qs st) as [[u|e] st1] eqn:Hs;
    cbn [snd] in Ht.
  2:{ cbn. split; [now rewrite Ht|discriminate]. }
  set (st2 := InventoryContextQuestions.setQuestionsState qs st1).
  assert (Ht2 : answers_table st2 = answers_table st) by exact Ht.
  pose proof (setQuestionnaireAnswers_table QE answers st2) as Hor.
  assert (Hkeep : In row (answers_table
                            (snd (QuestionService.setQuestionnaireAnswers QE answers st2)))).
  { destruct Hor as [-> | ->]; rewrite Ht2; [exact Hin|].
    apply upsert_answers_keeps; [exact Hin|].
    intros r Hr He. apply in_map_iff in Hr as (a & <- & Ha).
    subst answers. apply filter_In in Ha as [_ Ha].
    apply negb_true_iff in Ha. apply String.eqb_neq in Ha.
    apply Ha. rewrite <- Hq.
    change (fst (rowKey (QuestionService.toDbAnswer QE a)) = fst (rowKey row)).
    now rewrite He. }
  assert (Hq3 : questions
                  (snd (QuestionService.setQuestionnaireAnswers QE answers st2))
                = qs).
  { unfold QuestionService.setQuestionnaireAnswers.
    destruct (0 <? _); [|reflexivity].
    destruct (answers_upsert_error QE _ _); reflexivity. }
  destruct (QuestionService.setQuestionnaireAnswers QE answers st2)
    as [[u'|e] st3]; cbn [fst snd] in *.
  - split; [exact Hkeep|]. intros _. split.
    + unfold InventoryContextQuestions.getQuestionById. cbn. rewrite Hq3.
      destruct (find _ qs) as [q|] eqn:Hf; [|reflexivity].
      apply find_some in Hf as [Hf1 Hf2]. subst qs.
      apply filter_In in Hf1 as [_ Hf1]. now rewrite Hf2 in Hf1.
    + cbn. intros a Ha. subst answers. apply filter_In in Ha as [_ Ha].
      apply negb_true_iff in Ha. now apply String.eqb_neq.
  - split; [exact Hkeep|discriminate].
Qed.

Lemma deleteQuestion_leaves_stored_answers_witness :
  In (QuestionService.toDbAnswer sampleQuestionEnv firstAnswer)
     (answers_table
        (snd (InventoryContextQuestions.deleteQuestion sampleQuestionEnv "q1"
                                                       questionState)))
  /\ InventoryContextQuestions.getQuestionById
       "q1"
       (snd (InventoryContextQuestions.deleteQuestion sampleQuestionEnv "q1"
                                                      questionState))
     = None.
Proof.
  destruct (deleteQuestion_leaves_stored_answers sampleQuestionEnv "q1"
              questionState
              (QuestionService.toDbAnswer sampleQuestionEnv firstAnswer)
              (or_introl eq_refl) eq_refl) as (H1 & H2).
  split; [exact H1 | exact (proj1 (H2 eq_refl))].
Defined.

(** X24. Storing the questions is not atomic: [setQuestions] deletes every
    stored question before it inserts the new list, so that when the delete
    is carried out and the insert is rejected, [addQuestion] throws, the
    provider still holds its old questions, and the table of questions is
    empty. *)
Theorem rejected_insert_empties_the_questions_table QE question st e :
  questions_delete_fails QE (questions_table st) = false ->
  (forall rows, questions_insert_error QE [] rows = Some e) ->
  let out := InventoryContextQuestions.addQuestion QE question st in
  fst out = Throw e
  /\ questions (snd out) = questions st
  /\ questions_table (snd out) = [].
Proof.
  intros Hdel Hins out. subst out.
  unfold InventoryContextQuestions.addQuestion, QuestionService.setQuestions.
  cbn [InventoryContextQuestions.tick questions questionnaireAnswers
       questions_table answers_table question_calls time_reads].
  rewrite Hdel, Hins.
  rewrite nonempty_positive by (destruct (questions st); discriminate).
  now repeat split.
Qed.

Lemma rejected_insert_empties_the_questions_table_witness :
  questions (snd (InventoryContextQuestions.addQuestion
                    rejectingQuestionEnv aisleQuestion questionState))
  = [aisleQuestion]
  /\ questions_table (snd (InventoryContextQuestions.addQuestion
                             rejectingQuestionEnv aisleQuestion questionState))
     = [].
Proof.
  destruct (rejected_insert_empties_the_questions_table rejectingQuestionEnv
              aisleQuestion questionState "permission denied" eq_refl
              (fun rows => eq_refl)) as (_ & H2 & H3).
  split; [exact H2 | exact H3].
Defined.

Lemma find_replaced (question : Question) (qs : list Question) :
  In (question_id question) (map question_id qs) ->
  find (fun q => String.eqb (question_id q) (question_id question))
       (map (fun q => if String.eqb (question_id q) (question_id question)
                      then question else q) qs)
  = Some question.
Proof.
  induction qs as [|h t IH]; cbn; [intros []|].
  destruct (String.eqb_spec (question_id h) (question_id question)) as [He|Hne].
  - intros _. now rewrite String.eqb_refl.
  - intros [H|H]; [congruence|].
    apply String.eqb_neq in Hne. rewrite Hne. now apply IH.
Qed.

Lemma find_not_replaced (question : Question) (qs : list Question) other :
  other <> question_id question ->
  find (fun q => String.eqb (question_id q) other)
       (map (fun q => if String.eqb (question_id q) (question_id question)
                      then question else q) qs)
  = find (fun q => String.eqb (question_id q) other) qs.
Proof.
  intros Hne. induction qs as [|h t IH]; cbn; [reflexivity|].
  destruct (String.eqb_spec (question_id h) (question_id question)) as [He|Hne'].
  - rewrite He.
    assert (String.eqb (question_id question) other = false) as ->
        by (apply String.eqb_neq; congruence).
    exact IH.
  - now rewrite IH.
Qed.

(** X25. [updateQuestion] and [getQuestionById], the collaborator accepting
    the writes: the ids of the questions and their order are unchanged; the
    table holds the provider's list; a question whose id is known is what
    [getQuestionById] returns for that id afterwards; an unknown id changes
    no question; and every other id resolves as before. *)
Theorem updateQuestion_then_getQuestionById QE question st :
  questions_accepted QE ->
  let out := InventoryContextQuestions.updateQuestion QE question st in
  fst out = Ok tt
  /\ map question_id (questions (snd out)) = map question_id (questions st)
  /\ questions_table (snd out) = questions (snd out)
  /\ (In (question_id question) (map question_id (questions st)) ->
      InventoryContextQuestions.getQuestionById (question_id question) (snd out)
      = Some question)
  /\ (~ In (question_id question) (map question_id (questions st)) ->
      questions (snd out) = questions st)
  /\ (forall other, other <> question_id question ->
        InventoryContextQuestions.getQuestionById other (snd out)
        = InventoryContextQuestions.getQuestionById other st).
Proof.
  intros [Hdel Hins] out. subst out.
  unfold InventoryContextQuestions.updateQuestion, QuestionService.setQuestions.
  rewrite Hdel, Hins.
  set (updated := map _ (questions st)).
  assert (Hids : map question_id updated = map question_id (questions st)).
  { subst updated. rewrite map_map. apply map_ext. intros q.
    now destruct (String.eqb_spec (question_id q) (question_id question)). }
  destruct (0 <? Z.of_nat (List.length updated)) eqn:Hlen; cbn.
  - split; [reflexivity|]. split; [exact Hids|]. split; [reflexivity|].
    split; [apply find_replaced|].
    split; [|intros other Hne; now apply find_not_replaced].
    intros Hnot. subst updated. rewrite <- (map_id (questions st)) at 2.
    apply map_ext_in. intros q Hq.
    destruct (String.eqb_spec (question_id q) (question_id question)) as [He|];
      [|reflexivity].
    destruct Hnot. rewrite <- He. now apply in_map.
  - assert (updated = []) as Hnil by (destruct updated; [reflexivity|discriminate]).
    split; [reflexivity|]. split; [exact Hids|]. split; [now rewrite Hnil|].
    split; [apply find_replaced|].
    split; [|intros other Hne; now apply find_not_replaced].
    intros _. rewrite Hnil in *. destruct (questions st); [reflexivity|discriminate].
Qed.

Lemma updateQuestion_then_getQuestionById_witness :
  InventoryContextQuestions.getQuestionById
    "q1"
    (snd (InventoryContextQuestions.updateQuestion
            sampleQuestionEnv
            (mkQuestion "q1" "Is the aisle blocked?" QYesNo false None)
            questionState))
  = Some (mkQuestion "q1" "Is the aisle blocked?" QYesNo false None).
Proof.
  destruct (updateQuestion_then_getQuestionById sampleQuestionEnv
              (mkQuestion "q1" "Is the aisle blocked?" QYesNo false None)
              questionState
              (conj (fun tbl => eq_refl) (fun tbl rows => eq_refl)))
    as (_ & _ & _ & H4 & _).
  exact (H4 (or_introl eq_refl)).
Defined.

(** ** Search *)

Lemma lookup_assign_same k v q : lookup k (assign k v q) = Some v.
Proof.
  unfold lookup, assign. destruct (existsb _ q) eqn:Hex.
  - induction q as [|[k0 v0] t IH]; cbn in *; [discriminate|].
    destruct (String.eqb_spec k0 k) as [->|Hne]; cbn.
    + now rewrite String.eqb_refl.
    + apply String.eqb_neq in Hne. rewrite Hne. now apply IH.
  - induction q as [|[k0 v0] t IH]; cbn in *; [now rewrite String.eqb_refl|].
    apply orb_false_iff in Hex as [H0 Hex]. rewrite H0. now apply IH.
Qed.

Lemma lookup_assign_other k k' v q :
  k' <> k -> lookup k' (assign k v q) = lookup k' q.
Proof.
  intros Hne. unfold lookup, assign.
  assert (Hk : String.eqb k k' = false) by (apply String.eqb_neq; congruence).
  destruct (existsb _ q).
  - induction q as [|[k0 v0] t IH]; cbn; [reflexivity|].
    destruct (String.eqb_spec k0 k) as [->|Hne0]; cbn.
    + rewrite Hk. exact IH.
    + destruct (String.eqb k0 k'); [reflexivity|exact IH].
  - induction q as [|[k0 v0] t IH]; cbn; [now rewrite Hk|].
    destruct (String.eqb k0 k'); [reflexivity|exact IH].
Qed.

Lemma lookup_after_search (old : Quantities) results acc k :
  lookup k
    (fold_left (fun acc item =>
                  assign (SearchInventory.getItemKey item)
                         (or_zero (lookup (SearchInventory.getItemKey item) old))
                         acc)
               results acc)
  = if existsb (fun item => String.eqb (SearchInventory.getItemKey item) k) results
    then Some (or_zero (lookup k old))
    else lookup k acc.
Proof.
  revert acc. induction results as [|item rest IH]; intros acc; cbn;
    [reflexivity|].
  rewrite IH.
  destruct (existsb _ rest); [now rewrite orb_true_r|]. rewrite orb_false_r.
  destruct (String.eqb_spec (SearchInventory.getItemKey item) k) as [<-|Hne].
  - apply lookup_assign_same.
  - apply lookup_assign_other. congruence.
Qed.

(** X26. A search with a query of at least two characters: an admin gets
    what [searchItem] finds; any other user gets only master records at
    their accessible locations; and the quantities entered before are kept
    for the keys of the records listed and forgotten for every other key. *)
Theorem search_results_are_accessible toLowerCase currentUser userLocations
        itemMaster st :
  2 <= Z.of_nat (String.length (searchQuery st)) ->
  let st' := SearchInventory.handleSearch toLowerCase currentUser userLocations
                                          itemMaster st in
  (roleIsAdmin currentUser = true ->
   searchResults st'
   = InventoryContextSearch.searchItem toLowerCase itemMaster (searchQuery st))
  /\ (roleIsAdmin currentUser = false ->
      forall item, In item (searchResults st') ->
                   In item itemMaster
                   /\ In (location item) (map loc_name userLocations))
  /\ (forall k,
         lookup k (quantities st')
         = if existsb (fun item => String.eqb (SearchInventory.getItemKey item) k)
                      (searchResults st')
           then Some (or_zero (lookup k (quantities st)))
           else None).
Proof.
  intros Hlen st'. subst st'. unfold SearchInventory.handleSearch.
  apply Z.leb_le in Hlen. rewrite Hlen. cbn [searchResults quantities].
  split; [now intros ->|]. split.
  - intros ->. cbn [negb]. intros item Hin.
    apply filter_In in Hin as [Hin Hacc]. split.
    + unfold InventoryContextSearch.searchItem in Hin.
      destruct (_ || _) in Hin; [destruct Hin|].
      now apply filter_In in Hin.
    + apply existsb_exists in Hacc as (n & Hn & He).
      apply String.eqb_eq in He. now rewrite He.
  - intros k. apply lookup_after_search.
Qed.

Lemma search_results_are_accessible_witness :
  searchResults
    (SearchInventory.handleSearch (fun s => s) auditorUser [locL2]
                                  [widgetRecord; gadgetRecord] searchState)
  = []
  /\ lookup "row-0-L1"
       (quantities
          (SearchInventory.handleSearch (fun s => s) adminUser []
                                        [widgetRecord; gadgetRecord] searchState))
     = Some 2.
Proof.
  assert (Hlen : 2 <= Z.of_nat (String.length (searchQuery searchState)))
    by (cbn; lia).
  split.
  - reflexivity.
  - exact (proj2 (proj2 (search_results_are_accessible
                           (fun s => s) adminUser [] [widgetRecord; gadgetRecord]
                           searchState Hlen))
                 "row-0-L1"%string).
Defined.

(** The numbers a user has entered are never negative. *)
Lemma or_zero_lookup_nonneg k q :
  (forall k' v, lookup k' q = Some v -> 0 <= v) -> 0 <= or_zero (lookup k q).
Proof.
  intros H. destruct (lookup k q) as [v|] eqn:Hl.
  - rewrite or_zero_Some. now apply (H k).
  - cbn. lia.
Qed.

(** X27. The quantity buttons keep the entered numbers from falling below
    zero: the plus button adds one to the number shown for the record, the
    minus button subtracts one but stops at zero, minus after plus shows the
    number from before, no other key is touched, and numbers that are not
    negative stay so. *)
Theorem quantity_buttons_keep_counts_nonnegative item st :
  (forall k v, lookup k (quantities st) = Some v -> 0 <= v) ->
  let key := SearchInventory.getItemKey item in
  let up := SearchInventory.incrementQuantity item st in
  let down := SearchInventory.decrementQuantity item st in
  lookup key (quantities up) = Some (or_zero (lookup key (quantities st)) + 1)
  /\ or_zero (lookup key (quantities down))
     = Z.max 0 (or_zero (lookup key (quantities st)) - 1)
  /\ or_zero (lookup key (quantities (SearchInventory.decrementQuantity item up)))
     = or_zero (lookup key (quantities st))
  /\ (forall k, k <> key ->
                lookup k (quantities up) = lookup k (quantities st)
                /\ lookup k (quantities down) = lookup k (quantities st))
  /\ (forall k v, lookup k (quantities up) = Some v -> 0 <= v)
  /\ (forall k v, lookup k (quantities down) = Some v -> 0 <= v).
Proof.
  intros Hpos key up down.
  pose proof (or_zero_lookup_nonneg key _ Hpos) as H0.
  assert (Hup : lookup key (quantities up)
                = Some (or_zero (lookup key (quantities st)) + 1))
    by apply lookup_assign_same.
  assert (Hdown : or_zero (lookup key (quantities down))
                  = Z.max 0 (or_zero (lookup key (quantities st)) - 1)
                  /\ (forall k, k <> key ->
                        lookup k (quantities down) = lookup k (quantities st))
                  /\ (forall k v, lookup k (quantities down) = Some v -> 0 <= v)).
  { subst down. unfold SearchInventory.decrementQuantity. fold key.
    destruct (lookup key (quantities st)) as [v|] eqn:Hl.
    - destruct (Z.ltb_spec 0 v) as [Hv|Hv]; cbn [quantities].
      + rewrite lookup_assign_same, !or_zero_Some.
        split; [lia|]. split; [intros k Hk; now apply lookup_assign_other|].
        intros k w. destruct (String.eqb_spec k key) as [->|Hne].
        * rewrite lookup_assign_same. intros [= <-]. lia.
        * rewrite lookup_assign_other by exact Hne. apply Hpos.
      + rewrite Hl, or_zero_Some. pose proof (Hpos key v Hl).
        split; [lia|]. split; [reflexivity|exact Hpos].
    - rewrite Hl. cbn. split; [reflexivity|]. split; [reflexivity|exact Hpos]. }
  destruct Hdown as (Hd1 & Hd2 & Hd3).
  split; [exact Hup|]. split; [exact Hd1|]. split; [|split; [|split]].
  - unfold SearchInventory.decrementQuantity. fold key. rewrite Hup.
    destruct (Z.ltb_spec 0 (or_zero (lookup key (quantities st)) + 1)); [|lia].
    cbn [quantities]. rewrite lookup_assign_same, or_zero_Some. lia.
  - intros k Hk. split; [now apply lookup_assign_other|now apply Hd2].
  - intros k w. destruct (String.eqb_spec k key) as [->|Hne].
    + rewrite Hup. intros [= <-]. lia.
    + subst up. unfold SearchInventory.incrementQuantity. cbn [quantities].
      fold key. rewrite lookup_assign_other by exact Hne. apply Hpos.
  - exact Hd3.
Qed.

Lemma quantity_buttons_keep_counts_nonnegative_witness :
  lookup "row-0-L1"
         (quantities (SearchInventory.incrementQuantity widgetRecord searchState))
  = Some 3
  /\ or_zero (lookup "row-1-L2"
                     (quantities (SearchInventory.decrementQuantity
                                    gadgetRecord searchState)))
     = 0.
Proof.
  assert (Hpos : forall k v, lookup k (quantities searchState) = Some v -> 0 <= v).
  { intros k v. unfold lookup, searchState. cbn [quantities find fst].
    destruct (String.eqb "row-0-L1" k); cbn [option_map snd]; intros H;
      inversion H; lia. }
  split.
  - exact (proj1 (quantity_buttons_keep_counts_nonnegative
                    widgetRecord searchState Hpos)).
  - exact (proj1 (proj2 (quantity_buttons_keep_counts_nonnegative
                           gadgetRecord searchState Hpos))).
Defined.

Lemma addItemToAudit_toasts E item quantity st :
  toasts (snd (InventoryContext.addItemToAudit E item quantity st)) = toasts st.
Proof.
  unfold InventoryContext.addItemToAudit.
  destruct (quantity <? 0); [reflexivity|].
  unfold bind at 1. unfold InventoryContext.now at 1. cbn iota beta.
  rewrite updateAuditedItem_run. cbv zeta.
  destruct (upsert_error E _ _); reflexivity.
Qed.

Lemma addItemToAudit_rejected E item quantity st e :
  (forall rows, upsert_error E (db st) rows = Some e) ->
  let st' := snd (InventoryContext.addItemToAudit E item quantity st) in
  db st' = db st /\ itemMaster st' = itemMaster st
  /\ auditedItems st' = auditedItems st.
Proof.
  intros Hrej. cbv zeta.
  remember (InventoryContext.addItemToAudit E item quantity st) as out eqn:Hout.
  unfold InventoryContext.addItemToAudit in Hout.
  destruct (quantity <? 0); [subst out; now repeat split|].
  unfold bind at 1 in Hout. unfold InventoryContext.now at 1 in Hout.
  cbn iota beta in Hout.
  rewrite updateAuditedItem_run in Hout. cbv zeta in Hout. cbn [db] in Hout.
  rewrite Hrej in Hout. subst out. cbn [snd db itemMaster auditedItems].
  split; [reflexivity|split; reflexivity].
Qed.

(** X28. [handleAddToAudit] always reports success: it returns normally
    and shows exactly one more notification, the success "Item added to
    audit", whatever the persistence collaborator answers; when the
    database rejects the write, the table and the provider's records are
    unchanged although success was reported. *)
Theorem add_to_audit_always_reports_success E item q st :
  let out := SearchInventory.handleAddToAudit E item q st in
  fst out = Ok tt
  /\ toasts (snd out) = toasts st ++ [mkToast TSuccess "Item added to audit"]
  /\ (forall e, (forall rows, upsert_error E (db st) rows = Some e) ->
                db (snd out) = db st
                /\ itemMaster (snd out) = itemMaster st
                /\ auditedItems (snd out) = auditedItems st).
Proof.
  intros out. subst out. unfold SearchInventory.handleAddToAudit.
  set (quantity := or_zero _).
  pose proof (addItemToAudit_toasts E item quantity st) as Ht.
  assert (Hr : forall e, (forall rows, upsert_error E (db st) rows = Some e) ->
               let st' := snd (InventoryContext.addItemToAudit E item quantity st) in
               db st' = db st /\ itemMaster st' = itemMaster st
               /\ auditedItems st' = auditedItems st)
    by (intros e He; now apply (addItemToAudit_rejected E item quantity st e)).
  unfold bind, try_catch, ret, toast.
  destruct (InventoryContext.addItemToAudit E item quantity st) as [[u|e] st1];
    cbn [fst snd] in *; cbn; rewrite Ht; (split; [reflexivity|]);
    (split; [reflexivity|]); exact Hr.
Qed.

Lemma add_to_audit_always_reports_success_witness :
  toasts (snd (SearchInventory.handleAddToAudit
                 rejectingEnv widgetRecord (quantities searchState)
                 catalogState))
  = toasts catalogState ++ [mkToast TSuccess "Item added to audit"]
  /\ db (snd (SearchInventory.handleAddToAudit
                rejectingEnv widgetRecord (quantities searchState)
                catalogState))
     = db catalogState.
Proof.
  destruct (add_to_audit_always_reports_success
              rejectingEnv widgetRecord (quantities searchState) catalogState)
    as (_ & H2 & H3).
  split; [exact H2|].
  exact (proj1 (H3 "permission denied"%string (fun rows => eq_refl))).
Defined.

(** ** The hardware scanner listener *)

Lemma append_empty_right (s : string) : (s ++ "")%string = s.
Proof. induction s as [|c s IH]; cbn; [reflexivity|now rewrite IH]. Qed.

Lemma append_one_char (s : string) c rest :
  ((s ++ String c EmptyString) ++ rest)%string = (s ++ String c rest)%string.
Proof. induction s as [|d s IH]; cbn; [reflexivity|now rewrite IH]. Qed.

Lemma keystrokes_fill_the_buffer trim E user acc sel code s :
  String.eqb sel "" = false ->
  fold_left (HardwareScanner.listen trim E user acc true sel false)
            (keystrokes code) s
  = mkScannerSt (scannedBuffer s ++ code)%string (scannedBarcode s) (provider s).
Proof.
  intros Hsel. unfold keystrokes. revert s.
  induction code as [|c code IH]; intros s; cbn [list_ascii_of_string map fold_left].
  - rewrite append_empty_right. now destruct s.
  - rewrite IH. cbn [HardwareScanner.listen].
    unfold HardwareScanner.handleKeyPress. rewrite Hsel. cbn [negb orb].
    assert (String.eqb (String c "") "Enter" = false) as ->.
    { apply String.eqb_neq. discriminate. }
    cbn [String.length Nat.eqb scannedBuffer scannedBarcode provider].
    now rewrite append_one_char.
Qed.

(** X29. A code typed by the hardware scanner is scanned on Enter: in
    hardware mode, with a location selected, no other input focused and an
    empty buffer, the key events of a code followed by Enter leave the
    provider in the state [handleItemScan] reaches for the trimmed code at
    the selected location, empty the buffer, and record the code as the
    last scanned one exactly when the scan succeeded. *)
Theorem typed_code_is_scanned_on_enter trim E user acc sel code s :
  sel <> "" ->
  scannedBuffer s = "" ->
  trim code <> "" ->
  let s' := fold_left (HardwareScanner.listen trim E user acc true sel false)
                      (keystrokes code ++ [KeyDown "Enter"]) s in
  let scan := BarcodeScanner.handleItemScan E user acc (trim code) sel in
  provider s' = run scan (provider s)
  /\ scannedBuffer s' = ""
  /\ scannedBarcode s'
     = (if match result scan (provider s) with Ok b => b | Throw _ => false end
        then trim code else scannedBarcode s).
Proof.
  intros Hsel Hbuf Htrim s' scan. subst s'.
  apply String.eqb_neq in Hsel. apply String.eqb_neq in Htrim.
  rewrite fold_left_app, (keystrokes_fill_the_buffer _ _ _ _ _ _ _ Hsel).
  rewrite Hbuf. cbn [fold_left HardwareScanner.listen append].
  unfold HardwareScanner.handleKeyPress. rewrite Hsel. cbn [negb orb].
  rewrite String.eqb_refl. cbn [scannedBuffer scannedBarcode provider].
  rewrite Htrim. cbn [negb].
  unfold run, result. fold scan.
  destruct (scan (provider s)) as [[[|]|e] st']; cbn; now repeat split.
Qed.

Lemma typed_code_is_scanned_on_enter_witness :
  provider
    (fold_left (HardwareScanner.listen (fun s => s) sampleEnv adminUser []
                                       true "loc-1" false)
               (keystrokes "A1" ++ [KeyDown "Enter"]) idleScanner)
  = auditedState.
Proof.
  assert (Hsel : "loc-1"%string <> ""%string) by discriminate.
  assert (Hcode : (fun s : string => s) "A1"%string <> ""%string) by discriminate.
  exact (proj1 (typed_code_is_scanned_on_enter
                  (fun s => s) sampleEnv adminUser [] "loc-1" "A1" idleScanner
                  Hsel eq_refl Hcode)).
Defined.

(** X30. The guard of the listener: outside hardware mode, without a
    selected location, or while another input is focused, no sequence of
    key events and timer events reaches the provider or changes the last
    scanned code; the buffer keeps its content or is emptied by the
    timer. *)
Theorem listener_ignores_keys_when_guarded trim E user acc mode sel focused
        events s :
  mode = false \/ sel = "" \/ focused = true ->
  let s' := fold_left (HardwareScanner.listen trim E user acc mode sel focused)
                      events s in
  provider s' = provider s
  /\ scannedBarcode s' = scannedBarcode s
  /\ (scannedBuffer s' = scannedBuffer s \/ scannedBuffer s' = "").
Proof.
  intros Hguard.
  assert (Hg : negb mode || String.eqb sel "" || focused = true).
  { destruct Hguard as [-> | [-> | ->]]; [reflexivity|now rewrite orb_true_r|].
    apply orb_true_r. }
  cbv zeta. revert s. induction events as [|ev events IH]; intros s; cbn.
  - split; [reflexivity|]. split; [reflexivity|now left].
  - destruct (IH (HardwareScanner.listen trim E user acc mode sel focused s ev))
      as (H1 & H2 & H3).
    rewrite H1, H2.
    destruct ev as [key|]; cbn [HardwareScanner.listen] in *.
    + unfold HardwareScanner.handleKeyPress in *. rewrite Hg in *.
      split; [reflexivity|]. split; [reflexivity|exact H3].
    + unfold HardwareScanner.clearBuffer in *.
      destruct (mode && _); cbn in *.
      * split; [reflexivity|]. split; [reflexivity|]. right. now destruct H3.
      * split; [reflexivity|]. split; [reflexivity|exact H3].
Qed.

Lemma listener_ignores_keys_when_guarded_witness :
  provider
    (fold_left (HardwareScanner.listen (fun s => s) sampleEnv adminUser []
                                       false "loc-1" false)
               (keystrokes "A1" ++ [KeyDown "Enter"]) idleScanner)
  = catalogState.
Proof.
  exact (proj1 (listener_ignores_keys_when_guarded
                  (fun s => s) sampleEnv adminUser [] false "loc-1" false
                  (keystrokes "A1" ++ [KeyDown "Enter"]) idleScanner
                  (or_introl eq_refl))).
Defined.
